(** * Candidate tundra-fire detection: a pixel-level model of
      [Scripts/candidate_fire_vector_export_code.js]

    The script is an Earth Engine expression graph.  Every raster operation it
    uses is pointwise, so the development fixes one pixel location and
    represents an image by the values its bands take there.  A masked
    ("no data") value is [None].  Band values are integers (the quality word,
    the results of [toInt]) or reals (reflectances and indices); the rounding
    of single-precision storage is not modelled, [toFloat] only changes the
    type tag.  Operations that Earth Engine rejects (selecting a band that is
    not there, reducing a collection whose images disagree on their bands)
    return [None] at the image level. *)

From Stdlib Require Import Reals ZArith String DecimalString Bool Lia Lra.
From Stdlib Require Import List Permutation Sorted.
From Stdlib Require Import DecimalZ.
Import ListNotations.

Local Open Scope string_scope.
Local Open Scope Z_scope.
Local Open Scope R_scope.
Local Open Scope list_scope.

(* ================================================================== *)
(** ** Earth Engine primitives *)
(* ================================================================== *)

Module EE.

(** *** Numbers *)

Inductive num : Type :=
| Int (z : Z)
| Flt (r : R).

Definition toR (n : num) : R :=
  match n with Int z => IZR z | Flt r => r end.

Definition Rltb (x y : R) : bool := if Rlt_dec x y then true else false.
Definition Rleb (x y : R) : bool := if Rle_dec x y then true else false.
Definition Reqb (x y : R) : bool := if Req_dec_T x y then true else false.

Definition ofBool (b : bool) : num := Int (if b then 1 else 0)%Z.

(** A number counts as true when it is not zero. *)
Definition truthy (n : num) : bool :=
  match n with
  | Int z => negb (z =? 0)%Z
  | Flt r => negb (Reqb r 0)
  end.

(** Arithmetic keeps integers when both operands are integers and promotes
    to a real otherwise. *)
Definition arith (fz : Z -> Z -> Z) (fr : R -> R -> R) (a b : num) : num :=
  match a, b with
  | Int x, Int y => Int (fz x y)
  | _, _ => Flt (fr (toR a) (toR b))
  end.

Definition compare (fz : Z -> Z -> bool) (fr : R -> R -> bool) (a b : num) : num :=
  match a, b with
  | Int x, Int y => ofBool (fz x y)
  | _, _ => ofBool (fr (toR a) (toR b))
  end.

Definition nadd := arith Z.add Rplus.
Definition nsub := arith Z.sub Rminus.
Definition nmul := arith Z.mul Rmult.

(** [divide]: the script only divides where an operand is a real; the
    quotient by zero is zero, as for [Image.divide] (and for [Rdiv]). *)
Definition ndiv (a b : num) : num := Flt (toR a / toR b).

Definition ngt  := compare Z.gtb (fun x y => Rltb y x).
Definition nlt  := compare Z.ltb Rltb.
Definition ngte := compare Z.geb (fun x y => Rleb y x).
Definition neq  := compare Z.eqb Reqb.

Definition nor (a b : num) : num := ofBool (truthy a || truthy b).
Definition nnot (a : num) : num := ofBool (negb (truthy a)).

(** Casting a real to an integer drops the fractional part. *)
Definition Rtrunc (r : R) : Z :=
  if Rle_dec 0 r then Zfloor r else Zceil r.

Definition toZ (n : num) : Z :=
  match n with Int z => z | Flt r => Rtrunc r end.

(** Bitwise operations work on integers; the script applies them to the
    integer quality band only. *)
Definition nbitwiseAnd (a b : num) : num := Int (Z.land (toZ a) (toZ b)).

Definition ntoInt (a : num) : num :=
  match a with Int z => Int z | Flt r => Int (Rtrunc r) end.

Definition ntoFloat (a : num) : num := Flt (toR a).

Definition nabs (a : num) : num :=
  match a with Int z => Int (Z.abs z) | Flt r => Flt (Rabs r) end.

Definition nsqrt (a : num) : num := Flt (sqrt (toR a)).

(** Piecewise-linear interpolation through the points [(x_i, y_i)], with
    the 'clamp' behaviour outside the first and last breakpoint. *)
Fixpoint interpolate_from (x0 y0 : R) (xs ys : list R) (v : R) : R :=
  match xs, ys with
  | x1 :: xs', y1 :: ys' =>
      if Rle_dec v x1
      then y0 + (v - x0) * (y1 - y0) / (x1 - x0)
      else interpolate_from x1 y1 xs' ys' v
  | _, _ => y0
  end.

Definition ninterpolate (xs ys : list R) (a : num) : num :=
  match xs, ys with
  | x0 :: xs', y0 :: ys' =>
      Flt (if Rle_dec (toR a) x0 then y0
           else interpolate_from x0 y0 xs' ys' (toR a))
  | _, _ => Flt (toR a)
  end.

(** *** Pixels: a value or no data *)

Definition pixel : Type := option num.

Definition pmap (f : num -> num) (p : pixel) : pixel := option_map f p.

Definition pmap2 (f : num -> num -> num) (p q : pixel) : pixel :=
  match p, q with
  | Some a, Some b => Some (f a b)
  | _, _ => None
  end.

Definition pconst (n : num) : pixel := Some n.

Definition flt (r : R) : pixel := Some (Flt r).
Definition int (z : Z) : pixel := Some (Int z).

Definition npow (a : num) (n : nat) : num := Flt (toR a ^ n).

Declare Scope px_scope.
Delimit Scope px_scope with px.
Notation "p + q" := (pmap2 nadd p q) : px_scope.
Notation "p - q" := (pmap2 nsub p q) : px_scope.
Notation "p * q" := (pmap2 nmul p q) : px_scope.
Notation "p / q" := (pmap2 ndiv p q) : px_scope.
Notation "p ** n" := (pmap (fun a => npow a n) p)
  (at level 30, right associativity) : px_scope.

(** [normalizedDifference]: [(first - second) / (first + second)]; a
    negative value in either input masks the output. *)
Definition pnormalizedDifference (p q : pixel) : pixel :=
  match p, q with
  | Some a, Some b =>
      if Rltb (toR a) 0 || Rltb (toR b) 0 then None
      else Some (Flt ((toR a - toR b) / (toR a + toR b)))
  | _, _ => None
  end.

(** [updateMask]: the value survives where the mask is valid and not zero. *)
Definition pupdateMask (p mask : pixel) : pixel :=
  match mask with
  | Some m => if truthy m then p else None
  | None => None
  end.

Definition pselfMask (p : pixel) : pixel := pupdateMask p p.

(** [clip]: no data outside the geometry. *)
Definition pclip (inside : bool) (p : pixel) : pixel :=
  if inside then p else None.

(** *** Images at the fixed pixel

    [bands] lists the bands in order with their value at the pixel;
    [time_start] is the 'system:time_start' property (milliseconds), the only
    property the script reads; [in_bounds] records whether the footprint of
    the image meets the region of interest of the run. *)

Record Image : Type := mkImage {
  bands : list (string * pixel);
  time_start : option Z;
  in_bounds : bool
}.

Definition bandNames (img : Image) : list string := map fst (bands img).

Fixpoint lookup (name : string) (bs : list (string * pixel)) : option pixel :=
  match bs with
  | [] => None
  | (n, p) :: bs' => if String.eqb n name then Some p else lookup name bs'
  end.

(** Errors are [None]; [x <- c ;; k] sequences fallible steps. *)
Definition bind {A B : Type} (c : option A) (k : A -> option B) : option B :=
  match c with Some a => k a | None => None end.

Notation "x <- c ;; k" := (bind c (fun x => k))
  (at level 61, c at next level, right associativity).

(** [b('name')] in an expression, [select('name')] as an operand. *)
Definition band (name : string) (img : Image) : option pixel :=
  lookup name (bands img).

Fixpoint selectBands (names : list string) (bs : list (string * pixel))
  : option (list (string * pixel)) :=
  match names with
  | [] => Some []
  | n :: names' =>
      p <- lookup n bs ;;
      rest <- selectBands names' bs ;;
      Some ((n, p) :: rest)
  end.

Definition withBands (img : Image) (bs : list (string * pixel)) : Image :=
  mkImage bs (time_start img) (in_bounds img).

(** [select(names)] fails on a name that matches no band. *)
Definition select (names : list string) (img : Image) : option Image :=
  bs <- selectBands names (bands img) ;;
  Some (withBands img bs).

(** [rename(names)] needs one new name per band. *)
Definition rename (names : list string) (img : Image) : option Image :=
  if Nat.eqb (length names) (length (bands img))
  then Some (withBands img (combine names (map snd (bands img))))
  else None.

(** [select(names, newNames)]. *)
Definition selectAs (names newNames : list string) (img : Image) : option Image :=
  sub <- select names img ;;
  rename newNames sub.

(** [select([0], [name])]. *)
Definition selectFirstAs (name : string) (img : Image) : option Image :=
  match bands img with
  | (_, p) :: _ => Some (withBands img [(name, p)])
  | [] => None
  end.

(** The band names the script adds never collide, so [addBands] appends. *)
Definition addBands (img extra : Image) : Image :=
  withBands img (bands img ++ bands extra).

Definition cat (imgs : list Image) : Image :=
  mkImage (concat (map bands imgs)) None true.

(** The result of pixel arithmetic carries no properties. *)
Definition computed (bs : list (string * pixel)) (src : Image) : Image :=
  mkImage bs None (in_bounds src).

Definition mapBands (f : pixel -> pixel) (img : Image) : Image :=
  computed (map (fun nb => (fst nb, f (snd nb))) (bands img)) img.

(** The one-band image an expression evaluates to. *)
Definition result (p : pixel) (src : Image) : Image :=
  computed [("constant", p)] src.

(** Band-wise binary operation: bands are matched in order when the two
    images have as many, a one-band image is used against every band of the
    other, anything else is an error. *)
Definition binary (f : pixel -> pixel -> pixel) (a b : Image) : option Image :=
  match bands a, bands b with
  | _, [(_, q)] => Some (mapBands (fun p => f p q) a)
  | [(_, p)], _ => Some (mapBands (fun q => f p q) b)
  | _, _ =>
      if Nat.eqb (length (bands a)) (length (bands b))
      then Some (computed
                   (map (fun pq => (fst (fst pq), f (snd (fst pq)) (snd (snd pq))))
                        (combine (bands a) (bands b))) a)
      else None
  end.

(** [normalizedDifference([first, second])]: one band named 'nd', the
    properties of the input are not kept. *)
Definition normalizedDifference (first second : string) (img : Image)
  : option Image :=
  A <- band first img ;;
  B <- band second img ;;
  Some (computed [("nd", pnormalizedDifference A B)] img).

(** [updateMask(mask)] with a one-band mask; value and properties stay. *)
Definition updateMask (img : Image) (mask : pixel) : Image :=
  withBands img (map (fun nb => (fst nb, pupdateMask (snd nb) mask)) (bands img)).

Definition clip (inside : bool) (img : Image) : Image :=
  withBands img (map (fun nb => (fst nb, pclip inside (snd nb))) (bands img)).

(** [copyProperties(src, ['system:time_start'])]. *)
Definition copyProperties (img src : Image) : Image :=
  mkImage (bands img)
          (match time_start src with Some t => Some t | None => time_start img end)
          (in_bounds img).

(** *** Dates

    An [ee.Date] built from a calendar day, kept as that day; [millis] is
    the instant it denotes (UTC midnight, milliseconds since 1970-01-01).
    [advance(k, 'year')] moves to the same day of another year, which exists
    for every date the script builds (none is a 29 February). *)

Record Date : Type := mkDate { year : Z; month : Z; day : Z }.

Definition days_from_civil (d : Date) : Z :=
  let y := (if month d <=? 2 then year d - 1 else year d)%Z in
  let era := (y / 400)%Z in
  let yoe := (y - era * 400)%Z in
  let mp := ((month d + 9) mod 12)%Z in
  let doy := ((153 * mp + 2) / 5 + day d - 1)%Z in
  let doe := (yoe * 365 + yoe / 4 - yoe / 100 + doy)%Z in
  (era * 146097 + doe - 719468)%Z.

Definition millis (d : Date) : Z := (days_from_civil d * 86400000)%Z.

Definition advance_years (k : Z) (d : Date) : Date :=
  mkDate (year d + k) (month d) (day d).

(** *** Image collections *)

Definition ImageCollection : Type := list Image.

Definition merge (a b : ImageCollection) : ImageCollection := a ++ b.

Definition filterBounds (col : ImageCollection) : ImageCollection :=
  filter in_bounds col.

(** [filterDate(start, end)]: start inclusive, end exclusive; an image
    without a time stamp never passes. *)
Definition in_range (s e : Date) (img : Image) : bool :=
  match time_start img with
  | Some t => (millis s <=? t)%Z && (t <? millis e)%Z
  | None => false
  end.

Definition filterDate (s e : Date) (col : ImageCollection) : ImageCollection :=
  filter (in_range s e) col.

(** [map] with a function that can fail: one failure fails the collection. *)
Fixpoint mapCol (f : Image -> option Image) (col : ImageCollection)
  : option ImageCollection :=
  match col with
  | [] => Some []
  | img :: col' =>
      img' <- f img ;;
      rest <- mapCol f col' ;;
      Some (img' :: rest)
  end.

(** *** Reducers over a collection

    A reducer sees, band by band, the values of the images that have data
    at the pixel; with none the output is no data.  The output carries the
    bands of the images; an empty collection gives an image without bands
    and a collection whose images disagree on their band names is an
    error. *)

Fixpoint insert (x : R) (l : list R) : list R :=
  match l with
  | [] => [x]
  | y :: l' => if Rle_dec x y then x :: l else y :: insert x l'
  end.

Fixpoint sort (l : list R) : list R :=
  match l with
  | [] => []
  | x :: l' => insert x (sort l')
  end.

Definition Reducer : Type := list R -> option R.

Definition median : Reducer := fun l =>
  let s := sort l in
  let n := length s in
  match n with
  | O => None
  | _ => if Nat.even n
         then Some ((nth (n / 2 - 1) s 0 + nth (n / 2) s 0) / 2)
         else Some (nth (n / 2) s 0)
  end.

Definition min : Reducer := fun l =>
  match l with
  | [] => None
  | x :: l' => Some (fold_left Rmin l' x)
  end.

Definition mean : Reducer := fun l =>
  match l with
  | [] => None
  | _ => Some (fold_right Rplus 0 l / INR (length l))
  end.

Definition valid (name : string) (img : Image) : list R :=
  match band name img with
  | Some (Some v) => [toR v]
  | _ => []
  end.

Definition values (name : string) (col : ImageCollection) : list R :=
  flat_map (valid name) col.

Definition same_names (a b : list string) : bool :=
  if list_eq_dec string_dec a b then true else false.

Definition reduce (r : Reducer) (col : ImageCollection) : option Image :=
  match col with
  | [] => Some (mkImage [] None true)
  | first :: _ =>
      if forallb (fun img => same_names (bandNames img) (bandNames first)) col
      then Some (mkImage
                   (map (fun n => (n, option_map Flt (r (values n col))))
                        (bandNames first))
                   None true)
      else None
  end.

End EE.

Import EE.

(* ================================================================== *)
(** ** The script *)
(* ================================================================== *)

Definition allVars : list string :=
  ["RBR"; "RdNBR"; "dNBR"; "dNBR2"; "dNDVI"; "dNDMI"; "dNDWI"; "dEVI"; "dMIRBI";
   "dBAI"; "dBAIMs"; "dCSI"; "dBSI"; "dMSAVI"; "dTCB"; "dTCG"; "dTCW"].

Definition predictorVariables : list string := ["dNBR2"; "dTCG"; "dTCB"].

Definition allVariables : list string :=
  ["nbr"; "nbr2"; "ndvi"; "ndmi"; "ndwi"; "evi"; "mirbi";
   "bai"; "baims"; "csi"; "bsi"; "msavi"; "tcb"; "tcg"; "tcw"].

(** *** Spectral indices *)

Definition getEVI (img : Image) : option Image :=
  NIR <- band "nir" img ;;
  RED <- band "red" img ;;
  BLUE <- band "blue" img ;;
  selectFirstAs "evi"
    (result (pmap ntoFloat
       (flt 2.5 * ((NIR - RED) / (NIR + (int 6 * RED) - (flt 7.5 * BLUE) + int 1)))%px)
       img).

Definition getMIRBI (img : Image) : option Image :=
  lSWIR <- band "lswir" img ;;
  sSWIR <- band "sswir" img ;;
  selectFirstAs "mirbi"
    (result (pmap ntoFloat
       ((int 10 * lSWIR) - (flt 9.8 * sSWIR) + int 2)%px) img).

Definition getBAI (img : Image) : option Image :=
  RED <- band "red" img ;;
  NIR <- band "nir" img ;;
  selectFirstAs "bai"
    (result (pmap ntoFloat
       (int 1 / ((flt 0.1 - RED) ** 2 + (flt 0.06 - NIR) ** 2))%px) img).

Definition getBAIMs (img : Image) : option Image :=
  NIR <- band "nir" img ;;
  sSWIR <- band "sswir" img ;;
  selectFirstAs "baims"
    (result (pmap ntoFloat
       (int 1 / ((NIR - flt 0.05 * NIR) ** 2 + (sSWIR - flt 0.2 * sSWIR) ** 2))%px)
       img).

Definition getCSI (img : Image) : option Image :=
  NIR <- band "nir" img ;;
  sSWIR <- band "sswir" img ;;
  selectFirstAs "csi" (result (pmap ntoFloat (NIR / sSWIR)%px) img).

Definition getBSI (img : Image) : option Image :=
  RED <- band "red" img ;;
  sSWIR <- band "sswir" img ;;
  BLUE <- band "blue" img ;;
  NIR <- band "nir" img ;;
  selectFirstAs "bsi"
    (result (pmap ntoFloat
       (((RED + sSWIR) - (NIR + BLUE)) / ((RED + sSWIR) + (NIR + BLUE)))%px) img).

Definition getMSAVI (img : Image) : option Image :=
  NIR <- band "nir" img ;;
  RED <- band "red" img ;;
  selectFirstAs "msavi"
    (result (pmap ntoFloat
       ((int 2 * NIR + int 1
         - pmap nsqrt ((int 2 * NIR + int 1) ** 2 - int 8 * (NIR - RED)))
        / int 2)%px) img).

Definition getTCB (img : Image) : option Image :=
  BLUE <- band "blue" img ;;
  GREEN <- band "green" img ;;
  RED <- band "red" img ;;
  NIR <- band "nir" img ;;
  sSWIR <- band "sswir" img ;;
  lSWIR <- band "lswir" img ;;
  selectFirstAs "tcb"
    (result (pmap ntoFloat
       (flt 0.2043 * BLUE + flt 0.4158 * GREEN + flt 0.5524 * RED
        + flt 0.5741 * NIR + flt 0.3124 * sSWIR + flt 0.2303 * lSWIR)%px) img).

Definition getTCG (img : Image) : option Image :=
  BLUE <- band "blue" img ;;
  GREEN <- band "green" img ;;
  RED <- band "red" img ;;
  NIR <- band "nir" img ;;
  sSWIR <- band "sswir" img ;;
  lSWIR <- band "lswir" img ;;
  selectFirstAs "tcg"
    (result (pmap ntoFloat
       (flt (-0.1603) * BLUE - flt 0.2819 * GREEN - flt 0.4934 * RED
        + flt 0.7940 * NIR - flt 0.0002 * sSWIR - flt 0.1446 * lSWIR)%px) img).

Definition getTCW (img : Image) : option Image :=
  BLUE <- band "blue" img ;;
  GREEN <- band "green" img ;;
  RED <- band "red" img ;;
  NIR <- band "nir" img ;;
  sSWIR <- band "sswir" img ;;
  lSWIR <- band "lswir" img ;;
  selectFirstAs "tcw"
    (result (pmap ntoFloat
       (flt 0.0315 * BLUE + flt 0.2021 * GREEN + flt 0.3102 * RED
        + flt 0.1594 * NIR - flt 0.6806 * sSWIR - flt 0.6109 * lSWIR)%px) img).

(** *** Band renaming and rescaling, per sensor family *)

Definition ls89Rename (lsImage : Image) : option Image :=
  sub0 <- select ["SR_B2"; "SR_B3"; "SR_B4"; "SR_B5"; "SR_B6"; "SR_B7"; "QA_PIXEL"]
                 lsImage ;;
  sub <- rename ["blue"; "green"; "red"; "nir"; "sswir"; "lswir"; "qa_pixel"] sub0 ;;
  Some (copyProperties sub lsImage).

Definition scale : R := 0.0000275.
Definition offset : R := -0.2.

Definition convertBandsls89 (lsImage : Image) : option Image :=
  qa <- select ["QA_PIXEL"] lsImage ;;
  sel <- select ["SR_B2"; "SR_B3"; "SR_B4"; "SR_B5"; "SR_B6"; "SR_B7"] lsImage ;;
  let bands :=
    mapBands (fun p => pmap ntoFloat (p * flt scale + flt offset)%px) sel in
  Some (copyProperties (addBands bands qa) lsImage).

Definition ls457Rename (lsImage : Image) : option Image :=
  sub0 <- select ["SR_B1"; "SR_B2"; "SR_B3"; "SR_B4"; "SR_B5"; "SR_B7"; "QA_PIXEL"]
                 lsImage ;;
  sub <- rename ["blue"; "green"; "red"; "nir"; "sswir"; "lswir"; "qa_pixel"] sub0 ;;
  Some (copyProperties sub lsImage).

Definition convertBandsls457 (lsImage : Image) : option Image :=
  qa <- select ["QA_PIXEL"] lsImage ;;
  sel <- select ["SR_B1"; "SR_B2"; "SR_B3"; "SR_B4"; "SR_B5"; "SR_B7"] lsImage ;;
  let bands :=
    mapBands (fun p => pmap ntoFloat (p * flt scale + flt offset)%px) sel in
  Some (copyProperties (addBands bands qa) lsImage).

(** *** Quality masks *)

Definition bitwiseAnd (p : pixel) (m : Z) : pixel :=
  pmap (fun a => nbitwiseAnd a (Int m)) p.

Definition por (p q : pixel) : pixel := pmap2 nor p q.

Definition cloudConfidence (quality : pixel) : pixel :=
  pmap ntoInt
    (pmap (ninterpolate [0; 129; 257; 384] [0; 1; 2; 3])
       (bitwiseAnd quality 128 + bitwiseAnd quality 256)%px).

Definition cloudConfidenceMedHigh (quality : pixel) : pixel :=
  pmap (fun c => ngte c (Int 2)) (cloudConfidence quality).

(** The mask of [lsMaskNew]: the five defect bits. *)
Definition lsMaskNew_mask (quality : pixel) : pixel :=
  let dilatedCloud := Z.shiftl 1 1 in
  let cloud := Z.shiftl 1 3 in
  let cloudShadow := Z.shiftl 1 4 in
  let water := Z.shiftl 1 7 in
  let snow := Z.shiftl 1 5 in
  por (por (por (por (bitwiseAnd quality cloud)
                     (bitwiseAnd quality dilatedCloud))
                (bitwiseAnd quality cloudShadow))
           (bitwiseAnd quality water))
      (bitwiseAnd quality snow).

Definition lsMaskNew (lsImg : Image) : option Image :=
  quality <- band "qa_pixel" lsImg ;;
  let mask := lsMaskNew_mask quality in
  let clear := pmap nnot mask in
  sel <- select allVariables (updateMask lsImg clear) ;;
  Some (copyProperties sel lsImg).

(** The mask of [SLC_lsMask]: the same, or-ed with [cloudConfidenceMedHigh]. *)
Definition SLC_lsMask_mask (quality : pixel) : pixel :=
  let dilatedCloud := Z.shiftl 1 1 in
  let cloud := Z.shiftl 1 3 in
  let cloudShadow := Z.shiftl 1 4 in
  let water := Z.shiftl 1 7 in
  let snow := Z.shiftl 1 5 in
  por (por (por (por (por (bitwiseAnd quality cloud)
                          (bitwiseAnd quality dilatedCloud))
                     (bitwiseAnd quality cloudShadow))
                (bitwiseAnd quality water))
           (bitwiseAnd quality snow))
      (cloudConfidenceMedHigh quality).

Definition SLC_lsMask (lsImg : Image) : option Image :=
  quality <- band "qa_pixel" lsImg ;;
  let mask := SLC_lsMask_mask quality in
  let clear := pmap nnot mask in
  sel <- select allVariables (updateMask lsImg clear) ;;
  Some (copyProperties sel lsImg).

(** *** The per-observation feature raster *)

Definition index (first second name : string) (img : Image) : option Image :=
  nd <- normalizedDifference first second img ;;
  rename [name] (mapBands (pmap ntoFloat) nd).

Definition Indices (img : Image) : option Image :=
  nbr <- index "nir" "lswir" "nbr" img ;;
  nbr2 <- index "sswir" "lswir" "nbr2" img ;;
  ndvi <- index "nir" "red" "ndvi" img ;;
  ndmi <- index "nir" "sswir" "ndmi" img ;;
  ndwi <- index "green" "nir" "ndwi" img ;;
  evi <- getEVI img ;;
  mirbi <- getMIRBI img ;;
  bai <- getBAI img ;;
  baims <- getBAIMs img ;;
  csi <- getCSI img ;;
  bsi <- getBSI img ;;
  msavi <- getMSAVI img ;;
  tcb <- getTCB img ;;
  tcg <- getTCG img ;;
  tcw <- getTCW img ;;
  qa <- select ["qa_pixel"] img ;;
  Some (copyProperties
          (addBands nbr (cat [nbr2; ndvi; ndmi; ndwi; evi; mirbi; bai; baims;
                              csi; bsi; msavi; tcb; tcg; tcw; qa]))
          img).

(** *** The harmonized collection

    The raster archive is an input of the run: one raw collection per
    sensor. *)

Record Archive : Type := mkArchive {
  LT04 : ImageCollection;
  LT05 : ImageCollection;
  LE07 : ImageCollection;
  LC08 : ImageCollection;
  LC09 : ImageCollection
}.

Definition process (convert rename_ mask : Image -> option Image)
    (raw : ImageCollection) : option ImageCollection :=
  c1 <- mapCol convert raw ;;
  c2 <- mapCol rename_ c1 ;;
  c3 <- mapCol Indices c2 ;;
  mapCol mask c3.

Definition lsCol (archive : Archive) : option ImageCollection :=
  let ls4SR := filterBounds (LT04 archive) in
  let ls5SR := filterBounds (LT05 archive) in
  let ls7SR_OK :=
    filterBounds (filterDate (mkDate 1999 1 1) (mkDate 2003 6 1) (LE07 archive)) in
  let ls7SR_BAD :=
    filterBounds (filterDate (mkDate 2003 6 1) (mkDate 2033 1 1) (LE07 archive)) in
  let ls8SR := filterBounds (LC08 archive) in
  let ls9SR := filterBounds (LC09 archive) in
  ls9 <- process convertBandsls89 ls89Rename lsMaskNew ls9SR ;;
  ls8 <- process convertBandsls89 ls89Rename lsMaskNew ls8SR ;;
  ls7_OK <- process convertBandsls457 ls457Rename lsMaskNew ls7SR_OK ;;
  ls7_BAD <- process convertBandsls457 ls457Rename SLC_lsMask ls7SR_BAD ;;
  ls5 <- process convertBandsls457 ls457Rename lsMaskNew ls5SR ;;
  ls4 <- process convertBandsls457 ls457Rename lsMaskNew ls4SR ;;
  Some (merge ls9 (merge ls8 (merge ls7_BAD (merge ls7_OK (merge ls5 ls4))))).

(** *** The run: what the RUN button computes

    Inputs of a run: the selected year, the raster archive, the trained
    classifier (in PROBABILITY mode, as a function of the predictor values in
    the order of [predictorVariables]), the land and water reference data at
    the pixel, and whether the region of interest contains the pixel. *)

Record Geometry : Type := mkGeometry {
  geometry_id : nat;
  contains_pixel : bool
}.

Definition toLowerCase_ascii (c : Ascii.ascii) : Ascii.ascii :=
  let n := Ascii.nat_of_ascii c in
  if (65 <=? n)%nat && (n <=? 90)%nat then Ascii.ascii_of_nat (n + 32) else c.

Fixpoint toLowerCase (s : string) : string :=
  match s with
  | EmptyString => EmptyString
  | String c s' => String (toLowerCase_ascii c) (toLowerCase s')
  end.

(** [classify]: one band 'classification'; no data where a predictor has
    none. *)
Fixpoint all_valid (ps : list pixel) : option (list num) :=
  match ps with
  | [] => Some []
  | p :: ps' =>
      v <- p ;;
      vs <- all_valid ps' ;;
      Some (v :: vs)
  end.

Definition classify (model : list num -> R) (img : Image) : Image :=
  computed [("classification",
             option_map (fun vs => Flt (model vs)) (all_valid (map snd (bands img))))]
           img.

(** [cond ? a : b] in an expression. *)
Definition pif (c a b : pixel) : pixel :=
  match c with
  | Some n => if truthy n then a else b
  | None => None
  end.

(** [expression(e).rename(name).toInt().addBands(img)], the shape of every
    burn metric but [pre_nbr3]. *)
Definition metric (name : string) (e : Image -> option pixel) (img : Image)
  : option Image :=
  v <- e img ;;
  r <- rename [name] (result v img) ;;
  Some (addBands (mapBands (pmap ntoInt) r) img).

Definition difference (pre post : string) (img : Image) : option pixel :=
  a <- band pre img ;;
  b <- band post img ;;
  Some (a - b)%px.

Definition scaled_difference (pre post : string) (k : Z) (img : Image)
  : option pixel :=
  d <- difference pre post img ;;
  Some (d * int k)%px.

(** *** Burn metrics, each a function of the stack built so far *)

(** calculate dNBR *)
Definition burnIndices (fireIndices : Image) : option Image :=
  metric "dnbr" (scaled_difference "pre_nbr" "post_nbr" 1000) fireIndices.

(** calculate RBR *)
Definition burnIndices2 (burnIndices : Image) : option Image :=
  metric "rbr"
    (fun img =>
       dnbr <- band "dnbr" img ;;
       pre_nbr <- band "pre_nbr" img ;;
       Some (dnbr / (pre_nbr + flt 1.001))%px)
    burnIndices.

(** calculate RdNBR: first the denominator [pre_nbr3], kept as a real *)
Definition burnIndices3 (burnIndices2 : Image) : option Image :=
  pre_nbr <- band "pre_nbr" burnIndices2 ;;
  let e := pif (pmap2 nlt (pmap nabs pre_nbr) (flt 0.001)) (flt 0.001) pre_nbr in
  r <- rename ["pre_nbr3"] (mapBands (pmap nsqrt) (mapBands (pmap nabs)
                                                     (result e burnIndices2))) ;;
  Some (addBands (mapBands (pmap ntoFloat) r) burnIndices2).

Definition burnIndices4 (burnIndices3 : Image) : option Image :=
  metric "rdnbr"
    (fun img =>
       dnbr <- band "dnbr" img ;;
       pre_nbr3 <- band "pre_nbr3" img ;;
       Some (dnbr / pre_nbr3)%px)
    burnIndices3.

Definition burnIndices5 := metric "dndvi" (scaled_difference "pre_ndvi" "post_ndvi" 1000).
Definition burnIndices6 := metric "devi" (scaled_difference "pre_evi" "post_evi" 1000).
Definition burnIndices7 := metric "dndmi" (scaled_difference "pre_ndmi" "post_ndmi" 1000).
Definition burnIndices8 := metric "dmirbi" (scaled_difference "pre_mirbi" "post_mirbi" 1000).
Definition burnIndices9 := metric "dnbr2" (scaled_difference "pre_nbr2" "post_nbr2" 1000).
Definition burnIndices10 := metric "dndwi" (scaled_difference "pre_ndwi" "post_ndwi" 1000).
Definition burnIndices11 := metric "dbai" (difference "pre_bai" "post_bai").
Definition burnIndices12 := metric "dbaims" (scaled_difference "pre_baims" "post_baims" 10).
Definition burnIndices13 := metric "dcsi" (scaled_difference "pre_csi" "post_csi" 1000).
Definition burnIndices14 := metric "dbsi" (scaled_difference "pre_bsi" "post_bsi" 1000).
Definition burnIndices15 := metric "dtcb" (scaled_difference "pre_tcb" "post_tcb" 100).
Definition burnIndices16 := metric "dtcg" (scaled_difference "pre_tcg" "post_tcg" 100).
Definition burnIndices17 := metric "dtcw" (scaled_difference "pre_tcw" "post_tcw" 100).
Definition burnIndices18 := metric "dmsavi" (scaled_difference "pre_msavi" "post_msavi" 1000).

(** The whole chain, from the pre/post stack to the 18 metrics on top of it. *)
Definition burnMetrics (fireIndices : Image) : option Image :=
  b1 <- burnIndices fireIndices ;;
  b2 <- burnIndices2 b1 ;;
  b3 <- burnIndices3 b2 ;;
  b4 <- burnIndices4 b3 ;;
  b5 <- burnIndices5 b4 ;;
  b6 <- burnIndices6 b5 ;;
  b7 <- burnIndices7 b6 ;;
  b8 <- burnIndices8 b7 ;;
  b9 <- burnIndices9 b8 ;;
  b10 <- burnIndices10 b9 ;;
  b11 <- burnIndices11 b10 ;;
  b12 <- burnIndices12 b11 ;;
  b13 <- burnIndices13 b12 ;;
  b14 <- burnIndices14 b13 ;;
  b15 <- burnIndices15 b14 ;;
  b16 <- burnIndices16 b15 ;;
  b17 <- burnIndices17 b16 ;;
  burnIndices18 b17.

(** *** The four rules and the candidate mask *)

Definition threshold (cmp : num -> num -> num) (t : R) (img : Image) : Image :=
  mapBands (pmap (fun v => cmp v (Flt t))) img.

(** [one.add(two).add(three).add(four).eq(4).selfMask()] on the four rule
    rasters clipped to a geometry. *)
Definition fuse (inside : bool) (hiRF hiDEV hiSUB hiMN : Image) : option Image :=
  let one := clip inside hiRF in
  let two := clip inside hiDEV in
  let three := clip inside hiSUB in
  let four := clip inside hiMN in
  s12 <- binary (pmap2 nadd) one two ;;
  s123 <- binary (pmap2 nadd) s12 three ;;
  s1234 <- binary (pmap2 nadd) s123 four ;;
  Some (mapBands pselfMask (mapBands (pmap (fun v => neq v (Int 4))) s1234)).

Section Run.

Variable year_select : Z.
Variable archive : Archive.
Variable classifier : list num -> R.
Variable max_extent : pixel.
Variable shoreline : list Z.
Variable ROI : Geometry.

Definition imgCol : option ImageCollection := lsCol archive.

(** Water mask: where the surface-water layer has [max_extent] zero. *)
Definition dryLand : pixel :=
  pclip (contains_pixel ROI)
        (pselfMask (pmap (fun v => neq v (Int 0)) max_extent)).

(** Land mask: the count of the shoreline polygons over the pixel
    ([shoreline] lists their OBJECTIDs), no data where there is none. *)
Definition land : pixel :=
  pclip (contains_pixel ROI)
        (match shoreline with
         | [] => None
         | _ => Some (Int (Z.of_nat (length shoreline)))
         end).

Definition preVariables : list string :=
  map (fun word => "pre_" ++ word)%string allVariables.

Definition postVariables : list string :=
  map (fun word => "post_" ++ word)%string allVariables.

(** [ee.Image()]: one band without data anywhere. *)
Definition emptyImage : Image := mkImage [("constant", None)] None true.

(** Used to backfill empty pixel values in case there is no data. *)
Definition transparentImage : option Image :=
  rename allVariables
    (cat (map (fun _ => mapBands (pmap ntoFloat) emptyImage) allVariables)).

Definition startDate : Date := mkDate year_select 6 15.
Definition endDate : Date := mkDate year_select 9 1.

Definition preFireYearStart : Date := advance_years (-1) startDate.
Definition preFireYearEnd : Date := advance_years (-1) endDate.

Definition preFilteredCol : option ImageCollection :=
  col <- imgCol ;;
  t <- transparentImage ;;
  Some (merge (filterDate preFireYearStart preFireYearEnd (filterBounds col)) [t]).

Definition pre_filled : option Image :=
  col <- preFilteredCol ;;
  m <- reduce median col ;;
  selectAs allVariables preVariables m.

Definition postFireYearStart : Date := advance_years 1 startDate.
Definition postFireYearEnd : Date := advance_years 1 endDate.

Definition postFilteredCol : option ImageCollection :=
  col <- imgCol ;;
  t <- transparentImage ;;
  Some (merge (filterDate postFireYearStart postFireYearEnd (filterBounds col)) [t]).

Definition post_filled : option Image :=
  col <- postFilteredCol ;;
  m <- reduce median col ;;
  selectAs allVariables postVariables m.

Definition fireIndices : option Image :=
  pre <- pre_filled ;;
  post <- post_filled ;;
  Some (addBands pre post).

Definition burnIndices19 : option Image :=
  f <- fireIndices ;;
  b18 <- burnMetrics f ;;
  (* mask water points *)
  let b19 := updateMask b18 dryLand in
  (* rename and select bands *)
  let lowerCaseVariables := map toLowerCase predictorVariables in
  selectAs lowerCaseVariables predictorVariables b19.

Definition predictedImage : option Image :=
  b19 <- burnIndices19 ;;
  Some (updateMask (updateMask (classify classifier b19) dryLand) land).

(** **** Time-series deviations *)

Definition window (k : Z) (col : ImageCollection) : ImageCollection :=
  filterDate (advance_years k startDate) (advance_years k endDate) col.

(** median of the time series one to three years before *)
Definition PREmedian : option Image :=
  col <- imgCol ;;
  let Tm1 := window (-1) col in
  let Tm2 := window (-2) col in
  let Tm3 := window (-3) col in
  reduce median (merge Tm1 (merge Tm2 Tm3)).

Definition deviation (op : pixel -> pixel -> pixel) : option ImageCollection :=
  col <- imgCol ;;
  pre <- PREmedian ;;
  mapCol (fun IMG => d <- binary op IMG pre ;; Some (copyProperties d IMG)) col.

Definition lowest (A B : Image) : option Image := reduce min [A; B].

Definition TSdevDiv : option ImageCollection := deviation (pmap2 ndiv).

Definition divCol : option Image :=
  ts <- TSdevDiv ;;
  a <- reduce median (window 1 ts) ;;
  b <- reduce median (window 0 ts) ;;
  let divColA := clip (contains_pixel ROI) a in
  let divColB := clip (contains_pixel ROI) b in
  lowest divColA divColB.

Definition TSdevSub : option ImageCollection := deviation (pmap2 nsub).

Definition subCol : option Image :=
  ts <- TSdevSub ;;
  a <- reduce mean (window 1 ts) ;;
  b <- reduce mean (window 0 ts) ;;
  let subColA := clip (contains_pixel ROI) a in
  let subColB := clip (contains_pixel ROI) b in
  lowest subColA subColB.

Definition meanCol : option Image :=
  col <- imgCol ;;
  a <- reduce min (window 1 col) ;;
  b <- reduce min (window 0 col) ;;
  let meanColA := clip (contains_pixel ROI) a in
  let meanColB := clip (contains_pixel ROI) b in
  lowest meanColA meanColB.

(** mask lakes then ocean *)
Definition meanIMG : option Image :=
  c <- meanCol ;; Some (updateMask (updateMask c dryLand) land).
Definition divIMG : option Image :=
  c <- divCol ;; Some (updateMask (updateMask c dryLand) land).
Definition subIMG : option Image :=
  c <- subCol ;; Some (updateMask (updateMask c dryLand) land).

(** **** The four rules *)

Definition hiRFthresh : option Image :=
  p <- predictedImage ;; Some (threshold ngt 0.9 p).
Definition hiDEVthresh : option Image :=
  d <- divIMG ;; n <- select ["nbr2"] d ;; Some (threshold nlt 0.5 n).
Definition hiSUBthresh : option Image :=
  d <- subIMG ;; n <- select ["nbr2"] d ;; Some (threshold nlt (-0.1) n).
Definition hiMNthresh : option Image :=
  d <- meanIMG ;; n <- select ["nbr"] d ;; Some (threshold nlt 0 n).

(** The candidate mask over a geometry. *)
Definition candidates (g : Geometry) : option Image :=
  one <- hiRFthresh ;;
  two <- hiDEVthresh ;;
  three <- hiSUBthresh ;;
  four <- hiMNthresh ;;
  fuse (contains_pixel g) one two three four.

End Run.

(** *** Export

    [Export.table.toDrive] queues a task; nothing is computed when the task
    is queued, so a task holds the pieces of its request as they are, errors
    included.  [reduceToVectors] is kept as its request: the raster, the
    geometry and the scale. *)

Record Vectors : Type := mkVectors {
  raster : option Image;
  region : option Geometry;
  resolution : Z
}.

Record ExportTask : Type := mkExportTask {
  collection : Vectors;
  description : string;
  folder : string;
  fileFormat : string
}.

Definition show (z : Z) : string := NilZero.string_of_int (Z.to_int z).

(** [ee.Number(i).format('%02d')] for a tile index. *)
Definition format02d (i : nat) : string :=
  if (i <? 10)%nat then ("0" ++ show (Z.of_nat i))%string else show (Z.of_nat i).

Section ExportRun.

Variable year_select : Z.
Variable archive : Archive.
Variable classifier : list num -> R.
Variable max_extent : pixel.
Variable shoreline : list Z.
Variable ROI : Geometry.
(** [ROI.geometry().coveringGrid('EPSG:4326', 1000000)] *)
Variable grid : list Geometry.
Variables Export_select ROI_select : bool.

Definition candidatesOver (g : option Geometry) : option Image :=
  geom <- g ;;
  candidates year_select archive classifier max_extent shoreline ROI geom.

(** The body of the tile loop: one export queued for tile [i]. *)
Definition exportTile (i : nat) (queue : list ExportTask) : list ExportTask :=
  let subROI := nth_error (firstn 24 grid) i in
  let subIMG := candidatesOver subROI in
  let Res := 60%Z in
  let pxFilter := 0%Z in
  let vectors := mkVectors subIMG subROI Res in
  let iVar := format02d i in
  queue ++ [mkExportTask vectors
              ("candidateFires__" ++ show year_select ++ "__ROIsub_" ++ iVar
               ++ "_" ++ show pxFilter ++ "px" ++ show Res ++ "m")%string
              "tundraFire_exports" "GeoJSON"].

(** [for (var i = 1; i < 24; i++) { ... }], started at [i]. *)
Fixpoint tileLoop (fuel i : nat) (queue : list ExportTask)
  : option (list ExportTask) :=
  match fuel with
  | O => None
  | S fuel' =>
      if (i <? 24)%nat then tileLoop fuel' (S i) (exportTile i queue)
      else Some queue
  end.

Definition exportDrawn (queue : list ExportTask) : list ExportTask :=
  let subIMG := candidatesOver (Some ROI) in
  let Res := 60%Z in
  let pxFilter := 0%Z in
  let iVar := "drawROI" in
  let vectors := mkVectors subIMG (Some ROI) Res in
  queue ++ [mkExportTask vectors
              ("candidateFires__" ++ show year_select ++ "__" ++ iVar
               ++ "_" ++ show pxFilter ++ "px" ++ show Res ++ "m")%string
              "tundraFire_exports" "GeoJSON"].

(** The export tasks a click on RUN queues. *)
Definition exports (fuel : nat) : option (list ExportTask) :=
  if Export_select && negb ROI_select then tileLoop fuel 1 []
  else if Export_select && ROI_select then Some (exportDrawn [])
  else Some [].

End ExportRun.

(* ================================================================== *)
(** ** Properties *)
(* ================================================================== *)

(** *** Deciding comparisons of concrete reals *)

Ltac decide_R :=
  unfold Rltb, Rleb, Reqb;
  repeat match goal with
         | |- context [Rle_dec ?a ?b] => destruct (Rle_dec a b); try lra
         | |- context [Rlt_dec ?a ?b] => destruct (Rlt_dec a b); try lra
         | |- context [Req_dec_T ?a ?b] => destruct (Req_dec_T a b); try lra
         end.

Lemma Rtrunc_nonneg (r : R) (z : Z) :
  0 <= r -> IZR z <= r < IZR z + 1 -> Rtrunc r = z.
Proof.
  intros Hr Hz. unfold Rtrunc.
  destruct (Rle_dec 0 r); [ | contradiction ].
  now apply Zfloor_eq.
Qed.

Lemma Rtrunc_nonpos (r : R) (z : Z) :
  r <= 0 -> IZR z - 1 < r <= IZR z -> Rtrunc r = z.
Proof.
  intros Hr Hz. unfold Rtrunc.
  destruct (Rle_dec 0 r) as [H0 | H0].
  - assert (r = 0) by lra. subst r.
    apply Zfloor_eq.
    assert (z = 0%Z) as ->.
    { destruct Hz as [Hlo Hhi].
      apply le_IZR in Hhi.
      assert (IZR z < 1) as Hlt by lra. apply lt_IZR in Hlt. lia. }
    lra.
  - now apply Zceil_eq.
Qed.

Lemma Rtrunc_IZR (z : Z) : Rtrunc (IZR z) = z.
Proof.
  destruct (Z_le_gt_dec 0 z) as [H | H].
  - apply Rtrunc_nonneg; [ now apply IZR_le | lra ].
  - apply Rtrunc_nonpos; [ apply IZR_le; lia | lra ].
Qed.

(** *** Quality masks *)

Lemma land_bit (q : Z) (n : Z) :
  (0 <= n)%Z ->
  Z.land q (2 ^ n) = if Z.testbit q n then (2 ^ n)%Z else 0%Z.
Proof.
  intros Hn. apply Z.bits_inj'. intros m Hm.
  rewrite Z.land_spec, Z.pow2_bits_eqb by assumption.
  destruct (Z.eqb_spec n m) as [-> | Hne].
  - destruct (Z.testbit q m).
    + now rewrite Z.pow2_bits_true.
    + now rewrite Z.bits_0.
  - rewrite andb_false_r.
    destruct (Z.testbit q n).
    + now rewrite Z.pow2_bits_false.
    + now rewrite Z.bits_0.
Qed.

(** The confidence value the script derives from a quality word: it reads
    bits 7 and 8, and only the two together reach 2 or more. *)
Lemma cloudConfidence_value (q : Z) :
  cloudConfidence (int q) =
  int (match Z.testbit q 7, Z.testbit q 8 with
       | true, true => 3
       | false, true => 1
       | _, false => 0
       end).
Proof.
  unfold cloudConfidence, bitwiseAnd, int. cbn [pmap option_map pmap2].
  unfold nbitwiseAnd. cbn [toZ nadd arith].
  change 128%Z with (2 ^ 7)%Z. change 256%Z with (2 ^ 8)%Z.
  rewrite !land_bit by lia.
  f_equal.
  destruct (Z.testbit q 7), (Z.testbit q 8);
    cbn [ninterpolate interpolate_from toR ntoInt Z.add Z.pow Z.pow_pos
         Pos.iter Z.mul Pos.mul Pos.add Pos.succ];
    f_equal; decide_R.
  - apply Rtrunc_nonneg; lra.
  - apply Rtrunc_nonneg; lra.
  - apply Rtrunc_nonneg; lra.
  - apply Rtrunc_nonneg; lra.
Qed.

Lemma truthy_ofBool (b : bool) : truthy (ofBool b) = b.
Proof. now destruct b. Qed.

Lemma bitwiseAnd_bit (q n : Z) :
  (0 <= n)%Z ->
  bitwiseAnd (int q) (2 ^ n) = int (if Z.testbit q n then 2 ^ n else 0).
Proof.
  intros Hn. unfold bitwiseAnd, int, nbitwiseAnd. cbn [pmap option_map toZ].
  now rewrite land_bit.
Qed.

Lemma truthy_bit (q n : Z) :
  (0 <= n)%Z ->
  truthy (Int (if Z.testbit q n then 2 ^ n else 0)) = Z.testbit q n.
Proof.
  intros Hn. destruct (Z.testbit q n); cbn [truthy].
  - assert (0 < 2 ^ n)%Z by (apply Z.pow_pos_nonneg; lia).
    destruct (Z.eqb_spec (2 ^ n) 0); [ lia | reflexivity ].
  - reflexivity.
Qed.

(** The standard mask flags a pixel exactly when one of the bits 3, 1, 4, 7
    or 5 of its quality word is set. *)
Lemma lsMaskNew_mask_value (q : Z) :
  lsMaskNew_mask (int q) =
  Some (ofBool (Z.testbit q 3 || Z.testbit q 1 || Z.testbit q 4
                || Z.testbit q 7 || Z.testbit q 5)).
Proof.
  unfold lsMaskNew_mask.
  change (Z.shiftl 1 1) with (2 ^ 1)%Z. change (Z.shiftl 1 3) with (2 ^ 3)%Z.
  change (Z.shiftl 1 4) with (2 ^ 4)%Z. change (Z.shiftl 1 7) with (2 ^ 7)%Z.
  change (Z.shiftl 1 5) with (2 ^ 5)%Z.
  rewrite !bitwiseAnd_bit by lia.
  unfold por, int. cbn [pmap2]. unfold nor.
  rewrite !truthy_ofBool, !truthy_bit by lia. reflexivity.
Qed.

Lemma SLC_lsMask_mask_value (q : Z) :
  SLC_lsMask_mask (int q) =
  Some (ofBool (Z.testbit q 3 || Z.testbit q 1 || Z.testbit q 4
                || Z.testbit q 7 || Z.testbit q 5
                || (Z.testbit q 7 && Z.testbit q 8))).
Proof.
  unfold SLC_lsMask_mask, cloudConfidenceMedHigh.
  rewrite cloudConfidence_value.
  change (Z.shiftl 1 1) with (2 ^ 1)%Z. change (Z.shiftl 1 3) with (2 ^ 3)%Z.
  change (Z.shiftl 1 4) with (2 ^ 4)%Z. change (Z.shiftl 1 7) with (2 ^ 7)%Z.
  change (Z.shiftl 1 5) with (2 ^ 5)%Z.
  rewrite !bitwiseAnd_bit by lia.
  unfold por, int. cbn [pmap2 pmap option_map]. unfold nor.
  rewrite !truthy_ofBool, !truthy_bit by lia.
  do 2 f_equal. f_equal.
  now destruct (Z.testbit q 7), (Z.testbit q 8).
Qed.

(** The two masks flag the same pixels: the confidence term of the
    degraded-sensor mask is only set when the water bit (7) already is. *)
Lemma SLC_lsMask_mask_same (q : Z) :
  SLC_lsMask_mask (int q) = lsMaskNew_mask (int q).
Proof.
  rewrite SLC_lsMask_mask_value, lsMaskNew_mask_value.
  do 2 f_equal.
  destruct (Z.testbit q 3), (Z.testbit q 1), (Z.testbit q 4),
           (Z.testbit q 7), (Z.testbit q 5), (Z.testbit q 8); reflexivity.
Qed.

(** C3, evaluated on the code: for the quality word 768 (bits 8 and 9 set,
    cloud confidence binary 11, no other bit) the script's confidence value
    is 1, not 3; the degraded-sensor mask [SLC_lsMask] does not flag the pixel
    and leaves every band value [p] as it is, exactly like [lsMaskNew]. *)
Theorem C3_SLC_lsMask_keeps_high_confidence_pixel :
  cloudConfidence (int 768) = int 1 /\
  SLC_lsMask_mask (int 768) = int 0 /\
  lsMaskNew_mask (int 768) = int 0 /\
  forall p : pixel,
    pupdateMask p (pmap nnot (SLC_lsMask_mask (int 768))) = p /\
    pupdateMask p (pmap nnot (lsMaskNew_mask (int 768))) = p.
Proof.
  rewrite cloudConfidence_value, SLC_lsMask_mask_value, lsMaskNew_mask_value.
  repeat split.
Qed.

(** For whatever the quality band holds, the two mask functions produce the
    same image. *)
Lemma mask_of_quality (quality : pixel) :
  SLC_lsMask_mask quality = lsMaskNew_mask quality.
Proof.
  destruct quality as [[q | r] | ].
  - apply SLC_lsMask_mask_same.
  - assert (Hb : forall m, bitwiseAnd (Some (Flt r)) m
                          = bitwiseAnd (int (Rtrunc r)) m) by reflexivity.
    pose proof (SLC_lsMask_mask_same (Rtrunc r)) as H.
    unfold SLC_lsMask_mask, lsMaskNew_mask, cloudConfidenceMedHigh,
      cloudConfidence in *.
    rewrite !Hb. exact H.
  - vm_compute. reflexivity.
Qed.

Lemma SLC_lsMask_is_lsMaskNew (lsImg : Image) :
  SLC_lsMask lsImg = lsMaskNew lsImg.
Proof.
  unfold SLC_lsMask, lsMaskNew.
  destruct (band "qa_pixel" lsImg) as [quality | ]; cbn [bind];
    [ | reflexivity ].
  cbv zeta. rewrite mask_of_quality. reflexivity.
Qed.

(** *** Band names through the harmonizer *)

Ltac bind_inv H :=
  match type of H with
  | bind ?c _ = Some _ =>
      let E := fresh "E" in
      destruct c eqn:E; cbn [bind] in H; [ | discriminate H ]
  end.

Lemma selectBands_names names bs out :
  selectBands names bs = Some out -> map fst out = names.
Proof.
  revert out. induction names as [ | n names IH]; intros out H; cbn in H.
  - now inversion H.
  - bind_inv H. bind_inv H. inversion H; subst. cbn. f_equal. now apply IH.
Qed.

Lemma select_bandNames names img out :
  select names img = Some out -> bandNames out = names.
Proof.
  unfold select. intros H. bind_inv H. inversion H; subst.
  unfold bandNames. cbn. eapply selectBands_names; eassumption.
Qed.

Lemma combine_names (names : list string) (vals : list pixel) :
  length names = length vals -> map fst (combine names vals) = names.
Proof.
  revert vals. induction names as [ | n names IH]; intros [ | v vals] H;
    cbn in *; try discriminate; try reflexivity.
  f_equal. apply IH. now inversion H.
Qed.

Lemma rename_bandNames names img out :
  rename names img = Some out -> bandNames out = names.
Proof.
  unfold rename. intros H.
  destruct (Nat.eqb_spec (length names) (length (bands img))) as [E | E];
    [ | discriminate ].
  inversion H; subst. unfold bandNames. cbn.
  apply combine_names. now rewrite length_map.
Qed.

Lemma selectFirstAs_bandNames name img out :
  selectFirstAs name img = Some out -> bandNames out = [name].
Proof.
  unfold selectFirstAs. destruct (bands img) as [ | [n p] bs]; [ discriminate | ].
  intros H. now inversion H.
Qed.

Lemma copyProperties_bandNames img src :
  bandNames (copyProperties img src) = bandNames img.
Proof. reflexivity. Qed.

Lemma addBands_bandNames a b :
  bandNames (addBands a b) = bandNames a ++ bandNames b.
Proof. unfold bandNames, addBands. cbn. apply map_app. Qed.

Lemma index_bandNames first second name img out :
  index first second name img = Some out -> bandNames out = [name].
Proof.
  unfold index. intros H. bind_inv H. eapply rename_bandNames; eassumption.
Qed.

Lemma getEVI_bandNames img out : getEVI img = Some out -> bandNames out = ["evi"].
Proof. unfold getEVI. intros H. repeat bind_inv H. eapply selectFirstAs_bandNames; eassumption. Qed.
Lemma getMIRBI_bandNames img out : getMIRBI img = Some out -> bandNames out = ["mirbi"].
Proof. unfold getMIRBI. intros H. repeat bind_inv H. eapply selectFirstAs_bandNames; eassumption. Qed.
Lemma getBAI_bandNames img out : getBAI img = Some out -> bandNames out = ["bai"].
Proof. unfold getBAI. intros H. repeat bind_inv H. eapply selectFirstAs_bandNames; eassumption. Qed.
Lemma getBAIMs_bandNames img out : getBAIMs img = Some out -> bandNames out = ["baims"].
Proof. unfold getBAIMs. intros H. repeat bind_inv H. eapply selectFirstAs_bandNames; eassumption. Qed.
Lemma getCSI_bandNames img out : getCSI img = Some out -> bandNames out = ["csi"].
Proof. unfold getCSI. intros H. repeat bind_inv H. eapply selectFirstAs_bandNames; eassumption. Qed.
Lemma getBSI_bandNames img out : getBSI img = Some out -> bandNames out = ["bsi"].
Proof. unfold getBSI. intros H. repeat bind_inv H. eapply selectFirstAs_bandNames; eassumption. Qed.
Lemma getMSAVI_bandNames img out : getMSAVI img = Some out -> bandNames out = ["msavi"].
Proof. unfold getMSAVI. intros H. repeat bind_inv H. eapply selectFirstAs_bandNames; eassumption. Qed.
Lemma getTCB_bandNames img out : getTCB img = Some out -> bandNames out = ["tcb"].
Proof. unfold getTCB. intros H. repeat bind_inv H. eapply selectFirstAs_bandNames; eassumption. Qed.
Lemma getTCG_bandNames img out : getTCG img = Some out -> bandNames out = ["tcg"].
Proof. unfold getTCG. intros H. repeat bind_inv H. eapply selectFirstAs_bandNames; eassumption. Qed.
Lemma getTCW_bandNames img out : getTCW img = Some out -> bandNames out = ["tcw"].
Proof. unfold getTCW. intros H. repeat bind_inv H. eapply selectFirstAs_bandNames; eassumption. Qed.

(** The Index Engine emits the 15 index bands followed by the quality band. *)
Lemma Indices_bandNames img out :
  Indices img = Some out -> bandNames out = allVariables ++ ["qa_pixel"].
Proof.
  unfold Indices. intros H. repeat bind_inv H. inversion H; subst; clear H.
  rewrite copyProperties_bandNames, addBands_bandNames.
  unfold cat, bandNames at 2. cbn [bands map concat].
  rewrite !map_app.
  repeat match goal with
         | E : index _ _ _ _ = Some _ |- _ => apply index_bandNames in E
         end.
  apply getEVI_bandNames in E4. apply getMIRBI_bandNames in E5.
  apply getBAI_bandNames in E6. apply getBAIMs_bandNames in E7.
  apply getCSI_bandNames in E8. apply getBSI_bandNames in E9.
  apply getMSAVI_bandNames in E10. apply getTCB_bandNames in E11.
  apply getTCG_bandNames in E12. apply getTCW_bandNames in E13.
  apply select_bandNames in E14.
  unfold bandNames in *.
  rewrite E, E0, E1, E2, E3, E4, E5, E6, E7, E8, E9, E10, E11, E12, E13, E14.
  reflexivity.
Qed.

(** Either mask keeps exactly the 15 index bands: the quality band is used
    and dropped. *)
Lemma lsMaskNew_bandNames img out :
  lsMaskNew img = Some out -> bandNames out = allVariables.
Proof.
  unfold lsMaskNew. intros H. repeat bind_inv H. inversion H; subst.
  rewrite copyProperties_bandNames. eapply select_bandNames; eassumption.
Qed.

Lemma SLC_lsMask_bandNames img out :
  SLC_lsMask img = Some out -> bandNames out = allVariables.
Proof. rewrite SLC_lsMask_is_lsMaskNew. apply lsMaskNew_bandNames. Qed.

Lemma mapCol_In f col out o :
  mapCol f col = Some out -> In o out ->
  exists i, In i col /\ f i = Some o.
Proof.
  revert out. induction col as [ | i col IH]; intros out H Ho; cbn in H.
  - inversion H; subst. destruct Ho.
  - bind_inv H. bind_inv H. inversion H; subst. destruct Ho as [-> | Ho].
    + exists i. split; [ now left | assumption ].
    + destruct (IH _ eq_refl Ho) as (j & Hj & Hf).
      exists j. split; [ now right | assumption ].
Qed.

(** Every image [process] returns is the mask step applied to an output of
    [Indices]. *)
Lemma process_In convert rename_ mask raw col o :
  process convert rename_ mask raw = Some col -> In o col ->
  exists src full, Indices src = Some full /\ mask full = Some o.
Proof.
  unfold process. intros H Ho. repeat bind_inv H.
  destruct (mapCol_In _ _ _ _ H Ho) as (full & Hfull & Hmask).
  destruct (mapCol_In _ _ _ _ E1 Hfull) as (src & _ & Hsrc).
  now exists src, full.
Qed.

(** Every observation of the harmonized collection is an output of
    [Indices] passed through [lsMaskNew]. *)
Lemma lsCol_In archive col o :
  lsCol archive = Some col -> In o col ->
  exists src full, Indices src = Some full /\ lsMaskNew full = Some o.
Proof.
  unfold lsCol, merge. intros H Ho. repeat bind_inv H.
  inversion H; subst; clear H.
  repeat (apply in_app_or in Ho; destruct Ho as [Ho | Ho]);
    match goal with
    | E : process _ _ _ _ = Some ?c, Ho : In o ?c |- _ =>
        destruct (process_In _ _ _ _ _ _ E Ho) as (src & full & Hi & Hm)
    end;
    match type of Hm with
    | SLC_lsMask _ = _ => rewrite SLC_lsMask_is_lsMaskNew in Hm
    | _ => idtac
    end;
    exists src, full; split; assumption.
Qed.

Lemma lsCol_bandNames archive col o :
  lsCol archive = Some col -> In o col -> bandNames o = allVariables.
Proof.
  intros H Ho. destruct (lsCol_In _ _ _ H Ho) as (src & full & _ & Hm).
  eapply lsMaskNew_bandNames; eassumption.
Qed.

(** A Landsat 8 observation, as stored in the archive. *)
Definition sample_LC08 : Image :=
  mkImage [("SR_B1", int 8000); ("SR_B2", int 8200); ("SR_B3", int 9000);
           ("SR_B4", int 9500); ("SR_B5", int 15000); ("SR_B6", int 12000);
           ("SR_B7", int 10000); ("QA_PIXEL", int 21824)]
          (Some 1658000000000%Z) true.

Definition sample_archive : Archive := mkArchive [] [] [] [sample_LC08] [].

Lemma sample_lsCol :
  exists o, lsCol sample_archive = Some [o].
Proof. eexists. vm_compute. reflexivity. Qed.

(** C4 as stated fails: an observation of the harmonized collection has 15
    bands and no quality band. *)
Lemma C4_counterexample :
  ~ (forall archive col img,
        lsCol archive = Some col -> In img col ->
        bandNames img = allVariables ++ ["qa_pixel"] /\
        length (bands img) = 16%nat).
Proof.
  intros claim. destruct sample_lsCol as (o & Ho).
  destruct (claim sample_archive [o] o Ho (or_introl eq_refl)) as [Hn _].
  rewrite (lsCol_bandNames _ _ _ Ho (or_introl eq_refl)) in Hn.
  discriminate Hn.
Qed.

(** C4, amended: [Indices] concatenates the 15 index bands and the quality
    band into a 16-band raster; the mask step that follows uses the quality
    band and keeps the 15 index bands only, so every observation the
    compositor consumes is such a raster reduced to its 15 index bands. *)
Theorem C4_feature_raster_bands archive col img
    (Hcol : lsCol archive = Some col) (Himg : In img col) :
  bandNames img = allVariables /\
  length (bands img) = 15%nat /\
  ~ In "qa_pixel" (bandNames img) /\
  exists src full,
    Indices src = Some full /\
    bandNames full = allVariables ++ ["qa_pixel"] /\
    length (bands full) = 16%nat /\
    lsMaskNew full = Some img.
Proof.
  destruct (lsCol_In _ _ _ Hcol Himg) as (src & full & Hi & Hm).
  pose proof (lsMaskNew_bandNames _ _ Hm) as Hn.
  pose proof (Indices_bandNames _ _ Hi) as Hf.
  repeat split.
  - assumption.
  - unfold bandNames in Hn. rewrite <- (length_map fst), Hn. reflexivity.
  - rewrite Hn. cbn. intros H.
    repeat (destruct H as [H | H]; [ discriminate H | ]). exact H.
  - exists src, full. repeat split; try assumption.
    unfold bandNames in Hf. rewrite <- (length_map fst), Hf. reflexivity.
Qed.

Lemma C4_feature_raster_bands_witness :
  exists o,
    lsCol sample_archive = Some [o] /\
    bandNames o = allVariables /\
    length (bands o) = 15%nat /\
    ~ In "qa_pixel" (bandNames o) /\
    exists src full,
      Indices src = Some full /\
      bandNames full = allVariables ++ ["qa_pixel"] /\
      length (bands full) = 16%nat /\
      lsMaskNew full = Some o.
Proof.
  eexists. split.
  - vm_compute. reflexivity.
  - apply (C4_feature_raster_bands sample_archive _ _ eq_refl (or_introl eq_refl)).
Defined.

(** *** Normalized differences *)

Lemma lookup_map (f : pixel -> pixel) name bs :
  lookup name (map (fun nb => (fst nb, f (snd nb))) bs)
  = option_map f (lookup name bs).
Proof.
  induction bs as [ | [n p] bs IH]; cbn; [ reflexivity | ].
  destruct (String.eqb n name); [ reflexivity | exact IH ].
Qed.

Lemma band_mapBands f name img :
  band name (mapBands f img) = option_map f (band name img).
Proof. unfold band, mapBands. cbn. apply lookup_map. Qed.

Lemma toR_scaled (a : num) (c : R) : toR (nmul a (Flt c)) = toR a * c.
Proof. now destruct a. Qed.

Lemma Rltb_scaled (x c : R) : 0 < c -> Rltb (x * c) 0 = Rltb x 0.
Proof. intros Hc. decide_R; try reflexivity; exfalso; nra. Qed.

Lemma ratio_scaled (a b c : R) :
  c <> 0 -> (a * c - b * c) / (a * c + b * c) = (a - b) / (a + b).
Proof.
  intros Hc. destruct (Req_dec_T (a + b) 0) as [E | E].
  - replace (a * c + b * c) with ((a + b) * c) by ring.
    rewrite E, Rmult_0_l. unfold Rdiv. rewrite Rinv_0. ring.
  - field. split; [ exact E | ].
    replace (a * c + b * c) with ((a + b) * c) by ring.
    now apply Rmult_integral_contrapositive_currified.
Qed.

Lemma pnormalizedDifference_scaled (p q : pixel) (c : R) :
  0 < c ->
  pnormalizedDifference (p * flt c)%px (q * flt c)%px = pnormalizedDifference p q.
Proof.
  intros Hc. destruct p as [a | ], q as [b | ]; try reflexivity.
  unfold pnormalizedDifference, flt. cbn [pmap2].
  rewrite !toR_scaled, !Rltb_scaled by assumption.
  rewrite ratio_scaled by lra. reflexivity.
Qed.

Lemma ratio_bounds (a b : R) :
  0 <= a -> 0 <= b -> a + b <> 0 -> -1 <= (a - b) / (a + b) <= 1.
Proof.
  intros Ha Hb Hab. assert (0 < a + b) as Hpos by lra.
  split.
  - apply Rmult_le_reg_r with (a + b); [ assumption | ].
    unfold Rdiv. rewrite Rmult_assoc, Rinv_l by assumption. lra.
  - apply Rmult_le_reg_r with (a + b); [ assumption | ].
    unfold Rdiv. rewrite Rmult_assoc, Rinv_l by assumption. lra.
Qed.

Lemma pnormalizedDifference_value (a b : num) :
  0 <= toR a -> 0 <= toR b ->
  pnormalizedDifference (Some a) (Some b)
  = flt ((toR a - toR b) / (toR a + toR b)).
Proof. intros Ha Hb. unfold pnormalizedDifference. decide_R. reflexivity. Qed.

(** Scaling every band of an image by [c], as [img.multiply(c)] does. *)
Definition scaled (c : R) (img : Image) : Image :=
  mapBands (fun p => (p * flt c)%px) img.

Lemma index_value first second name img :
  index first second name img =
  A <- band first img ;;
  B <- band second img ;;
  Some (mkImage [(name, pmap ntoFloat (pnormalizedDifference A B))] None
                (in_bounds img)).
Proof.
  unfold index, normalizedDifference.
  destruct (band first img) as [A | ]; [ | reflexivity ].
  destruct (band second img) as [B | ]; reflexivity.
Qed.

Lemma index_scaled first second name img c :
  0 < c ->
  index first second name (scaled c img) = index first second name img.
Proof.
  intros Hc. rewrite !index_value. unfold scaled. rewrite !band_mapBands.
  destruct (band first img) as [p | ]; [ | reflexivity ].
  destruct (band second img) as [q | ]; [ | reflexivity ].
  cbn [option_map bind]. now rewrite pnormalizedDifference_scaled.
Qed.

Lemma index_shape first second name img out :
  index first second name img = Some out ->
  exists v, out = mkImage [(name, v)] None (in_bounds img).
Proof.
  rewrite index_value. intros H. do 2 bind_inv H. inversion H. now eexists.
Qed.

(** The first five bands of [Indices] are the five calls of [index]. *)
Lemma Indices_normalized_bands img out :
  Indices img = Some out ->
  exists nbr nbr2 ndvi ndmi ndwi,
    index "nir" "lswir" "nbr" img = Some (mkImage [("nbr", nbr)] None (in_bounds img)) /\
    index "sswir" "lswir" "nbr2" img = Some (mkImage [("nbr2", nbr2)] None (in_bounds img)) /\
    index "nir" "red" "ndvi" img = Some (mkImage [("ndvi", ndvi)] None (in_bounds img)) /\
    index "nir" "sswir" "ndmi" img = Some (mkImage [("ndmi", ndmi)] None (in_bounds img)) /\
    index "green" "nir" "ndwi" img = Some (mkImage [("ndwi", ndwi)] None (in_bounds img)) /\
    band "nbr" out = Some nbr /\ band "nbr2" out = Some nbr2 /\
    band "ndvi" out = Some ndvi /\ band "ndmi" out = Some ndmi /\
    band "ndwi" out = Some ndwi.
Proof.
  unfold Indices. intros H. repeat bind_inv H. inversion H; subst; clear H.
  destruct (index_shape _ _ _ _ _ E) as (nbr & ->).
  destruct (index_shape _ _ _ _ _ E0) as (nbr2 & ->).
  destruct (index_shape _ _ _ _ _ E1) as (ndvi & ->).
  destruct (index_shape _ _ _ _ _ E2) as (ndmi & ->).
  destruct (index_shape _ _ _ _ _ E3) as (ndwi & ->).
  exists nbr, nbr2, ndvi, ndmi, ndwi. repeat split; assumption || reflexivity.
Qed.

(** C8: a normalized-difference index computed by [index] over a pair of
    bands (as [Indices] does for NBR, NBR2, NDVI, NDMI and NDWI) is
    unchanged when every band is scaled by the same constant [c > 0]; and
    where both inputs are non-negative with a sum that is not zero, the index
    is [(A - B) / (A + B)] and lies in [[-1, 1]]. *)
Theorem C8_normalized_difference_invariant_and_bounded
    (first second name : string) (img : Image) (c : R) (A B : num)
    (Hc : 0 < c)
    (HA : band first img = Some (Some A)) (HB : band second img = Some (Some B))
    (HA0 : 0 <= toR A) (HB0 : 0 <= toR B) (Hsum : toR A + toR B <> 0) :
  index first second name (scaled c img) = index first second name img /\
  exists v,
    index first second name img
    = Some (mkImage [(name, flt v)] None (in_bounds img)) /\
    v = (toR A - toR B) / (toR A + toR B) /\
    -1 <= v <= 1.
Proof.
  split.
  - now apply index_scaled.
  - exists ((toR A - toR B) / (toR A + toR B)). split; [ | split ].
    + rewrite index_value, HA, HB. cbn [bind].
      now rewrite pnormalizedDifference_value.
    + reflexivity.
    + now apply ratio_bounds.
Qed.

(** A harmonized observation: reflectances and the quality word. *)
Definition sample_canonical : Image :=
  mkImage [("blue", flt 0.02); ("green", flt 0.04); ("red", flt 0.05);
           ("nir", flt 0.30); ("sswir", flt 0.20); ("lswir", flt 0.10);
           ("qa_pixel", int 21824)]
          (Some 1658000000000%Z) true.

Lemma C8_normalized_difference_invariant_and_bounded_witness :
  index "nir" "lswir" "nbr" (scaled 2 sample_canonical)
  = index "nir" "lswir" "nbr" sample_canonical /\
  exists v,
    index "nir" "lswir" "nbr" sample_canonical
    = Some (mkImage [("nbr", flt v)] None true) /\
    v = (0.30 - 0.10) / (0.30 + 0.10) /\
    -1 <= v <= 1.
Proof.
  apply (C8_normalized_difference_invariant_and_bounded
           "nir" "lswir" "nbr" sample_canonical 2 (Flt 0.30) (Flt 0.10)).
  - lra.
  - reflexivity.
  - reflexivity.
  - cbn. lra.
  - cbn. lra.
  - cbn. lra.
Defined.

(** *** Burn metrics *)

Lemma band_cons name n (p : pixel) bs t ib :
  band name (mkImage ((n, p) :: bs) t ib)
  = if String.eqb n name then Some p else lookup name bs.
Proof. reflexivity. Qed.

Lemma metric_value name e img v :
  e img = Some v ->
  metric name e img
  = Some (mkImage ((name, pmap ntoInt v) :: bands img) None (in_bounds img)).
Proof. unfold metric. intros ->. reflexivity. Qed.

(** The denominator of RdNBR as the script computes it from [pre_nbr]. *)
Definition pre_nbr3_of (pre_nbr : R) : R :=
  sqrt (Rabs (if Rltb (Rabs pre_nbr) 0.001 then 0.001 else pre_nbr)).

(** The first four steps of the chain on a stack whose [pre_nbr] and
    [post_nbr] have data: each step succeeds and puts its band on top. *)
Lemma first_four_metrics (fireIndices : Image) (pre_nbr post_nbr : R) :
  band "pre_nbr" fireIndices = Some (flt pre_nbr) ->
  band "post_nbr" fireIndices = Some (flt post_nbr) ->
  let dnbr := Rtrunc ((pre_nbr - post_nbr) * 1000) in
  let rbr := Rtrunc (IZR dnbr / (pre_nbr + 1.001)) in
  let pre_nbr3 := pre_nbr3_of pre_nbr in
  let rdnbr := Rtrunc (IZR dnbr / pre_nbr3) in
  let ib := in_bounds fireIndices in
  let b1 := mkImage (("dnbr", int dnbr) :: bands fireIndices) None ib in
  let b2 := mkImage (("rbr", int rbr) :: bands b1) None ib in
  let b3 := mkImage (("pre_nbr3", flt pre_nbr3) :: bands b2) None ib in
  let b4 := mkImage (("rdnbr", int rdnbr) :: bands b3) None ib in
  burnIndices fireIndices = Some b1 /\
  burnIndices2 b1 = Some b2 /\
  burnIndices3 b2 = Some b3 /\
  burnIndices4 b3 = Some b4.
Proof.
  intros Hpre Hpost. cbv zeta. unfold band in Hpre, Hpost.
  split; [ | split; [ | split ] ].
  - unfold burnIndices.
    erewrite metric_value;
      [ | unfold scaled_difference, difference, band; rewrite Hpre, Hpost;
          reflexivity ].
    reflexivity.
  - unfold burnIndices2.
    erewrite metric_value;
      [ | cbv beta; rewrite !band_cons;
          cbn [String.eqb Ascii.eqb Bool.eqb bands lookup bind];
          rewrite Hpre; reflexivity ].
    reflexivity.
  - unfold burnIndices3. rewrite !band_cons.
    cbn [String.eqb Ascii.eqb Bool.eqb bands lookup]. rewrite Hpre. cbn [bind].
    unfold pre_nbr3_of, pif, flt. cbn [pmap option_map pmap2 nabs nlt compare toR].
    rewrite truthy_ofBool.
    destruct (Rltb (Rabs pre_nbr) 0.001); reflexivity.
  - unfold burnIndices4.
    erewrite metric_value;
      [ | cbv beta; rewrite !band_cons;
          cbn [String.eqb Ascii.eqb Bool.eqb bands lookup bind]; reflexivity ].
    reflexivity.
Qed.

Lemma quotient_floor (x d : R) (n : Z) :
  0 < d -> IZR n * d <= x < (IZR n + 1) * d -> IZR n <= x / d < IZR n + 1.
Proof.
  intros Hd [Hlo Hhi]. split.
  - apply Rmult_le_reg_r with d; [ assumption | ].
    unfold Rdiv. rewrite Rmult_assoc, Rinv_l by lra. lra.
  - apply Rmult_lt_reg_r with d; [ assumption | ].
    unfold Rdiv. rewrite Rmult_assoc, Rinv_l by lra. lra.
Qed.

Lemma sqrt_between (lo hi x : R) :
  0 <= lo -> 0 <= hi -> lo * lo < x < hi * hi -> lo < sqrt x < hi.
Proof.
  intros Hlo Hhi [H1 H2].
  assert (0 <= lo * lo) by nra.
  split.
  - apply Rle_lt_trans with (sqrt (lo * lo)).
    + rewrite sqrt_square by assumption. lra.
    + apply sqrt_lt_1; lra.
  - apply Rlt_le_trans with (sqrt (hi * hi)).
    + apply sqrt_lt_1; nra.
    + rewrite sqrt_square by assumption. lra.
Qed.

Lemma Rltb_true (x y : R) : x < y -> Rltb x y = true.
Proof. intros H. decide_R; reflexivity. Qed.

Lemma Rltb_false (x y : R) : y <= x -> Rltb x y = false.
Proof. intros H. decide_R; reflexivity. Qed.

Lemma Rabs_small (x e : R) : - e < x < e -> Rabs x < e.
Proof. intros H. apply Rabs_def1; lra. Qed.

Lemma Rabs_of_nonneg (x : R) : 0 <= x -> Rabs x = x.
Proof. intros H. now apply Rabs_pos_eq. Qed.

(** Whatever [pre_nbr] is, the denominator is at least [sqrt 0.001]. *)
Lemma pre_nbr3_of_lower (pre_nbr : R) : sqrt 0.001 <= pre_nbr3_of pre_nbr.
Proof.
  unfold pre_nbr3_of. apply sqrt_le_1_alt.
  unfold Rltb. destruct (Rlt_dec (Rabs pre_nbr) 0.001) as [H | H].
  - rewrite Rabs_of_nonneg; lra.
  - lra.
Qed.

Lemma sqrt_thousandth : 0.0316 < sqrt 0.001 < 0.0317.
Proof. apply sqrt_between; lra. Qed.

(** C2: on a pre/post stack with data in [pre_nbr] and [post_nbr], the
    calculator computes [dnbr = (pre_nbr - post_nbr) * 1000] cast to integer,
    [rbr = dnbr / (pre_nbr + 1.001)] cast to integer and
    [rdnbr = dnbr / pre_nbr3] cast to integer (the cast drops the fraction,
    [dnbr] is the integer band); for [pre_nbr = 0.6], [post_nbr = -0.1] this
    gives [dnbr = 700], [rbr = 437], [pre_nbr3 = sqrt 0.6] (about 0.7746)
    and [rdnbr = 903]. *)
Theorem C2_burn_metric_formulas (fireIndices : Image) (pre_nbr post_nbr : R)
    (Hpre : band "pre_nbr" fireIndices = Some (flt pre_nbr))
    (Hpost : band "post_nbr" fireIndices = Some (flt post_nbr)) :
  exists (b1 b2 b3 b4 : Image) (dnbr rbr rdnbr : Z) (pre_nbr3 : R),
    burnIndices fireIndices = Some b1 /\
    burnIndices2 b1 = Some b2 /\
    burnIndices3 b2 = Some b3 /\
    burnIndices4 b3 = Some b4 /\
    band "dnbr" b4 = Some (int dnbr) /\
    band "rbr" b4 = Some (int rbr) /\
    band "pre_nbr3" b4 = Some (flt pre_nbr3) /\
    band "rdnbr" b4 = Some (int rdnbr) /\
    dnbr = Rtrunc ((pre_nbr - post_nbr) * 1000) /\
    rbr = Rtrunc (IZR dnbr / (pre_nbr + 1.001)) /\
    rdnbr = Rtrunc (IZR dnbr / pre_nbr3) /\
    (pre_nbr = 0.6 -> post_nbr = -0.1 ->
     dnbr = 700%Z /\ rbr = 437%Z /\
     pre_nbr3 = sqrt 0.6 /\ 0.7745 < pre_nbr3 < 0.7747 /\
     rdnbr = 903%Z).
Proof.
  destruct (first_four_metrics fireIndices pre_nbr post_nbr Hpre Hpost)
    as (H1 & H2 & H3 & H4).
  do 4 eexists.
  exists (Rtrunc ((pre_nbr - post_nbr) * 1000)).
  exists (Rtrunc (IZR (Rtrunc ((pre_nbr - post_nbr) * 1000)) / (pre_nbr + 1.001))).
  exists (Rtrunc (IZR (Rtrunc ((pre_nbr - post_nbr) * 1000)) / pre_nbr3_of pre_nbr)).
  exists (pre_nbr3_of pre_nbr).
  split; [ exact H1 | ]. split; [ exact H2 | ].
  split; [ exact H3 | ]. split; [ exact H4 | ].
  do 4 (split; [ reflexivity | ]).
  do 3 (split; [ reflexivity | ]).
  intros -> ->.
  assert (Hd : Rtrunc ((0.6 - -0.1) * 1000) = 700%Z).
  { apply Rtrunc_nonneg; lra. }
  assert (Hs : pre_nbr3_of 0.6 = sqrt 0.6).
  { unfold pre_nbr3_of. rewrite (Rabs_of_nonneg 0.6) by lra.
    rewrite Rltb_false by lra. now rewrite Rabs_of_nonneg by lra. }
  assert (Hb : 0.7745 < sqrt 0.6 < 0.7747) by (apply sqrt_between; lra).
  rewrite Hd, Hs.
  split; [ reflexivity | ].
  split.
  { apply Rtrunc_nonneg.
    - apply Rlt_le. apply Rdiv_lt_0_compat; lra.
    - apply quotient_floor; lra. }
  split; [ reflexivity | ].
  split; [ exact Hb | ].
  apply Rtrunc_nonneg.
  - apply Rlt_le. apply Rdiv_lt_0_compat; lra.
  - apply quotient_floor; lra.
Qed.

(** A pre/post stack with the values of the end-to-end scenario. *)
Definition sample_stack : Image :=
  mkImage [("pre_nbr", flt 0.6); ("post_nbr", flt (-0.1))] None true.

Lemma C2_burn_metric_formulas_witness :
  exists b4 : Image,
    band "dnbr" b4 = Some (int 700) /\
    band "rbr" b4 = Some (int 437) /\
    band "rdnbr" b4 = Some (int 903).
Proof.
  destruct (C2_burn_metric_formulas sample_stack 0.6 (-0.1) eq_refl eq_refl)
    as (b1 & b2 & b3 & b4 & dnbr & rbr & rdnbr & pre_nbr3 & _ & _ & _ & _
        & Hd & Hr & _ & Hrd & _ & _ & _ & Hval).
  destruct (Hval eq_refl eq_refl) as (-> & -> & _ & _ & ->).
  exists b4. repeat split; assumption.
Defined.

(** C6: the denominator [pre_nbr3] is never below [sqrt 0.001], so [rdnbr]
    is a quotient by a positive number for every [pre_nbr]; and where
    [|pre_nbr| < 0.001] the clamp is taken: [pre_nbr3 = sqrt (abs 0.001)
    = sqrt 0.001] (about 0.0316), not the root of the raw value. *)
Theorem C6_rdnbr_denominator_clamped (fireIndices : Image)
    (pre_nbr post_nbr : R)
    (Hpre : band "pre_nbr" fireIndices = Some (flt pre_nbr))
    (Hpost : band "post_nbr" fireIndices = Some (flt post_nbr)) :
  exists (b1 b2 b3 b4 : Image) (dnbr : Z) (pre_nbr3 : R),
    burnIndices fireIndices = Some b1 /\
    burnIndices2 b1 = Some b2 /\
    burnIndices3 b2 = Some b3 /\
    burnIndices4 b3 = Some b4 /\
    band "dnbr" b4 = Some (int dnbr) /\
    band "pre_nbr3" b4 = Some (flt pre_nbr3) /\
    band "rdnbr" b4 = Some (int (Rtrunc (IZR dnbr / pre_nbr3))) /\
    0 < sqrt 0.001 <= pre_nbr3 /\
    (Rabs pre_nbr < 0.001 ->
     pre_nbr3 = sqrt (Rabs 0.001) /\
     pre_nbr3 = sqrt 0.001 /\
     0.0316 < pre_nbr3 < 0.0317 /\
     pre_nbr3 <> sqrt (Rabs pre_nbr)).
Proof.
  destruct (first_four_metrics fireIndices pre_nbr post_nbr Hpre Hpost)
    as (H1 & H2 & H3 & H4).
  do 4 eexists.
  exists (Rtrunc ((pre_nbr - post_nbr) * 1000)), (pre_nbr3_of pre_nbr).
  split; [ exact H1 | ]. split; [ exact H2 | ].
  split; [ exact H3 | ]. split; [ exact H4 | ].
  do 3 (split; [ reflexivity | ]).
  pose proof sqrt_thousandth as Hs.
  split; [ split; [ lra | apply pre_nbr3_of_lower ] | ].
  intros Hsmall. unfold pre_nbr3_of. rewrite Rltb_true by assumption.
  rewrite (Rabs_of_nonneg 0.001) by lra.
  repeat split; try lra.
  intros Heq.
  apply sqrt_inj in Heq; [ lra | lra | apply Rabs_pos ].
Qed.

(** A stack whose [pre_nbr] is below the threshold. *)
Definition sample_flat_stack : Image :=
  mkImage [("pre_nbr", flt 0.0005); ("post_nbr", flt (-0.1))] None true.

Lemma C6_rdnbr_denominator_clamped_witness :
  exists (b4 : Image) (rdnbr : Z),
    band "pre_nbr3" b4 = Some (flt (sqrt 0.001)) /\
    band "rdnbr" b4 = Some (int rdnbr) /\
    sqrt 0.001 <> sqrt 0.0005.
Proof.
  destruct (C6_rdnbr_denominator_clamped sample_flat_stack 0.0005 (-0.1)
              eq_refl eq_refl)
    as (b1 & b2 & b3 & b4 & dnbr & pre_nbr3 & _ & _ & _ & _
        & _ & H3 & Hrd & _ & Hclamp).
  assert (Hsmall : Rabs 0.0005 < 0.001) by (rewrite Rabs_of_nonneg; lra).
  destruct (Hclamp Hsmall) as (_ & E & _ & Hne).
  rewrite (Rabs_of_nonneg 0.0005) in Hne by lra.
  subst pre_nbr3.
  exists b4. eexists. repeat split; eassumption.
Defined.

(** *** Rule fusion *)

(** A mask pixel lets data through. *)
Definition is_set (m : pixel) : bool :=
  match m with Some v => truthy v | None => false end.

(** A rule holds at a pixel: there is data and the comparison is true. *)
Definition rule (cmp : R -> R -> bool) (p : pixel) (t : R) : bool :=
  match p with Some v => cmp (toR v) t | None => false end.

Lemma compare_Flt fz fr (v : num) (t : R) :
  compare fz fr v (Flt t) = ofBool (fr (toR v) t).
Proof. now destruct v. Qed.

Lemma pupdateMask_is_set (p m : pixel) :
  pupdateMask p m = if is_set m then p else None.
Proof. destruct m as [v | ]; reflexivity. Qed.

(** The value of a decision raster: no data off land or on water, else the
    boolean of the comparison. *)
Definition decision (fr : R -> R -> bool) (p dry ld : pixel) (t : R)
  : option bool :=
  if is_set dry && is_set ld
  then option_map (fun v => fr (toR v) t) p
  else None.

Lemma decision_value fz fr (p dry ld : pixel) (t : R) :
  pmap (fun v => compare fz fr v (Flt t)) (pupdateMask (pupdateMask p dry) ld)
  = option_map ofBool (decision fr p dry ld t).
Proof.
  unfold decision. rewrite !pupdateMask_is_set.
  destruct (is_set dry), (is_set ld), p as [v | ]; cbn; try reflexivity.
  now rewrite compare_Flt.
Qed.

Lemma decision_true fr p dry ld t :
  decision fr p dry ld t = Some true
  <-> (is_set dry = true /\ is_set ld = true) /\ rule fr p t = true.
Proof.
  unfold decision, rule.
  destruct (is_set dry), (is_set ld), p as [v | ]; cbn;
    (split; [ intros H; try discriminate H; inversion H; auto
            | intros [[H1 H2] H3]; try discriminate; now rewrite H3 ]).
Qed.

(** The fused value of four one-band rule rasters. *)
Definition fused (inside : bool) (p1 p2 p3 p4 : pixel) : pixel :=
  pselfMask
    (pmap (fun v => neq v (Int 4))
       (pclip inside p1 + pclip inside p2 + pclip inside p3 + pclip inside p4)%px).

Lemma fuse_one_band inside n1 p1 t1 i1 n2 p2 t2 i2 n3 p3 t3 i3 n4 p4 t4 i4 :
  fuse inside (mkImage [(n1, p1)] t1 i1) (mkImage [(n2, p2)] t2 i2)
       (mkImage [(n3, p3)] t3 i3) (mkImage [(n4, p4)] t4 i4)
  = Some (mkImage [(n1, fused inside p1 p2 p3 p4)] None i1).
Proof. reflexivity. Qed.

(** The 16 combinations: with data in the four rule rasters, the fused
    pixel is 1 when the four are true (their sum is 4) and no data
    otherwise. *)
Lemma fused_truth_table (r1 r2 r3 r4 : bool) :
  fused true (Some (ofBool r1)) (Some (ofBool r2)) (Some (ofBool r3))
        (Some (ofBool r4))
  = if r1 && r2 && r3 && r4 then int 1 else None.
Proof. destruct r1, r2, r3, r4; reflexivity. Qed.

Lemma fused_no_data inside p1 p2 p3 p4 :
  inside = false \/ p1 = None \/ p2 = None \/ p3 = None \/ p4 = None ->
  fused inside p1 p2 p3 p4 = None.
Proof.
  intros H.
  destruct inside, p1, p2, p3, p4; try reflexivity;
    exfalso; destruct H as [H | [H | [H | [H | H]]]]; discriminate H.
Qed.

Lemma fused_one_iff inside (d1 d2 d3 d4 : option bool) :
  fused inside (option_map ofBool d1) (option_map ofBool d2)
        (option_map ofBool d3) (option_map ofBool d4) = int 1
  <-> inside = true /\ d1 = Some true /\ d2 = Some true
      /\ d3 = Some true /\ d4 = Some true.
Proof.
  destruct inside, d1 as [[ | ] | ], d2 as [[ | ] | ], d3 as [[ | ] | ],
           d4 as [[ | ] | ]; cbn;
    (split; [ intros H; try discriminate H; repeat split
            | intros (H0 & H1 & H2 & H3 & H4); try discriminate; reflexivity ]).
Qed.

Lemma fused_one_or_none inside (d1 d2 d3 d4 : option bool) :
  let v := fused inside (option_map ofBool d1) (option_map ofBool d2)
                 (option_map ofBool d3) (option_map ofBool d4) in
  v = int 1 \/ v = None.
Proof.
  destruct inside, d1 as [[ | ] | ], d2 as [[ | ] | ], d3 as [[ | ] | ],
           d4 as [[ | ] | ]; cbn; auto.
Qed.

Lemma is_set_ofBool_selfMask (b : bool) :
  is_set (pselfMask (Some (ofBool b))) = b.
Proof. now destruct b. Qed.

Lemma neq_zero (v : num) : neq v (Int 0) = ofBool (Reqb (toR v) 0).
Proof.
  destruct v as [z | r]; [ | reflexivity ].
  cbn [neq compare toR]. f_equal. unfold Reqb.
  destruct (Req_dec_T (IZR z) 0) as [Hr | Hr], (Z.eqb_spec z 0) as [Hz | Hz];
    try reflexivity.
  - apply eq_IZR_R0 in Hr. contradiction.
  - subst z. now contradiction Hr.
Qed.

(** The water mask lets a pixel through when the region contains it and
    the surface-water layer has [max_extent] zero there. *)
Lemma dryLand_is_set max_extent ROI :
  is_set (dryLand max_extent ROI)
  = contains_pixel ROI && rule Reqb max_extent 0.
Proof.
  unfold dryLand, pclip.
  destruct (contains_pixel ROI); [ | reflexivity ].
  destruct max_extent as [v | ]; [ | reflexivity ].
  cbn [pmap option_map rule andb]. rewrite neq_zero.
  apply is_set_ofBool_selfMask.
Qed.

(** The land mask lets a pixel through when the region contains it and a
    shoreline polygon covers it. *)
Lemma land_is_set shoreline ROI :
  is_set (land shoreline ROI)
  = contains_pixel ROI && negb (Nat.eqb (length shoreline) 0).
Proof.
  unfold land, pclip.
  destruct (contains_pixel ROI); [ | reflexivity ].
  destruct shoreline; reflexivity.
Qed.

Lemma select_one_masked name (img : Image) (p dry ld : pixel) :
  band name img = Some p ->
  select [name] (updateMask (updateMask img dry) ld)
  = Some (mkImage [(name, pupdateMask (pupdateMask p dry) ld)]
                  (time_start img) (in_bounds img)).
Proof.
  unfold band, select, updateMask, withBands. cbn [bands selectBands].
  intros H.
  rewrite (lookup_map (fun q => pupdateMask q ld)).
  rewrite (lookup_map (fun q => pupdateMask q dry)).
  rewrite H. reflexivity.
Qed.

Section Fusion.

Variable year_select : Z.
Variable archive : Archive.
Variable classifier : list num -> R.
Variable max_extent : pixel.
Variable shoreline : list Z.
Variable ROI : Geometry.

Let dry := dryLand max_extent ROI.
Let ld := land shoreline ROI.

(** The four decision rasters of a run whose inputs were computed. *)
Lemma hiRFthresh_value b19 :
  burnIndices19 year_select archive max_extent ROI = Some b19 ->
  hiRFthresh year_select archive classifier max_extent shoreline ROI
  = Some (mkImage
            [("classification",
              pmap (fun v => ngt v (Flt 0.9))
                (pupdateMask
                   (pupdateMask
                      (option_map (fun vs => Flt (classifier vs))
                         (all_valid (map snd (bands b19)))) dry) ld))]
            None (in_bounds b19)).
Proof.
  intros H. unfold hiRFthresh, predictedImage. rewrite H. reflexivity.
Qed.

Lemma threshold_of_masked_band (col : option Image) name cmp t D p :
  col = Some D -> band name D = Some p ->
  (d <- (c <- col ;; Some (updateMask (updateMask c dry) ld)) ;;
   n <- select [name] d ;;
   Some (threshold cmp t n))
  = Some (mkImage
            [(name, pmap (fun v => cmp v (Flt t))
                      (pupdateMask (pupdateMask p dry) ld))]
            None (in_bounds D)).
Proof.
  intros -> Hb. cbn [bind]. rewrite (select_one_masked _ _ _ _ _ Hb).
  reflexivity.
Qed.

(** C1: in a run whose four rule inputs were computed, the candidate mask
    over a geometry is one band that is 1 exactly where the geometry and the
    region contain the pixel, the pixel is on land ([shoreline] covers it)
    and not permanent water ([max_extent] is 0), and the four rules hold:
    classifier probability > 0.9, divCol 'nbr2' < 0.5, subCol 'nbr2' < -0.1
    and meanCol 'nbr' < 0; everywhere else it has no data.  The mask is the
    sum of the four 0/1 rasters compared with 4 ([fuse]), which is 1 exactly
    for the all-true row of the 16 rows of the truth table. *)
Theorem C1_candidate_fire_mask (g : Geometry) (b19 D S M : Image) (d s m : pixel)
    (Hb19 : burnIndices19 year_select archive max_extent ROI = Some b19)
    (HD : divCol year_select archive ROI = Some D)
    (Hd : band "nbr2" D = Some d)
    (HS : subCol year_select archive ROI = Some S)
    (Hs : band "nbr2" S = Some s)
    (HM : meanCol year_select archive ROI = Some M)
    (Hm : band "nbr" M = Some m) :
  let probability :=
    option_map (fun vs => Flt (classifier vs)) (all_valid (map snd (bands b19))) in
  exists v : pixel,
    candidates year_select archive classifier max_extent shoreline ROI g
    = Some (mkImage [("classification", v)] None (in_bounds b19)) /\
    (v = int 1 <->
     contains_pixel g = true /\
     (contains_pixel ROI = true /\ rule Reqb max_extent 0 = true) /\
     (contains_pixel ROI = true /\ shoreline <> []) /\
     rule (fun x t => Rltb t x) probability 0.9 = true /\
     rule Rltb d 0.5 = true /\
     rule Rltb s (-0.1) = true /\
     rule Rltb m 0 = true) /\
    (v = int 1 \/ v = None) /\
    (forall r1 r2 r3 r4 : bool,
        fused true (Some (ofBool r1)) (Some (ofBool r2)) (Some (ofBool r3))
              (Some (ofBool r4))
        = if r1 && r2 && r3 && r4 then int 1 else None).
Proof.
  intros probability.
  pose proof (hiRFthresh_value b19 Hb19) as H1.
  assert (H2 : hiDEVthresh year_select archive max_extent shoreline ROI = _)
    by exact (threshold_of_masked_band _ "nbr2" nlt 0.5 D d HD Hd).
  assert (H3 : hiSUBthresh year_select archive max_extent shoreline ROI = _)
    by exact (threshold_of_masked_band _ "nbr2" nlt (-0.1) S s HS Hs).
  assert (H4 : hiMNthresh year_select archive max_extent shoreline ROI = _)
    by exact (threshold_of_masked_band _ "nbr" nlt 0 M m HM Hm).
  unfold candidates. rewrite H1, H2, H3, H4. cbn [bind].
  rewrite fuse_one_band. eexists. split; [ reflexivity | ].
  unfold ngt, nlt. rewrite !decision_value.
  split; [ | split; [ apply fused_one_or_none | exact fused_truth_table ] ].
  rewrite fused_one_iff, !decision_true.
  fold probability.
  assert (Hdry : is_set dry = true
                 <-> contains_pixel ROI = true /\ rule Reqb max_extent 0 = true).
  { unfold dry. rewrite dryLand_is_set. apply andb_true_iff. }
  assert (Hld : is_set ld = true
                <-> contains_pixel ROI = true /\ shoreline <> []).
  { unfold ld. rewrite land_is_set, andb_true_iff.
    destruct shoreline; cbn; intuition congruence. }
  rewrite Hdry, Hld. tauto.
Qed.

End Fusion.

(** *** A sample run

    Three Landsat 8 observations of one pixel, in the summers before, of and
    after the analysis year 2022; the pixel is on land, not water, inside
    the region. *)

Definition observation (d : Date) (b2 b3 b4 b5 b6 b7 qa : Z) : Image :=
  mkImage [("SR_B1", int 8000); ("SR_B2", int b2); ("SR_B3", int b3);
           ("SR_B4", int b4); ("SR_B5", int b5); ("SR_B6", int b6);
           ("SR_B7", int b7); ("QA_PIXEL", int qa)]
          (Some (millis d + 43200000)%Z) true.

Definition sample_run_archive : Archive :=
  mkArchive [] [] []
    [observation (mkDate 2021 7 15) 8200 9000 9500 18000 12000 9000 21824;
     observation (mkDate 2022 7 20) 8300 9100 9800 12000 13000 12500 21824;
     observation (mkDate 2023 7 15) 8300 9100 9800 11500 13000 12800 21824]
    [].

Definition sample_ROI : Geometry := mkGeometry 0 true.

Definition sample_classifier : list num -> R := fun _ => 0.95.

Lemma C1_candidate_fire_mask_witness :
  exists v : pixel,
    candidates 2022 sample_run_archive sample_classifier (int 0) [1%Z]
               sample_ROI sample_ROI
    = Some (mkImage [("classification", v)] None true) /\
    (v = int 1 \/ v = None).
Proof.
  assert (exists b19, burnIndices19 2022 sample_run_archive (int 0) sample_ROI
                      = Some b19 /\ in_bounds b19 = true) as (b19 & Hb19 & Hib).
  { eexists. split; [ vm_compute; reflexivity | reflexivity ]. }
  assert (exists D d, divCol 2022 sample_run_archive sample_ROI = Some D
                      /\ band "nbr2" D = Some d) as (D & d & HD & Hd).
  { do 2 eexists. split; vm_compute; reflexivity. }
  assert (exists S s, subCol 2022 sample_run_archive sample_ROI = Some S
                      /\ band "nbr2" S = Some s) as (S & s & HS & Hs).
  { do 2 eexists. split; vm_compute; reflexivity. }
  assert (exists M m, meanCol 2022 sample_run_archive sample_ROI = Some M
                      /\ band "nbr" M = Some m) as (M & m & HM & Hm).
  { do 2 eexists. split; vm_compute; reflexivity. }
  destruct (C1_candidate_fire_mask 2022 sample_run_archive sample_classifier
              (int 0) [1%Z] sample_ROI sample_ROI b19 D S M d s m
              Hb19 HD Hd HS Hs HM Hm) as (v & Hv & _ & Hor & _).
  exists v. rewrite Hib in Hv. split; assumption.
Defined.

(** *** The tile loop *)

Section TileLoop.

Variable year_select : Z.
Variable archive : Archive.
Variable classifier : list num -> R.
Variable max_extent : pixel.
Variable shoreline : list Z.
Variable ROI : Geometry.
Variable grid : list Geometry.

(** The task the loop body queues for tile [i]. *)
Definition tileTask (i : nat) : ExportTask :=
  mkExportTask
    (mkVectors
       (candidatesOver year_select archive classifier max_extent shoreline ROI
                       (nth_error (firstn 24 grid) i))
       (nth_error (firstn 24 grid) i) 60)
    ("candidateFires__" ++ show year_select ++ "__ROIsub_" ++ format02d i
     ++ "_" ++ show 0 ++ "px" ++ show 60 ++ "m")%string
    "tundraFire_exports" "GeoJSON".

Let body := exportTile year_select archive classifier max_extent shoreline ROI grid.
Let loop := tileLoop year_select archive classifier max_extent shoreline ROI grid.

Lemma exportTile_appends i queue : body i queue = queue ++ [tileTask i].
Proof. reflexivity. Qed.

(** With fuel for the remaining iterations and the final test, the loop
    started at [i] queues the tasks of the tiles [i .. 23] in order. *)
Lemma tileLoop_runs (n : nat) : forall (fuel i : nat) (queue : list ExportTask),
  (i + n = 24)%nat -> (n < fuel)%nat ->
  loop fuel i queue = Some (queue ++ map tileTask (seq i n)).
Proof.
  induction n as [ | n IH]; intros fuel i queue Hi Hfuel.
  - destruct fuel as [ | fuel]; [ lia | ].
    unfold loop. cbn [tileLoop].
    destruct (Nat.ltb_spec i 24); [ lia | ].
    cbn. now rewrite app_nil_r.
  - destruct fuel as [ | fuel]; [ lia | ].
    unfold loop. cbn [tileLoop].
    destruct (Nat.ltb_spec i 24); [ | lia ].
    fold loop. rewrite IH by lia.
    fold body. rewrite exportTile_appends, <- app_assoc. reflexivity.
Qed.

(** C9: in default-region export mode the loop runs [i] from 1 to 23: it
    queues exactly 23 exports, one per grid cell 1..23 of the 24-cell grid,
    named by the tile index, and the cell at index 0 is the region of none
    of them. *)
Theorem C9_tile_loop_skips_cell_0 (fuel : nat)
    (Hfuel : (24 <= fuel)%nat) (Hgrid : length grid = 24%nat)
    (Hcells : NoDup grid) :
  exists tasks : list ExportTask,
    exports year_select archive classifier max_extent shoreline ROI grid
            true false fuel = Some tasks /\
    tasks = map tileTask (seq 1 23) /\
    length tasks = 23%nat /\
    map (fun t => region (collection t)) tasks
    = map (fun i => nth_error grid i) (seq 1 23) /\
    (forall t, In t tasks ->
       exists i cell, (1 <= i <= 23)%nat /\ nth_error grid i = Some cell /\
                      region (collection t) = Some cell /\
                      description t
                      = ("candidateFires__" ++ show year_select ++ "__ROIsub_"
                         ++ format02d i ++ "_0px60m")%string) /\
    exists cell0, nth_error grid 0 = Some cell0 /\
                  forall t, In t tasks -> region (collection t) <> Some cell0.
Proof.
  assert (Hfirst : firstn 24 grid = grid).
  { rewrite <- Hgrid. apply firstn_all. }
  assert (Hregion : forall i, region (collection (tileTask i)) = nth_error grid i).
  { intros i. unfold tileTask. cbn [collection region]. now rewrite Hfirst. }
  assert (Hcell : forall i, (i < 24)%nat -> exists c, nth_error grid i = Some c).
  { intros i Hi. destruct (nth_error grid i) as [c | ] eqn:E; [ now exists c | ].
    apply nth_error_None in E. lia. }
  exists (map tileTask (seq 1 23)).
  split; [ | split; [ reflexivity | split; [ | split; [ | split ] ] ] ].
  - unfold exports. cbn [andb negb].
    change (tileLoop year_select archive classifier max_extent shoreline ROI grid)
      with loop.
    rewrite (tileLoop_runs 23) by lia. reflexivity.
  - now rewrite length_map, length_seq.
  - rewrite map_map. apply map_ext. exact Hregion.
  - intros t Ht. apply in_map_iff in Ht. destruct Ht as (i & <- & Hi).
    apply in_seq in Hi. destruct (Hcell i) as (c & Hc); [ lia | ].
    exists i, c. repeat split; try lia; try assumption.
    now rewrite Hregion.
  - destruct (Hcell 0%nat) as (c0 & Hc0); [ lia | ].
    exists c0. split; [ assumption | ].
    intros t Ht Heq. apply in_map_iff in Ht. destruct Ht as (i & <- & Hi).
    apply in_seq in Hi. rewrite Hregion, <- Hc0 in Heq.
    apply (proj1 (NoDup_nth_error grid) Hcells) in Heq; lia.
Qed.

End TileLoop.

(** A grid of 24 cells, the fixed pixel in cell 5. *)
Definition sample_grid : list Geometry :=
  map (fun k => mkGeometry k (Nat.eqb k 5)) (seq 0 24).

Lemma sample_grid_NoDup : NoDup sample_grid.
Proof.
  unfold sample_grid. apply Finite.Injective_map_NoDup; [ | apply seq_NoDup ].
  intros a b H. now inversion H.
Qed.

Lemma C9_tile_loop_skips_cell_0_witness :
  exists tasks : list ExportTask,
    exports 2022 sample_run_archive sample_classifier (int 0) [1%Z] sample_ROI
            sample_grid true false 24 = Some tasks /\
    length tasks = 23%nat /\
    map description tasks
    = map (fun i => ("candidateFires__2022__ROIsub_" ++ format02d i
                     ++ "_0px60m")%string) (seq 1 23) /\
    forall t, In t tasks -> region (collection t) <> Some (mkGeometry 0 false).
Proof.
  destruct (C9_tile_loop_skips_cell_0 2022 sample_run_archive sample_classifier
              (int 0) [1%Z] sample_ROI sample_grid 24
              (le_n 24) eq_refl sample_grid_NoDup)
    as (tasks & Hrun & Htasks & Hlen & _ & _ & cell0 & Hc0 & Hskip).
  exists tasks. split; [ exact Hrun | ]. split; [ exact Hlen | ].
  split.
  - rewrite Htasks, map_map. reflexivity.
  - inversion Hc0; subst cell0. exact Hskip.
Defined.

(** *** Compositing with the backfill image *)

(** The backfill image: the 15 index bands, none with data. *)
Definition noData (names : list string) : Image :=
  mkImage (map (fun n => (n, @None num)) names) None true.

Lemma transparentImage_value : transparentImage = Some (noData allVariables).
Proof. reflexivity. Qed.

Lemma lookup_keyed (f : string -> pixel) (names : list string) (n : string) :
  In n names -> lookup n (map (fun k => (k, f k)) names) = Some (f n).
Proof.
  induction names as [ | k names IH]; intros H; [ destruct H | ].
  cbn. destruct (String.eqb_spec k n) as [-> | Hne]; [ reflexivity | ].
  destruct H as [H | H]; [ contradiction | now apply IH ].
Qed.

Lemma lookup_not_named (n : string) (bs : list (string * pixel)) :
  ~ In n (map fst bs) -> lookup n bs = None.
Proof.
  induction bs as [ | [k p] bs IH]; intros H; [ reflexivity | ].
  cbn in *. destruct (String.eqb_spec k n) as [-> | Hne]; [ tauto | ].
  apply IH. tauto.
Qed.

Lemma lookup_named (n : string) (bs : list (string * pixel)) :
  In n (map fst bs) -> exists p, lookup n bs = Some p.
Proof.
  induction bs as [ | [k p] bs IH]; intros H; [ destruct H | ].
  cbn in *. destruct (String.eqb_spec k n) as [-> | Hne]; [ now exists p | ].
  apply IH. destruct H; [ contradiction | assumption ].
Qed.

Lemma valid_noData n names : valid n (noData names) = [].
Proof.
  unfold valid, band, noData. cbn [bands].
  induction names as [ | k names IH]; [ reflexivity | ].
  cbn. destruct (String.eqb k n); [ reflexivity | exact IH ].
Qed.

Lemma values_app n (a b : ImageCollection) :
  values n (a ++ b) = values n a ++ values n b.
Proof. unfold values. apply flat_map_app. Qed.

(** The backfill image contributes no value to any band. *)
Lemma values_backfilled n (obs : ImageCollection) names :
  values n (merge obs [noData names]) = values n obs.
Proof.
  unfold merge. rewrite values_app. cbn [values flat_map].
  now rewrite valid_noData, !app_nil_r.
Qed.

Lemma same_names_refl (a : list string) : same_names a a = true.
Proof. unfold same_names. destruct (list_eq_dec string_dec a a); congruence. Qed.

(** Reducing a non-empty collection whose images all carry the bands
    [names]. *)
Lemma reduce_homogeneous (r : Reducer) (col : ImageCollection) names :
  col <> [] ->
  Forall (fun img => bandNames img = names) col ->
  reduce r col
  = Some (mkImage (map (fun n => (n, option_map Flt (r (values n col)))) names)
                  None true).
Proof.
  intros Hne Hall. destruct col as [ | first rest]; [ contradiction | ].
  unfold reduce.
  assert (Hfirst : bandNames first = names) by now inversion Hall.
  replace (forallb _ (first :: rest)) with true.
  - now rewrite Hfirst.
  - symmetry. apply forallb_forall. intros img Hin.
    rewrite Forall_forall in Hall. rewrite (Hall img Hin), Hfirst.
    apply same_names_refl.
Qed.

Lemma band_reduced (f : string -> pixel) names n t ib :
  In n names ->
  band n (mkImage (map (fun k => (k, f k)) names) t ib) = Some (f n).
Proof. intros H. unfold band. cbn [bands]. now apply lookup_keyed. Qed.

Lemma bandNames_noData names : bandNames (noData names) = names.
Proof.
  unfold bandNames, noData. cbn [bands]. rewrite map_map. cbn. apply map_id.
Qed.

Lemma Forall_filter {A} (P : A -> Prop) (f : A -> bool) (l : list A) :
  Forall P l -> Forall P (filter f l).
Proof.
  intros H. rewrite Forall_forall in *. intros x Hx.
  apply filter_In in Hx. now apply H.
Qed.

(** The composite of a collection merged with the backfill image. *)
Lemma composite_backfilled (r : Reducer) (obs : ImageCollection) :
  Forall (fun img => bandNames img = allVariables) obs ->
  reduce r (merge obs [noData allVariables])
  = Some (mkImage
            (map (fun n => (n, option_map Flt (r (values n obs)))) allVariables)
            None true).
Proof.
  intros Hall.
  rewrite (reduce_homogeneous r _ allVariables).
  - do 2 f_equal. apply map_ext. intros n.
    now rewrite values_backfilled.
  - unfold merge. destruct obs; discriminate.
  - unfold merge. apply Forall_app. split; [ assumption | ].
    constructor; [ apply bandNames_noData | constructor ].
Qed.

Lemma selectBands_keyed (f : string -> pixel) (keys names : list string) :
  incl names keys ->
  selectBands names (map (fun k => (k, f k)) keys)
  = Some (map (fun n => (n, f n)) names).
Proof.
  induction names as [ | n names IH]; intros Hincl; [ reflexivity | ].
  cbn [selectBands map].
  rewrite lookup_keyed by (apply Hincl; now left).
  cbn [bind]. rewrite IH; [ reflexivity | ].
  intros x Hx. apply Hincl. now right.
Qed.

Lemma combine_map {A B C} (g : A -> B) (f : A -> C) (l : list A) :
  combine (map g l) (map f l) = map (fun x => (g x, f x)) l.
Proof. induction l as [ | x l IH]; cbn; [ reflexivity | now rewrite IH ]. Qed.

(** [select(allVariables, renamed)] on a composite. *)
Lemma selectAs_composite (f : string -> pixel) (g : string -> string) :
  selectAs allVariables (map g allVariables)
           (mkImage (map (fun n => (n, f n)) allVariables) None true)
  = Some (mkImage (map (fun n => (g n, f n)) allVariables) None true).
Proof.
  unfold selectAs, select, withBands. cbn [bands time_start in_bounds].
  rewrite selectBands_keyed by apply incl_refl.
  cbn [bind]. unfold rename, withBands. cbn [bands time_start in_bounds].
  rewrite !length_map, Nat.eqb_refl, map_map. cbn [snd].
  now rewrite combine_map.
Qed.

(** The pre- or post-fire composite of a run, over the observations [obs]
    of its window. *)
Definition composite (prefix : string) (obs : ImageCollection) : Image :=
  mkImage
    (map (fun n => ((prefix ++ n)%string,
                    option_map Flt (median (values n obs)))) allVariables)
    None true.

Lemma filled_value (prefix : string) (obs : ImageCollection) :
  Forall (fun img => bandNames img = allVariables) obs ->
  (m <- reduce median (merge obs [noData allVariables]) ;;
   selectAs allVariables (map (fun word => prefix ++ word)%string allVariables) m)
  = Some (composite prefix obs).
Proof.
  intros Hall. rewrite composite_backfilled by assumption. cbn [bind].
  apply (selectAs_composite _ (fun word => (prefix ++ word)%string)).
Qed.

Lemma lsCol_homogeneous archive col :
  lsCol archive = Some col ->
  Forall (fun img => bandNames img = allVariables) col.
Proof.
  intros H. apply Forall_forall. intros img Hin.
  eapply lsCol_bandNames; eassumption.
Qed.

Section Filled.

Variable year_select : Z.
Variable archive : Archive.
Variable col : ImageCollection.
Hypothesis Hcol : lsCol archive = Some col.

Definition preObservations : ImageCollection :=
  filterDate (preFireYearStart year_select) (preFireYearEnd year_select)
             (filterBounds col).

Definition postObservations : ImageCollection :=
  filterDate (postFireYearStart year_select) (postFireYearEnd year_select)
             (filterBounds col).

Lemma preFilteredCol_value :
  preFilteredCol year_select archive
  = Some (merge preObservations [noData allVariables]).
Proof. unfold preFilteredCol, imgCol. rewrite Hcol. reflexivity. Qed.

Lemma postFilteredCol_value :
  postFilteredCol year_select archive
  = Some (merge postObservations [noData allVariables]).
Proof. unfold postFilteredCol, imgCol. rewrite Hcol. reflexivity. Qed.

Lemma pre_filled_value :
  pre_filled year_select archive = Some (composite "pre_" preObservations).
Proof.
  unfold pre_filled. rewrite preFilteredCol_value. cbn [bind].
  apply (filled_value "pre_").
  unfold preObservations, filterDate, filterBounds.
  do 2 apply Forall_filter. now apply lsCol_homogeneous with archive.
Qed.

Lemma post_filled_value :
  post_filled year_select archive = Some (composite "post_" postObservations).
Proof.
  unfold post_filled. rewrite postFilteredCol_value. cbn [bind].
  apply (filled_value "post_").
  unfold postObservations, filterDate, filterBounds.
  do 2 apply Forall_filter. now apply lsCol_homogeneous with archive.
Qed.

Lemma fireIndices_value :
  fireIndices year_select archive
  = Some (addBands (composite "pre_" preObservations)
                   (composite "post_" postObservations)).
Proof.
  unfold fireIndices. now rewrite pre_filled_value, post_filled_value.
Qed.

End Filled.

(** *** No step of the calculator fails on a full pre/post stack *)

Lemma band_named n img :
  In n (bandNames img) -> exists p, band n img = Some p.
Proof. apply lookup_named. Qed.

Lemma metric_bandNames name e img v :
  e img = Some v ->
  exists out, metric name e img = Some out /\
              bandNames out = name :: bandNames img.
Proof.
  intros H. rewrite (metric_value _ _ _ _ H). eexists. split; reflexivity.
Qed.

Lemma difference_succeeds pre post img :
  In pre (bandNames img) -> In post (bandNames img) ->
  exists v, difference pre post img = Some v.
Proof.
  intros Hpre Hpost. unfold difference.
  destruct (band_named _ _ Hpre) as (a & ->).
  destruct (band_named _ _ Hpost) as (b & ->).
  now eexists.
Qed.

Lemma scaled_difference_succeeds pre post k img :
  In pre (bandNames img) -> In post (bandNames img) ->
  exists v, scaled_difference pre post k img = Some v.
Proof.
  intros Hpre Hpost. unfold scaled_difference.
  destruct (difference_succeeds _ _ _ Hpre Hpost) as (d & ->).
  now eexists.
Qed.

Lemma burnIndices2_succeeds img :
  In "dnbr" (bandNames img) -> In "pre_nbr" (bandNames img) ->
  exists out, burnIndices2 img = Some out /\
              bandNames out = "rbr" :: bandNames img.
Proof.
  intros H1 H2. unfold burnIndices2.
  destruct (band_named _ _ H1) as (a & Ha).
  destruct (band_named _ _ H2) as (b & Hb).
  eapply metric_bandNames. cbv beta. rewrite Ha, Hb. reflexivity.
Qed.

Lemma burnIndices3_succeeds img :
  In "pre_nbr" (bandNames img) ->
  exists out, burnIndices3 img = Some out /\
              bandNames out = "pre_nbr3" :: bandNames img.
Proof.
  intros H. unfold burnIndices3.
  destruct (band_named _ _ H) as (a & ->). cbn [bind].
  eexists. split; reflexivity.
Qed.

Lemma burnIndices4_succeeds img :
  In "dnbr" (bandNames img) -> In "pre_nbr3" (bandNames img) ->
  exists out, burnIndices4 img = Some out /\
              bandNames out = "rdnbr" :: bandNames img.
Proof.
  intros H1 H2. unfold burnIndices4.
  destruct (band_named _ _ H1) as (a & Ha).
  destruct (band_named _ _ H2) as (b & Hb).
  eapply metric_bandNames. cbv beta. rewrite Ha, Hb. reflexivity.
Qed.

Ltac named := cbv; repeat (first [ left; reflexivity | right ]).

Ltac metric_step lemma :=
  match goal with
  | Hn : bandNames ?img = _ |- _ =>
      let out := fresh "b" in
      let Hout := fresh "Hb" in
      let Hnames := fresh "Hn" in
      destruct (lemma img) as (out & Hout & Hnames);
      [ rewrite Hn; named .. | ];
      rewrite Hout; cbn [bind]; rewrite Hn in Hnames; clear Hn Hout
  end.

Definition metricNames : list string :=
  ["dmsavi"; "dtcw"; "dtcg"; "dtcb"; "dbsi"; "dcsi"; "dbaims"; "dbai"; "dndwi";
   "dnbr2"; "dmirbi"; "dndmi"; "devi"; "dndvi"; "rdnbr"; "pre_nbr3"; "rbr"; "dnbr"].

Lemma scaled_metric_succeeds name pre post k img :
  In pre (bandNames img) -> In post (bandNames img) ->
  exists out, metric name (scaled_difference pre post k) img = Some out /\
              bandNames out = name :: bandNames img.
Proof.
  intros Hpre Hpost.
  destruct (scaled_difference_succeeds pre post k img Hpre Hpost) as (v & Hv).
  now apply metric_bandNames with v.
Qed.

Lemma plain_metric_succeeds name pre post img :
  In pre (bandNames img) -> In post (bandNames img) ->
  exists out, metric name (difference pre post) img = Some out /\
              bandNames out = name :: bandNames img.
Proof.
  intros Hpre Hpost.
  destruct (difference_succeeds pre post img Hpre Hpost) as (v & Hv).
  now apply metric_bandNames with v.
Qed.

(** On a stack with the 15 [pre_] and the 15 [post_] bands every one of the
    18 steps finds its bands. *)
Lemma burnMetrics_succeeds (f : Image) :
  bandNames f = preVariables ++ postVariables ->
  exists b18, burnMetrics f = Some b18 /\
              bandNames b18 = metricNames ++ preVariables ++ postVariables.
Proof.
  intros Hn. unfold burnMetrics.
  unfold burnIndices at 1.
  metric_step (scaled_metric_succeeds "dnbr" "pre_nbr" "post_nbr" 1000).
  metric_step burnIndices2_succeeds.
  metric_step burnIndices3_succeeds.
  metric_step burnIndices4_succeeds.
  unfold burnIndices5, burnIndices6, burnIndices7, burnIndices8, burnIndices9,
    burnIndices10, burnIndices11, burnIndices12, burnIndices13, burnIndices14,
    burnIndices15, burnIndices16, burnIndices17, burnIndices18.
  metric_step (scaled_metric_succeeds "dndvi" "pre_ndvi" "post_ndvi" 1000).
  metric_step (scaled_metric_succeeds "devi" "pre_evi" "post_evi" 1000).
  metric_step (scaled_metric_succeeds "dndmi" "pre_ndmi" "post_ndmi" 1000).
  metric_step (scaled_metric_succeeds "dmirbi" "pre_mirbi" "post_mirbi" 1000).
  metric_step (scaled_metric_succeeds "dnbr2" "pre_nbr2" "post_nbr2" 1000).
  metric_step (scaled_metric_succeeds "dndwi" "pre_ndwi" "post_ndwi" 1000).
  metric_step (plain_metric_succeeds "dbai" "pre_bai" "post_bai").
  metric_step (scaled_metric_succeeds "dbaims" "pre_baims" "post_baims" 10).
  metric_step (scaled_metric_succeeds "dcsi" "pre_csi" "post_csi" 1000).
  metric_step (scaled_metric_succeeds "dbsi" "pre_bsi" "post_bsi" 1000).
  metric_step (scaled_metric_succeeds "dtcb" "pre_tcb" "post_tcb" 100).
  metric_step (scaled_metric_succeeds "dtcg" "pre_tcg" "post_tcg" 100).
  metric_step (scaled_metric_succeeds "dtcw" "pre_tcw" "post_tcw" 100).
  match goal with
  | Hn : bandNames ?img = _ |- _ =>
      destruct (scaled_metric_succeeds "dmsavi" "pre_msavi" "post_msavi" 1000 img)
        as (b18 & Hb18 & Hn18); [ rewrite Hn; named .. | ];
      exists b18; split; [ exact Hb18 | ]; rewrite Hn18, Hn; reflexivity
  end.
Qed.

Lemma selectBands_succeeds names bs :
  incl names (map fst bs) ->
  exists out, selectBands names bs = Some out /\ length out = length names.
Proof.
  induction names as [ | n names IH]; intros Hincl.
  - now exists [].
  - destruct (lookup_named n bs) as (p & Hp); [ apply Hincl; now left | ].
    destruct IH as (rest & Hrest & Hlen).
    { intros x Hx. apply Hincl. now right. }
    exists ((n, p) :: rest). cbn [selectBands]. rewrite Hp, Hrest.
    split; [ reflexivity | cbn; now rewrite Hlen ].
Qed.

Lemma selectAs_succeeds names newNames img :
  incl names (bandNames img) -> length names = length newNames ->
  exists out, selectAs names newNames img = Some out /\
              bandNames out = newNames.
Proof.
  intros Hincl Hlen.
  destruct (selectBands_succeeds names (bands img) Hincl) as (bs & Hbs & Hl).
  unfold selectAs, select. rewrite Hbs. cbn [bind].
  unfold rename, withBands. cbn [bands].
  rewrite <- Hlen, Hl, Nat.eqb_refl.
  eexists. split; [ reflexivity | ].
  unfold bandNames. cbn [bands]. apply combine_names.
  now rewrite length_map, Hl, Hlen.
Qed.

Lemma updateMask_bandNames img mask :
  bandNames (updateMask img mask) = bandNames img.
Proof.
  unfold bandNames, updateMask, withBands. cbn [bands].
  rewrite map_map. reflexivity.
Qed.

Lemma composite_bandNames prefix obs :
  bandNames (composite prefix obs)
  = map (fun word => (prefix ++ word)%string) allVariables.
Proof.
  unfold bandNames, composite. cbn [bands]. rewrite map_map. reflexivity.
Qed.

(** A run whose harmonized collection was computed goes through the
    compositor and the whole calculator, whatever the windows hold. *)
Lemma calculator_succeeds year_select archive max_extent ROI col :
  lsCol archive = Some col ->
  exists f b18 b19,
    fireIndices year_select archive = Some f /\
    bandNames f = preVariables ++ postVariables /\
    burnMetrics f = Some b18 /\
    burnIndices19 year_select archive max_extent ROI = Some b19 /\
    bandNames b19 = predictorVariables.
Proof.
  intros Hcol.
  pose proof (fireIndices_value year_select archive col Hcol) as Hf.
  set (f := addBands _ _) in Hf.
  assert (Hn : bandNames f = preVariables ++ postVariables).
  { unfold f. rewrite addBands_bandNames, !composite_bandNames. reflexivity. }
  destruct (burnMetrics_succeeds f Hn) as (b18 & Hb18 & Hn18).
  destruct (selectAs_succeeds (map toLowerCase predictorVariables)
              predictorVariables (updateMask b18 (dryLand max_extent ROI)))
    as (b19 & Hb19 & Hn19).
  { rewrite updateMask_bandNames, Hn18. intros x Hx.
    cbv in Hx. destruct Hx as [<- | [<- | [<- | []]]]; named. }
  { reflexivity. }
  exists f, b18, b19. repeat split; try assumption.
  unfold burnIndices19. rewrite Hf. cbn [bind]. rewrite Hb18. cbn [bind].
  exact Hb19.
Qed.

(** C5: when the date-and-bounds-filtered observation set of the pre-fire
    (or post-fire) window is empty, the set that is reduced is the backfill
    image alone, the median keeps its 15 band names with no data in any,
    and the composite has the 15 [pre_] (or [post_]) bands, all without
    data; without the backfill image the band selection would fail.  The
    stack, the 18 burn metrics and the predictor selection that follow are
    all computed. *)
Theorem C5_empty_window_is_backfilled
    (year_select : Z) (archive : Archive) (max_extent : pixel) (ROI : Geometry)
    (col : ImageCollection) (Hcol : lsCol archive = Some col) :
  (preObservations year_select col = [] ->
   preFilteredCol year_select archive = Some [noData allVariables] /\
   pre_filled year_select archive = Some (noData preVariables)) /\
  (postObservations year_select col = [] ->
   postFilteredCol year_select archive = Some [noData allVariables] /\
   post_filled year_select archive = Some (noData postVariables)) /\
  reduce median [noData allVariables] = Some (noData allVariables) /\
  bandNames (noData allVariables) = allVariables /\
  length allVariables = 15%nat /\
  Forall (fun b => snd b = None) (bands (noData allVariables)) /\
  (m <- reduce median [] ;; selectAs allVariables preVariables m) = None /\
  exists f b18 b19,
    fireIndices year_select archive = Some f /\
    bandNames f = preVariables ++ postVariables /\
    burnMetrics f = Some b18 /\
    burnIndices19 year_select archive max_extent ROI = Some b19 /\
    bandNames b19 = predictorVariables.
Proof.
  split; [ | split ].
  - intros Hempty.
    rewrite (preFilteredCol_value _ _ _ Hcol), (pre_filled_value _ _ _ Hcol).
    rewrite Hempty. split; reflexivity.
  - intros Hempty.
    rewrite (postFilteredCol_value _ _ _ Hcol), (post_filled_value _ _ _ Hcol).
    rewrite Hempty. split; reflexivity.
  - split; [ reflexivity | ]. split; [ reflexivity | ].
    split; [ reflexivity | ].
    split; [ repeat constructor | ].
    split; [ reflexivity | ].
    now apply calculator_succeeds with col.
Qed.

Lemma C5_empty_window_is_backfilled_witness :
  pre_filled 2019 sample_archive = Some (noData preVariables) /\
  post_filled 2019 sample_archive = Some (noData postVariables) /\
  exists b19, burnIndices19 2019 sample_archive (int 0) sample_ROI = Some b19.
Proof.
  assert (exists col, lsCol sample_archive = Some col /\
                      preObservations 2019 col = [] /\
                      postObservations 2019 col = [])
    as (col & Hcol & Hpre & Hpost).
  { eexists. split; [ vm_compute; reflexivity | ].
    split; vm_compute; reflexivity. }
  destruct (C5_empty_window_is_backfilled 2019 sample_archive (int 0) sample_ROI
              col Hcol)
    as (Hp & Hq & _ & _ & _ & _ & _ & f & b18 & b19 & _ & _ & _ & Hb19 & _).
  split; [ exact (proj2 (Hp Hpre)) | ].
  split; [ exact (proj2 (Hq Hpost)) | ].
  now exists b19.
Defined.

(** C10: for the observations [obs] of any date window of the harmonized
    collection and any index band, the median of [obs] merged with the
    backfill image is the median of the valid values of [obs] alone: it
    equals the composite without the backfill image whenever [obs] is not
    empty, it has data exactly where some observation has, and where none
    has it is no data. *)
Theorem C10_backfill_changes_no_value
    (archive : Archive) (col : ImageCollection) (s e : Date) (n : string)
    (Hcol : lsCol archive = Some col) (Hn : In n allVariables) :
  let obs := filterDate s e (filterBounds col) in
  exists m,
    reduce median (merge obs [noData allVariables]) = Some m /\
    band n m = Some (option_map Flt (median (values n obs))) /\
    (obs <> [] ->
     exists m0, reduce median obs = Some m0 /\ band n m0 = band n m) /\
    (values n obs <> [] -> exists v, band n m = Some (flt v)) /\
    (values n obs = [] -> band n m = Some None).
Proof.
  intros obs.
  assert (Hall : Forall (fun img => bandNames img = allVariables) obs).
  { unfold obs, filterDate, filterBounds. do 2 apply Forall_filter.
    now apply lsCol_homogeneous with archive. }
  eexists. split; [ apply composite_backfilled; exact Hall | ].
  rewrite (band_reduced (fun k => option_map Flt (median (values k obs))))
    by assumption.
  split; [ reflexivity | ]. split; [ | split ].
  - intros Hne. eexists.
    split; [ apply reduce_homogeneous; [ exact Hne | exact Hall ] | ].
    now rewrite (band_reduced (fun k => option_map Flt (median (values k obs)))).
  - intros Hv. unfold median.
    assert (Hlen : length (sort (values n obs)) <> 0%nat).
    { destruct (values n obs) as [ | x l]; [ contradiction | ].
      cbn [sort]. clear. generalize (sort l). intros l'.
      induction l' as [ | y l' IH]; cbn; [ discriminate | ].
      destruct (Rle_dec x y); cbn; discriminate. }
    destruct (length (sort (values n obs))); [ contradiction | ].
    destruct (Nat.even (S n0)); eexists; reflexivity.
  - intros ->. reflexivity.
Qed.

Lemma C10_backfill_changes_no_value_witness :
  exists col m m0 v,
    lsCol sample_archive = Some col /\
    let obs := filterDate (mkDate 2022 6 15) (mkDate 2022 9 1) (filterBounds col) in
    obs <> [] /\
    reduce median (merge obs [noData allVariables]) = Some m /\
    reduce median obs = Some m0 /\
    band "nbr" m0 = band "nbr" m /\
    band "nbr" m = Some (flt v).
Proof.
  assert (exists col, lsCol sample_archive = Some col /\
                      filterDate (mkDate 2022 6 15) (mkDate 2022 9 1)
                                 (filterBounds col) <> [] /\
                      values "nbr" (filterDate (mkDate 2022 6 15) (mkDate 2022 9 1)
                                               (filterBounds col)) <> [])
    as (col & Hcol & Hne & Hv).
  { eexists. split; [ vm_compute; reflexivity | ].
    split; vm_compute; decide_R; intros H; discriminate H. }
  assert (Hin : In "nbr" allVariables) by (left; reflexivity).
  destruct (C10_backfill_changes_no_value sample_archive col
              (mkDate 2022 6 15) (mkDate 2022 9 1) "nbr" Hcol Hin)
    as (m & Hm & _ & Hsame & Hdata & _).
  destruct (Hsame Hne) as (m0 & Hm0 & Heq).
  destruct (Hdata Hv) as (v & Hval).
  exists col, m, m0, v. repeat split; assumption.
Defined.

(** *** The summer windows *)

(** Days from 1970-01-01 to 15 June and to 1 September of year [y]. *)
Lemma summer_days (y : Z) :
  (days_from_civil (mkDate y 6 15) < days_from_civil (mkDate y 9 1)
   <= days_from_civil (mkDate (y + 1) 6 15))%Z.
Proof.
  unfold days_from_civil. cbn [year month day].
  change (6 <=? 2)%Z with false. change (9 <=? 2)%Z with false.
  change ((6 + 9) mod 12)%Z with 3%Z. change ((9 + 9) mod 12)%Z with 6%Z.
  cbv zeta. cbv iota.
  change ((153 * 3 + 2) / 5)%Z with 92%Z. change ((153 * 6 + 2) / 5)%Z with 184%Z.
  Z.to_euclidean_division_equations. lia.
Qed.

Lemma summer_millis (y : Z) :
  (millis (mkDate y 6 15) < millis (mkDate y 9 1)
   <= millis (mkDate (y + 1) 6 15))%Z.
Proof. unfold millis. pose proof (summer_days y). lia. Qed.

(** An observation is in the summer window of the year [k] years after the
    selected one. *)
Definition in_window (year_select k : Z) (img : Image) : bool :=
  in_range (advance_years k (startDate year_select))
           (advance_years k (endDate year_select)) img.

Lemma window_filter year_select k col :
  window year_select k col = filter (in_window year_select k) col.
Proof. reflexivity. Qed.

(** The windows of two different years share no observation. *)
Lemma windows_disjoint year_select (j k : Z) img :
  (j < k)%Z ->
  in_window year_select j img = true -> in_window year_select k img = false.
Proof.
  intros Hjk. unfold in_window, in_range, advance_years, startDate, endDate.
  cbn [year month day].
  destruct (time_start img) as [t | ]; [ | discriminate ].
  intros Hj. apply andb_prop in Hj. destruct Hj as [_ Hj].
  apply Z.ltb_lt in Hj.
  apply andb_false_iff. left. apply Z.leb_gt.
  assert (Hmono : (millis (mkDate (year_select + j) 9 1)
                   <= millis (mkDate (year_select + k) 6 15))%Z).
  { replace (year_select + k)%Z
      with (year_select + j + 1 + Z.of_nat (Z.to_nat (k - j - 1)))%Z by lia.
    induction (Z.to_nat (k - j - 1)) as [ | n IH].
    - rewrite Z.add_0_r. apply summer_millis.
    - pose proof (summer_millis (year_select + j + 1 + Z.of_nat n)).
      replace (year_select + j + 1 + Z.of_nat (S n))%Z
        with (year_select + j + 1 + Z.of_nat n + 1)%Z by lia.
      lia. }
  lia.
Qed.

(** *** Sorting and the median *)

Lemma insert_perm x l : Permutation (x :: l) (insert x l).
Proof.
  induction l as [ | y l IH]; cbn; [ reflexivity | ].
  destruct (Rle_dec x y); [ reflexivity | ].
  rewrite perm_swap. now constructor.
Qed.

Lemma sort_perm l : Permutation l (sort l).
Proof.
  induction l as [ | x l IH]; cbn; [ constructor | ].
  rewrite <- insert_perm. now constructor.
Qed.

Lemma insert_sorted x l :
  StronglySorted Rle l -> StronglySorted Rle (insert x l).
Proof.
  induction 1 as [ | y l Hs IH Hy]; cbn.
  - repeat constructor.
  - destruct (Rle_dec x y) as [Hxy | Hxy].
    + constructor; [ now constructor | ].
      constructor; [ assumption | ].
      rewrite Forall_forall in *. intros z Hz. specialize (Hy z Hz). lra.
    + constructor; [ assumption | ].
      rewrite Forall_forall in *. intros z Hz.
      apply (Permutation_in _ (Permutation_sym (insert_perm x l))) in Hz.
      destruct Hz as [<- | Hz]; [ lra | now apply Hy ].
Qed.

Lemma sort_sorted l : StronglySorted Rle (sort l).
Proof.
  induction l as [ | x l IH]; cbn; [ constructor | now apply insert_sorted ].
Qed.

Lemma sorted_unique (l1 : list R) : forall l2,
  StronglySorted Rle l1 -> StronglySorted Rle l2 -> Permutation l1 l2 ->
  l1 = l2.
Proof.
  induction l1 as [ | x l1 IH]; intros l2 H1 H2 Hp.
  - apply Permutation_nil in Hp. now subst.
  - destruct l2 as [ | y l2].
    + apply Permutation_sym, Permutation_nil in Hp. discriminate.
    + inversion H1 as [ | ? ? Hs1 Hx]; subst.
      inversion H2 as [ | ? ? Hs2 Hy]; subst.
      assert (x = y) as <-.
      { rewrite Forall_forall in Hx, Hy.
        assert (In y (x :: l1)) as [E | Hin]
            by (apply (Permutation_in _ (Permutation_sym Hp)); now left);
          [ assumption | ].
        assert (In x (y :: l2)) as [E | Hin']
            by (apply (Permutation_in _ Hp); now left);
          [ now symmetry | ].
        specialize (Hx y Hin). specialize (Hy x Hin'). lra. }
      f_equal. apply IH; try assumption.
      now apply Permutation_cons_inv with x.
Qed.

Lemma sort_permuted l1 l2 : Permutation l1 l2 -> sort l1 = sort l2.
Proof.
  intros Hp. apply sorted_unique; try apply sort_sorted.
  rewrite <- (sort_perm l1), <- (sort_perm l2). exact Hp.
Qed.

(** The median does not depend on the order of the values. *)
Lemma median_permuted l1 l2 : Permutation l1 l2 -> median l1 = median l2.
Proof. intros Hp. unfold median. now rewrite (sort_permuted l1 l2 Hp). Qed.

Lemma filter_disjoint_perm {A} (p q : A -> bool) (l : list A) :
  (forall x, p x = true -> q x = false) ->
  Permutation (filter p l ++ filter q l) (filter (fun x => p x || q x) l).
Proof.
  intros Hpq. induction l as [ | x l IH]; cbn; [ constructor | ].
  destruct (p x) eqn:Hp.
  - rewrite (Hpq x Hp). cbn. now constructor.
  - cbn. destruct (q x); [ | exact IH ].
    rewrite <- Permutation_middle. now constructor.
Qed.

Lemma values_permuted n (a b : ImageCollection) :
  Permutation a b -> Permutation (values n a) (values n b).
Proof. intros Hp. unfold values. now apply Permutation_flat_map. Qed.

(** *** The deviation detector *)

(** The observations of the three summers before the selected year. *)
Definition baseline (year_select : Z) (col : ImageCollection) : ImageCollection :=
  filter (fun img => in_window year_select (-1) img
                     || (in_window year_select (-2) img
                         || in_window year_select (-3) img)) col.

(** The valid ratios of band [n] of the observations [obs] to the same band
    of the image [P]. *)
Definition ratio_to (n : string) (P img : Image) : list R :=
  match band n img, band n P with
  | Some (Some x), Some (Some p) => [toR x / toR p]
  | _, _ => []
  end.

Definition ratios (n : string) (P : Image) (obs : ImageCollection) : list R :=
  flat_map (ratio_to n P) obs.

(** The lower of two values, either of which may be missing. *)
Definition lower (a b : option R) : option R :=
  match a, b with
  | Some x, Some y => Some (Rmin x y)
  | Some x, None => Some x
  | None, Some y => Some y
  | None, None => None
  end.

Definition clipped (inside : bool) (v : option R) : option R :=
  if inside then v else None.

Lemma windows_apart year_select (j k : Z) img :
  j <> k ->
  in_window year_select j img = true -> in_window year_select k img = false.
Proof.
  intros Hjk Hj. destruct (Z.lt_total j k) as [H | [H | H]].
  - now apply windows_disjoint with j.
  - contradiction.
  - destruct (in_window year_select k img) eqn:Hk; [ | reflexivity ].
    rewrite (windows_disjoint year_select k j img H Hk) in Hj. discriminate.
Qed.

(** Merging the three yearly collections gives the observations of the
    union of the three windows, each once. *)
Lemma baseline_merged year_select col :
  Permutation
    (merge (window year_select (-1) col)
           (merge (window year_select (-2) col) (window year_select (-3) col)))
    (baseline year_select col).
Proof.
  unfold merge, baseline. rewrite !window_filter.
  rewrite <- filter_disjoint_perm.
  - apply Permutation_app_head. apply filter_disjoint_perm.
    intros img. apply windows_apart. lia.
  - intros img H1.
    rewrite (windows_apart year_select (-1) (-2) img) by (lia || assumption).
    rewrite (windows_apart year_select (-1) (-3) img) by (lia || assumption).
    reflexivity.
Qed.

Lemma Forall_permuted {A} (P : A -> Prop) (a b : list A) :
  Permutation a b -> Forall P b -> Forall P a.
Proof.
  intros Hp Hb. rewrite Forall_forall in *. intros x Hx.
  apply Hb. now apply (Permutation_in _ Hp).
Qed.

Definition medians (obs : ImageCollection) : Image :=
  mkImage (map (fun n => (n, option_map Flt (median (values n obs)))) allVariables)
          None true.

Lemma PREmedian_value year_select archive col :
  lsCol archive = Some col ->
  baseline year_select col <> [] ->
  PREmedian year_select archive = Some (medians (baseline year_select col)).
Proof.
  intros Hcol Hne. unfold PREmedian, imgCol. rewrite Hcol. cbn [bind]. cbv zeta.
  pose proof (baseline_merged year_select col) as Hp.
  rewrite (reduce_homogeneous median _ allVariables).
  - unfold medians. do 2 f_equal. apply map_ext. intros n.
    do 2 f_equal. apply median_permuted. now apply values_permuted.
  - intros E. rewrite E in Hp. apply Permutation_nil in Hp. contradiction.
  - apply (Forall_permuted _ _ _ Hp). unfold baseline.
    apply Forall_filter. now apply lsCol_homogeneous with archive.
Qed.

(** Band-wise operations on two images with the same bands. *)
Lemma binary_same_bands f (a b : Image) :
  length (bands a) = length (bands b) -> (2 <= length (bands a))%nat ->
  binary f a b
  = Some (computed
            (map (fun pq => (fst (fst pq), f (snd (fst pq)) (snd (snd pq))))
                 (combine (bands a) (bands b))) a).
Proof.
  intros Hlen H2. unfold binary. rewrite Hlen, Nat.eqb_refl.
  destruct (bands a) as [ | [n1 p1] [ | [n2 p2] la]]; cbn in H2; try lia.
  destruct (bands b) as [ | [m1 q1] [ | [m2 q2] lb]]; cbn in Hlen; try lia.
  reflexivity.
Qed.

Lemma lookup_combined f n (a b : list (string * pixel)) :
  map fst a = map fst b ->
  lookup n (map (fun pq => (fst (fst pq), f (snd (fst pq)) (snd (snd pq))))
                (combine a b))
  = match lookup n a, lookup n b with
    | Some x, Some y => Some (f x y)
    | _, _ => None
    end.
Proof.
  revert b. induction a as [ | [k p] a IH]; intros [ | [k' q] b] H;
    cbn in H; try discriminate; [ reflexivity | ].
  inversion H; subst k'. cbn.
  destruct (String.eqb k n); [ reflexivity | now apply IH ].
Qed.

Lemma names_combined (f : pixel -> pixel -> pixel) (a b : list (string * pixel)) :
  length a = length b ->
  map fst (map (fun pq => (fst (fst pq), f (snd (fst pq)) (snd (snd pq))))
               (combine a b))
  = map fst a.
Proof.
  revert b. induction a as [ | [k p] a IH]; intros [ | [k' q] b] H;
    cbn in H; try discriminate; [ reflexivity | ].
  cbn. f_equal. apply IH. now inversion H.
Qed.

(** One image of the deviation series: [IMG op P], with the time stamp of
    [IMG]. *)
Definition deviated (op : pixel -> pixel -> pixel) (P IMG : Image) : Image :=
  copyProperties
    (computed
       (map (fun pq => (fst (fst pq), op (snd (fst pq)) (snd (snd pq))))
            (combine (bands IMG) (bands P))) IMG)
    IMG.

Lemma deviated_time op P IMG : time_start (deviated op P IMG) = time_start IMG.
Proof. unfold deviated, copyProperties. cbn. now destruct (time_start IMG). Qed.

Lemma deviated_in_window op P year_select k IMG :
  in_window year_select k (deviated op P IMG) = in_window year_select k IMG.
Proof. unfold in_window, in_range. now rewrite deviated_time. Qed.

Lemma deviated_bandNames op P IMG :
  bandNames IMG = bandNames P -> bandNames (deviated op P IMG) = bandNames IMG.
Proof.
  intros H. unfold bandNames, deviated. cbn [bands copyProperties computed].
  apply names_combined. unfold bandNames in H.
  now rewrite <- (length_map fst (bands IMG)), H, length_map.
Qed.

Lemma deviated_band op P IMG n :
  bandNames IMG = bandNames P ->
  band n (deviated op P IMG)
  = match band n IMG, band n P with
    | Some x, Some y => Some (op x y)
    | _, _ => None
    end.
Proof. intros H. unfold band, deviated. cbn [bands copyProperties computed].
  now apply lookup_combined. Qed.

Lemma mapCol_total (g : Image -> option Image) (g' : Image -> Image) col :
  (forall img, In img col -> g img = Some (g' img)) ->
  mapCol g col = Some (map g' col).
Proof.
  induction col as [ | img col IH]; intros H; [ reflexivity | ].
  cbn [mapCol map]. rewrite (H img) by now left. cbn [bind].
  rewrite IH; [ reflexivity | ]. intros x Hx. apply H. now right.
Qed.

Lemma filter_mapped {A B} (p : B -> bool) (g : A -> B) (l : list A) :
  filter p (map g l) = map g (filter (fun x => p (g x)) l).
Proof.
  induction l as [ | x l IH]; cbn; [ reflexivity | ].
  destruct (p (g x)); cbn; now rewrite IH.
Qed.

Lemma medians_bandNames obs : bandNames (medians obs) = allVariables.
Proof. unfold bandNames, medians. cbn [bands]. rewrite map_map. apply map_id. Qed.

(** The deviation series of a run: every observation, combined with the
    baseline median. *)
Lemma deviation_value op year_select archive col :
  lsCol archive = Some col ->
  baseline year_select col <> [] ->
  deviation year_select archive op
  = Some (map (deviated op (medians (baseline year_select col))) col).
Proof.
  intros Hcol Hne. unfold deviation, imgCol. rewrite Hcol. cbn [bind].
  rewrite (PREmedian_value _ _ _ Hcol Hne). cbn [bind].
  apply mapCol_total. intros img Hin.
  pose proof (lsCol_bandNames _ _ _ Hcol Hin) as Hn.
  rewrite binary_same_bands; [ reflexivity | | ].
  - rewrite <- (length_map fst (bands img)), <- (length_map fst (bands (medians _))).
    fold (bandNames img). fold (bandNames (medians (baseline year_select col))).
    now rewrite Hn, medians_bandNames.
  - rewrite <- (length_map fst (bands img)). fold (bandNames img). rewrite Hn.
    cbn. lia.
Qed.

Lemma window_deviated op P year_select k col :
  window year_select k (map (deviated op P) col)
  = map (deviated op P) (window year_select k col).
Proof.
  rewrite !window_filter, filter_mapped. f_equal.
  apply filter_ext. intros img. apply deviated_in_window.
Qed.

Lemma values_ratios n P obs :
  Forall (fun img => bandNames img = bandNames P) obs ->
  values n (map (deviated (pmap2 ndiv) P) obs) = ratios n P obs.
Proof.
  intros Hall. unfold values, ratios. rewrite flat_map_concat_map, map_map.
  rewrite flat_map_concat_map. f_equal. apply map_ext_in. intros img Hin.
  rewrite Forall_forall in Hall.
  unfold valid, ratio_to. rewrite deviated_band by now apply Hall.
  destruct (band n img) as [[x | ] | ], (band n P) as [[p | ] | ]; reflexivity.
Qed.

(** An image with the 15 index bands, band [n] holding [f n]. *)
Definition keyed (f : string -> pixel) : Image :=
  mkImage (map (fun n => (n, f n)) allVariables) None true.

Lemma keyed_bandNames f : bandNames (keyed f) = allVariables.
Proof. unfold bandNames, keyed. cbn [bands]. rewrite map_map. apply map_id. Qed.

Lemma keyed_band f n : In n allVariables -> band n (keyed f) = Some (f n).
Proof. intros H. now apply band_reduced. Qed.

Lemma keyed_ext f g :
  (forall n, In n allVariables -> f n = g n) -> keyed f = keyed g.
Proof.
  intros H. unfold keyed. f_equal. apply map_ext_in. intros n Hn.
  now rewrite H.
Qed.

Lemma clip_keyed inside f : clip inside (keyed f) = keyed (fun n => pclip inside (f n)).
Proof. unfold clip, keyed, withBands. cbn [bands time_start in_bounds].
  now rewrite map_map. Qed.

Lemma reduce_keyed (r : Reducer) (col : ImageCollection) :
  col <> [] ->
  Forall (fun img => bandNames img = allVariables) col ->
  reduce r col = Some (keyed (fun n => option_map Flt (r (values n col)))).
Proof. intros Hne Hall. now apply reduce_homogeneous. Qed.

Definition data (p : pixel) : list R :=
  match p with Some v => [toR v] | None => [] end.

Lemma valid_keyed f n : In n allVariables -> valid n (keyed f) = data (f n).
Proof. intros H. unfold valid. rewrite keyed_band by assumption. reflexivity. Qed.

Lemma min_of_two (a b : option R) :
  min (data (option_map Flt a) ++ data (option_map Flt b) ++ []) = lower a b.
Proof. destruct a, b; reflexivity. Qed.

(** The lower of two composites, band by band. *)
Lemma lowest_keyed (a b : string -> option R) :
  lowest (keyed (fun n => option_map Flt (a n))) (keyed (fun n => option_map Flt (b n)))
  = Some (keyed (fun n => option_map Flt (lower (a n) (b n)))).
Proof.
  unfold lowest. rewrite reduce_keyed.
  - f_equal. apply keyed_ext. intros n Hn. f_equal.
    unfold values. cbn [flat_map]. rewrite !valid_keyed by assumption.
    apply min_of_two.
  - discriminate.
  - repeat constructor; apply keyed_bandNames.
Qed.

Lemma pclip_clipped inside (v : option R) :
  pclip inside (option_map Flt v) = option_map Flt (clipped inside v).
Proof. now destruct inside. Qed.

(** Reducing one evaluation window of the ratio series. *)
Lemma window_of_ratios (r : Reducer) year_select k col P :
  Forall (fun img => bandNames img = allVariables) col ->
  bandNames P = allVariables ->
  window year_select k col <> [] ->
  reduce r (window year_select k (map (deviated (pmap2 ndiv) P) col))
  = Some (keyed (fun n =>
                   option_map Flt (r (ratios n P (window year_select k col))))).
Proof.
  intros Hall HP Hne. rewrite window_deviated.
  assert (Hw : Forall (fun img => bandNames img = bandNames P)
                      (window year_select k col)).
  { rewrite HP, window_filter. now apply Forall_filter. }
  rewrite reduce_keyed.
  - f_equal. apply keyed_ext. intros n _. now rewrite values_ratios.
  - destruct (window year_select k col); [ contradiction | discriminate ].
  - apply Forall_forall. intros img Hin. apply in_map_iff in Hin.
    destruct Hin as (src & <- & Hsrc).
    rewrite Forall_forall in Hw.
    rewrite deviated_bandNames by now apply Hw.
    rewrite (Hw src Hsrc). exact HP.
Qed.

(** C7: [PREmedian] is the band-wise median over the observations of the
    union of the three summer windows (15 June to 1 September) of the
    years before the selected one, each observation counted once; [divCol]
    is, band by band, the lower of two rasters, one per evaluation window
    (the year after and the selected year), each the median over the window
    of the observations divided by [PREmedian] (inside the region).  This
    is for a run with observations in the baseline and in both windows. *)
Theorem C7_baseline_median_and_ratio_deviation
    (year_select : Z) (archive : Archive) (ROI : Geometry)
    (col : ImageCollection) (n : string)
    (Hcol : lsCol archive = Some col) (Hn : In n allVariables)
    (Hbase : baseline year_select col <> [])
    (HA : window year_select 1 col <> [])
    (HB : window year_select 0 col <> []) :
  exists P D,
    PREmedian year_select archive = Some P /\
    band n P
    = Some (option_map Flt (median (values n (baseline year_select col)))) /\
    (forall img, In img (baseline year_select col) <->
                 In img col /\
                 (in_window year_select (-1) img = true \/
                  in_window year_select (-2) img = true \/
                  in_window year_select (-3) img = true)) /\
    divCol year_select archive ROI = Some D /\
    band n D
    = Some (option_map Flt
              (lower
                 (clipped (contains_pixel ROI)
                    (median (ratios n P (window year_select 1 col))))
                 (clipped (contains_pixel ROI)
                    (median (ratios n P (window year_select 0 col)))))).
Proof.
  pose proof (lsCol_homogeneous _ _ Hcol) as Hall.
  set (P := medians (baseline year_select col)).
  exists P.
  eexists. split; [ now apply PREmedian_value | ].
  split.
  { exact (keyed_band
             (fun k => option_map Flt (median (values k (baseline year_select col))))
             n Hn). }
  split.
  { intros img. unfold baseline. rewrite filter_In, !orb_true_iff. tauto. }
  unfold divCol, TSdevDiv.
  rewrite (deviation_value _ _ _ _ Hcol Hbase). cbn [bind]. fold P.
  rewrite !(window_of_ratios median) by (assumption || apply medians_bandNames).
  cbn [bind]. rewrite !clip_keyed.
  rewrite (keyed_ext _ (fun k => option_map Flt
             (clipped (contains_pixel ROI)
                (median (ratios k P (window year_select 1 col))))))
    by (intros; apply pclip_clipped).
  rewrite (keyed_ext (fun k => pclip _ (option_map Flt (median (ratios k P
                        (window year_select 0 col)))))
             (fun k => option_map Flt
             (clipped (contains_pixel ROI)
                (median (ratios k P (window year_select 0 col))))))
    by (intros; apply pclip_clipped).
  rewrite lowest_keyed. split; [ reflexivity | ].
  exact (keyed_band
           (fun k => option_map Flt
              (lower
                 (clipped (contains_pixel ROI)
                    (median (ratios k P (window year_select 1 col))))
                 (clipped (contains_pixel ROI)
                    (median (ratios k P (window year_select 0 col))))))
           n Hn).
Qed.

Lemma C7_baseline_median_and_ratio_deviation_witness :
  exists col P D,
    lsCol sample_run_archive = Some col /\
    PREmedian 2022 sample_run_archive = Some P /\
    band "nbr2" P = Some (option_map Flt (median (values "nbr2" (baseline 2022 col)))) /\
    divCol 2022 sample_run_archive sample_ROI = Some D /\
    band "nbr2" D
    = Some (option_map Flt
              (lower (median (ratios "nbr2" P (window 2022 1 col)))
                     (median (ratios "nbr2" P (window 2022 0 col))))).
Proof.
  assert (exists col, lsCol sample_run_archive = Some col /\
                      baseline 2022 col <> [] /\
                      window 2022 1 col <> [] /\
                      window 2022 0 col <> [])
    as (col & Hcol & Hbase & HA & HB).
  { eexists. split; [ vm_compute; reflexivity | ].
    repeat split; vm_compute; intros H; discriminate H. }
  assert (Hin : In "nbr2" allVariables) by (right; left; reflexivity).
  destruct (C7_baseline_median_and_ratio_deviation 2022 sample_run_archive
              sample_ROI col "nbr2" Hcol Hin Hbase HA HB)
    as (P & D & HP & HbP & _ & HD & HbD).
  exists col, P, D. repeat split; assumption.
Defined.


(* ================================================================== *)
(** ** More properties of the script *)
(* ================================================================== *)

(** *** The harmonizer *)

(** The surface reflectance of a stored digital number. *)
Definition reflectance (dn : pixel) : pixel :=
  pmap ntoFloat (dn * flt scale + flt offset)%px.

Lemma reflectance_value (d : Z) :
  reflectance (int d) = flt (IZR d * 0.0000275 + -0.2).
Proof. reflexivity. Qed.

Lemma copied_time (bs : list (string * pixel)) ib (src : Image) :
  time_start (copyProperties (mkImage bs None ib) src) = time_start src.
Proof. unfold copyProperties. cbn. now destruct (time_start src). Qed.

Lemma copyProperties_same_time (img src : Image) :
  time_start img = time_start src -> copyProperties img src = img.
Proof.
  destruct img as [bs t ib]. cbn. intros ->. unfold copyProperties. cbn.
  now destruct (time_start src).
Qed.

(** Rescaling then renaming a Landsat 8/9 image. *)
Lemma ls89_chain (raw : Image) (b2 b3 b4 b5 b6 b7 qa : pixel)
    (H2 : band "SR_B2" raw = Some b2) (H3 : band "SR_B3" raw = Some b3)
    (H4 : band "SR_B4" raw = Some b4) (H5 : band "SR_B5" raw = Some b5)
    (H6 : band "SR_B6" raw = Some b6) (H7 : band "SR_B7" raw = Some b7)
    (Hqa : band "QA_PIXEL" raw = Some qa) :
  (c <- convertBandsls89 raw ;; ls89Rename c)
  = Some (mkImage
            [("blue", reflectance b2); ("green", reflectance b3);
             ("red", reflectance b4); ("nir", reflectance b5);
             ("sswir", reflectance b6); ("lswir", reflectance b7);
             ("qa_pixel", qa)]
            (time_start raw) (in_bounds raw)).
Proof.
  unfold band in *. unfold convertBandsls89, select. cbn [selectBands].
  rewrite H2, H3, H4, H5, H6, H7, Hqa. cbn [bind].
  unfold ls89Rename, select, copyProperties, addBands, mapBands, computed,
    withBands, rename.
  cbn. now destruct (time_start raw).
Qed.

(** Rescaling then renaming a Landsat 4/5/7 image. *)
Lemma ls457_chain (raw : Image) (b1 b2 b3 b4 b5 b7 qa : pixel)
    (H1 : band "SR_B1" raw = Some b1) (H2 : band "SR_B2" raw = Some b2)
    (H3 : band "SR_B3" raw = Some b3) (H4 : band "SR_B4" raw = Some b4)
    (H5 : band "SR_B5" raw = Some b5) (H7 : band "SR_B7" raw = Some b7)
    (Hqa : band "QA_PIXEL" raw = Some qa) :
  (c <- convertBandsls457 raw ;; ls457Rename c)
  = Some (mkImage
            [("blue", reflectance b1); ("green", reflectance b2);
             ("red", reflectance b3); ("nir", reflectance b4);
             ("sswir", reflectance b5); ("lswir", reflectance b7);
             ("qa_pixel", qa)]
            (time_start raw) (in_bounds raw)).
Proof.
  unfold band in *. unfold convertBandsls457, select. cbn [selectBands].
  rewrite H1, H2, H3, H4, H5, H7, Hqa. cbn [bind].
  unfold ls457Rename, select, copyProperties, addBands, mapBands, computed,
    withBands, rename.
  cbn. now destruct (time_start raw).
Qed.

(** X1: for a Landsat 8/9 image that has the bands SR_B2 .. SR_B7 and
    QA_PIXEL, rescaling then renaming gives the seven canonical bands in
    order: blue, green, red, nir, sswir, lswir are the reflectances of
    SR_B2, SR_B3, SR_B4, SR_B5, SR_B6, SR_B7, the quality band passes through
    unscaled, other bands are dropped and the time stamp is kept.  The reflectance
    of the digital number [d] is [d * 0.0000275 - 0.2], and no data stays no
    data. *)
Theorem ls89_harmonized (raw : Image) (b2 b3 b4 b5 b6 b7 qa : pixel)
    (H2 : band "SR_B2" raw = Some b2) (H3 : band "SR_B3" raw = Some b3)
    (H4 : band "SR_B4" raw = Some b4) (H5 : band "SR_B5" raw = Some b5)
    (H6 : band "SR_B6" raw = Some b6) (H7 : band "SR_B7" raw = Some b7)
    (Hqa : band "QA_PIXEL" raw = Some qa) :
  (c <- convertBandsls89 raw ;; ls89Rename c)
  = Some (mkImage
            [("blue", reflectance b2); ("green", reflectance b3);
             ("red", reflectance b4); ("nir", reflectance b5);
             ("sswir", reflectance b6); ("lswir", reflectance b7);
             ("qa_pixel", qa)]
            (time_start raw) (in_bounds raw)) /\
  (forall d : Z, reflectance (int d) = flt (IZR d * 0.0000275 - 0.2)) /\
  reflectance None = None.
Proof.
  split; [ now apply ls89_chain | ].
  split; [ | reflexivity ].
  intros d. rewrite reflectance_value. unfold flt. do 2 f_equal. lra.
Qed.

(** X2: the same for a Landsat 4/5/7 image, whose blue .. lswir are
    SR_B1, SR_B2, SR_B3, SR_B4, SR_B5, SR_B7; the harmonized image has no
    band beyond the seven canonical ones (the thermal band is dropped). *)
Theorem ls457_harmonized (raw : Image) (b1 b2 b3 b4 b5 b7 qa : pixel)
    (H1 : band "SR_B1" raw = Some b1) (H2 : band "SR_B2" raw = Some b2)
    (H3 : band "SR_B3" raw = Some b3) (H4 : band "SR_B4" raw = Some b4)
    (H5 : band "SR_B5" raw = Some b5) (H7 : band "SR_B7" raw = Some b7)
    (Hqa : band "QA_PIXEL" raw = Some qa) :
  (c <- convertBandsls457 raw ;; ls457Rename c)
  = Some (mkImage
            [("blue", reflectance b1); ("green", reflectance b2);
             ("red", reflectance b3); ("nir", reflectance b4);
             ("sswir", reflectance b5); ("lswir", reflectance b7);
             ("qa_pixel", qa)]
            (time_start raw) (in_bounds raw)) /\
  (forall other : string,
     ~ In other ["blue"; "green"; "red"; "nir"; "sswir"; "lswir"; "qa_pixel"] ->
     (h <- (c <- convertBandsls457 raw ;; ls457Rename c) ;; band other h) = None).
Proof.
  split; [ now apply ls457_chain | ].
  intros other Hother.
  rewrite (ls457_chain raw b1 b2 b3 b4 b5 b7 qa H1 H2 H3 H4 H5 H7 Hqa).
  cbn [bind]. unfold band. cbn [bands]. apply lookup_not_named. exact Hother.
Qed.

Lemma ls89_harmonized_witness :
  (c <- convertBandsls89 sample_LC08 ;; ls89Rename c)
  = Some (mkImage
            [("blue", flt (8200 * 0.0000275 + -0.2));
             ("green", flt (9000 * 0.0000275 + -0.2));
             ("red", flt (9500 * 0.0000275 + -0.2));
             ("nir", flt (15000 * 0.0000275 + -0.2));
             ("sswir", flt (12000 * 0.0000275 + -0.2));
             ("lswir", flt (10000 * 0.0000275 + -0.2));
             ("qa_pixel", int 21824)]
            (Some 1658000000000%Z) true).
Proof.
  exact (proj1 (ls89_harmonized sample_LC08 _ _ _ _ _ _ _
                  eq_refl eq_refl eq_refl eq_refl eq_refl eq_refl eq_refl)).
Defined.

(** A Landsat 5 observation, as stored in the archive. *)
Definition sample_LT05 : Image :=
  mkImage [("SR_B1", int 8200); ("SR_B2", int 9000); ("SR_B3", int 9500);
           ("SR_B4", int 15000); ("SR_B5", int 12000); ("SR_B7", int 10000);
           ("ST_B6", int 40000); ("QA_PIXEL", int 5440)]
          (Some 650000000000%Z) true.

Lemma ls457_harmonized_witness :
  (c <- convertBandsls457 sample_LT05 ;; ls457Rename c)
  = Some (mkImage
            [("blue", flt (8200 * 0.0000275 + -0.2));
             ("green", flt (9000 * 0.0000275 + -0.2));
             ("red", flt (9500 * 0.0000275 + -0.2));
             ("nir", flt (15000 * 0.0000275 + -0.2));
             ("sswir", flt (12000 * 0.0000275 + -0.2));
             ("lswir", flt (10000 * 0.0000275 + -0.2));
             ("qa_pixel", int 5440)]
            (Some 650000000000%Z) true).
Proof.
  exact (proj1 (ls457_harmonized sample_LT05 _ _ _ _ _ _ _
                  eq_refl eq_refl eq_refl eq_refl eq_refl eq_refl eq_refl)).
Defined.

Lemma selectBands_needs names bs out :
  selectBands names bs = Some out ->
  forall n, In n names -> exists p, lookup n bs = Some p.
Proof.
  revert out. induction names as [ | k names IH]; intros out H n Hn;
    [ destruct Hn | ].
  cbn [selectBands] in H. bind_inv H. bind_inv H.
  destruct Hn as [<- | Hn]; [ eexists; eassumption | now apply (IH _ eq_refl) ].
Qed.

Lemma select_needs names img out :
  select names img = Some out ->
  forall n, In n names -> exists p, band n img = Some p.
Proof.
  unfold select. intros H. bind_inv H. now apply selectBands_needs with l.
Qed.

Ltac pick_bands H :=
  repeat match goal with
         | |- context [band ?n ?img] =>
             let p := fresh "p" in
             let E := fresh "E" in
             destruct (H n) as (p & E);
             [ cbv; repeat (first [ left; reflexivity | right ]) | ];
             rewrite E; cbn [bind]
         end.

(** X3: either harmonizer chain succeeds exactly on the images that have
    the seven bands of its sensor family; a missing band is an error, not a
    masked pixel. *)
Theorem harmonizer_succeeds_iff_bands (raw : Image) :
  ((exists out, (c <- convertBandsls89 raw ;; ls89Rename c) = Some out) <->
   (forall n, In n ["SR_B2"; "SR_B3"; "SR_B4"; "SR_B5"; "SR_B6"; "SR_B7";
                    "QA_PIXEL"] ->
              exists p, band n raw = Some p)) /\
  ((exists out, (c <- convertBandsls457 raw ;; ls457Rename c) = Some out) <->
   (forall n, In n ["SR_B1"; "SR_B2"; "SR_B3"; "SR_B4"; "SR_B5"; "SR_B7";
                    "QA_PIXEL"] ->
              exists p, band n raw = Some p)).
Proof.
  split; split.
  - intros (out & H). bind_inv H. clear H.
    unfold convertBandsls89 in E. do 2 bind_inv E.
    intros n Hn. cbn in Hn.
    destruct Hn as [<- | [<- | [<- | [<- | [<- | [<- | [<- | []]]]]]]];
      first [ apply (select_needs _ _ _ E1); cbv; tauto
            | apply (select_needs _ _ _ E0); cbv; tauto ].
  - intros H.
    destruct (H "SR_B2") as (b2 & H2); [ cbv; tauto | ].
    destruct (H "SR_B3") as (b3 & H3); [ cbv; tauto | ].
    destruct (H "SR_B4") as (b4 & H4); [ cbv; tauto | ].
    destruct (H "SR_B5") as (b5 & H5); [ cbv; tauto | ].
    destruct (H "SR_B6") as (b6 & H6); [ cbv; tauto | ].
    destruct (H "SR_B7") as (b7 & H7); [ cbv; tauto | ].
    destruct (H "QA_PIXEL") as (qa & Hqa); [ cbv; tauto | ].
    eexists. exact (ls89_chain raw b2 b3 b4 b5 b6 b7 qa H2 H3 H4 H5 H6 H7 Hqa).
  - intros (out & H). bind_inv H. clear H.
    unfold convertBandsls457 in E. do 2 bind_inv E.
    intros n Hn. cbn in Hn.
    destruct Hn as [<- | [<- | [<- | [<- | [<- | [<- | [<- | []]]]]]]];
      first [ apply (select_needs _ _ _ E1); cbv; tauto
            | apply (select_needs _ _ _ E0); cbv; tauto ].
  - intros H.
    destruct (H "SR_B1") as (b1 & H1); [ cbv; tauto | ].
    destruct (H "SR_B2") as (b2 & H2); [ cbv; tauto | ].
    destruct (H "SR_B3") as (b3 & H3); [ cbv; tauto | ].
    destruct (H "SR_B4") as (b4 & H4); [ cbv; tauto | ].
    destruct (H "SR_B5") as (b5 & H5); [ cbv; tauto | ].
    destruct (H "SR_B7") as (b7 & H7); [ cbv; tauto | ].
    destruct (H "QA_PIXEL") as (qa & Hqa); [ cbv; tauto | ].
    eexists. exact (ls457_chain raw b1 b2 b3 b4 b5 b7 qa H1 H2 H3 H4 H5 H7 Hqa).
Qed.

(** *** The Index Engine *)

(** X4: [Indices] succeeds exactly on the images that have the seven
    canonical bands. *)
Theorem Indices_succeeds_iff_canonical (img : Image) :
  (exists out, Indices img = Some out) <->
  (forall n, In n ["blue"; "green"; "red"; "nir"; "sswir"; "lswir"; "qa_pixel"] ->
             exists p, band n img = Some p).
Proof.
  split.
  - intros (out & H). unfold Indices in H. repeat bind_inv H. clear H.
    match goal with
    | E : getTCB img = Some _ |- _ => unfold getTCB in E; repeat bind_inv E
    end.
    intros n Hn. cbn in Hn.
    destruct Hn as [<- | [<- | [<- | [<- | [<- | [<- | [<- | []]]]]]]];
      try (eexists; eassumption).
    match goal with
    | E : select ["qa_pixel"] img = Some _ |- _ =>
        apply (select_needs _ _ _ E); now left
    end.
  - intros H. unfold Indices, index, normalizedDifference, getEVI, getMIRBI,
      getBAI, getBAIMs, getCSI, getBSI, getMSAVI, getTCB, getTCG, getTCW.
    pick_bands H.
    destruct (H "qa_pixel") as (qa & Hqa); [ cbv; tauto | ].
    unfold select. cbn [selectBands]. unfold band in Hqa. rewrite Hqa.
    cbn [bind]. eexists. reflexivity.
Qed.

(** *** The harmonized collection *)

(** A step keeps the time stamp and the footprint flag of its input. *)
Definition keeps_properties (f : Image -> option Image) : Prop :=
  forall img out, f img = Some out ->
                  time_start out = time_start img /\ in_bounds out = in_bounds img.

Lemma convertBandsls89_keeps : keeps_properties convertBandsls89.
Proof.
  intros img out H. unfold convertBandsls89 in H. do 2 bind_inv H.
  inversion H; subst; clear H.
  unfold select in E0. bind_inv E0. inversion E0; subst; clear E0.
  unfold copyProperties. cbn. split; [ now destruct (time_start img) | reflexivity ].
Qed.

Lemma convertBandsls457_keeps : keeps_properties convertBandsls457.
Proof.
  intros img out H. unfold convertBandsls457 in H. do 2 bind_inv H.
  inversion H; subst; clear H.
  unfold select in E0. bind_inv E0. inversion E0; subst; clear E0.
  unfold copyProperties. cbn. split; [ now destruct (time_start img) | reflexivity ].
Qed.

Lemma renamed_keeps names names' img out :
  (sub0 <- select names img ;;
   sub <- rename names' sub0 ;;
   Some (copyProperties sub img)) = Some out ->
  time_start out = time_start img /\ in_bounds out = in_bounds img.
Proof.
  intros H. do 2 bind_inv H. inversion H; subst; clear H.
  unfold select in E. bind_inv E. inversion E; subst; clear E.
  unfold rename in E0. cbn [bands withBands] in E0.
  destruct (Nat.eqb _ _); [ | discriminate ].
  inversion E0; subst; clear E0.
  unfold copyProperties. cbn. split; [ now destruct (time_start img) | reflexivity ].
Qed.

Lemma ls89Rename_keeps : keeps_properties ls89Rename.
Proof. intros img out. apply renamed_keeps. Qed.

Lemma ls457Rename_keeps : keeps_properties ls457Rename.
Proof. intros img out. apply renamed_keeps. Qed.

Lemma Indices_keeps : keeps_properties Indices.
Proof.
  intros img out H. unfold Indices in H. bind_inv H.
  destruct (index_shape _ _ _ _ _ E) as (nbr & ->).
  repeat bind_inv H. inversion H; subst; clear H.
  unfold copyProperties. cbn. split; [ now destruct (time_start img) | reflexivity ].
Qed.

Lemma lsMaskNew_keeps : keeps_properties lsMaskNew.
Proof.
  intros img out H. unfold lsMaskNew in H. do 2 bind_inv H.
  inversion H; subst; clear H.
  unfold select in E0. bind_inv E0. inversion E0; subst; clear E0.
  unfold copyProperties. cbn. split; [ now destruct (time_start img) | reflexivity ].
Qed.

Lemma SLC_lsMask_keeps : keeps_properties SLC_lsMask.
Proof. intros img out. rewrite SLC_lsMask_is_lsMaskNew. apply lsMaskNew_keeps. Qed.

Lemma process_provenance convert rename_ mask raw col o :
  keeps_properties convert -> keeps_properties rename_ -> keeps_properties mask ->
  process convert rename_ mask raw = Some col -> In o col ->
  exists r, In r raw /\ time_start o = time_start r /\ in_bounds o = in_bounds r.
Proof.
  intros Kc Kr Km H Ho. unfold process in H. repeat bind_inv H.
  destruct (mapCol_In _ _ _ _ H Ho) as (x3 & H3 & F3).
  destruct (mapCol_In _ _ _ _ E1 H3) as (x2 & H2 & F2).
  destruct (mapCol_In _ _ _ _ E0 H2) as (x1 & H1 & F1).
  destruct (mapCol_In _ _ _ _ E H1) as (r & Hr & F0).
  exists r. split; [ assumption | ].
  destruct (Km _ _ F3) as [T3 B3], (Indices_keeps _ _ F2) as [T2 B2],
           (Kr _ _ F1) as [T1 B1], (Kc _ _ F0) as [T0 B0].
  split; congruence.
Qed.

(** X5: every observation of the harmonized collection carries the time
    stamp of an archive image whose footprint meets the region: the chain
    of [map]s loses no ['system:time_start'], which the date filters of the
    compositor and of the deviation detector rely on. *)
Theorem lsCol_keeps_time_stamps (archive : Archive) (col : ImageCollection)
    (o : Image) (Hcol : lsCol archive = Some col) (Ho : In o col) :
  exists raw,
    In raw (LC09 archive ++ LC08 archive ++ LE07 archive
            ++ LT05 archive ++ LT04 archive) /\
    in_bounds raw = true /\
    time_start o = time_start raw.
Proof.
  unfold lsCol, merge in Hcol. repeat bind_inv Hcol.
  inversion Hcol; subst; clear Hcol.
  assert (Hsub : forall (p : Image -> bool) l r,
             In r (filterBounds (filter p l)) \/ In r (filterBounds l) ->
             In r l /\ in_bounds r = true).
  { intros p l r [H | H]; unfold filterBounds in H;
      apply filter_In in H; destruct H as [H Hb]; [ | now split ].
    apply filter_In in H. now split. }
  assert (Hnew : forall convert rename_ raw c,
             keeps_properties convert -> keeps_properties rename_ ->
             process convert rename_ lsMaskNew raw = Some c -> In o c ->
             exists r, In r raw /\ time_start o = time_start r).
  { intros convert rename_ raw c Kc Kr Epr Hin.
    destruct (process_provenance _ _ _ _ _ _ Kc Kr lsMaskNew_keeps Epr Hin)
      as (r & Hr & Ht & _). now exists r. }
  assert (Hslc : forall convert rename_ raw c,
             keeps_properties convert -> keeps_properties rename_ ->
             process convert rename_ SLC_lsMask raw = Some c -> In o c ->
             exists r, In r raw /\ time_start o = time_start r).
  { intros convert rename_ raw c Kc Kr Epr Hin.
    destruct (process_provenance _ _ _ _ _ _ Kc Kr SLC_lsMask_keeps Epr Hin)
      as (r & Hr & Ht & _). now exists r. }
  repeat (apply in_app_or in Ho; destruct Ho as [Ho | Ho]).
  - destruct (Hnew _ _ _ _ convertBandsls89_keeps ls89Rename_keeps E Ho)
      as (r & Hr & Ht).
    destruct (Hsub (fun _ => true) _ r (or_intror Hr)) as [Hin Hb].
    exists r. rewrite !in_app_iff. tauto.
  - destruct (Hnew _ _ _ _ convertBandsls89_keeps ls89Rename_keeps E0 Ho)
      as (r & Hr & Ht).
    destruct (Hsub (fun _ => true) _ r (or_intror Hr)) as [Hin Hb].
    exists r. rewrite !in_app_iff. tauto.
  - destruct (Hslc _ _ _ _ convertBandsls457_keeps ls457Rename_keeps E2 Ho)
      as (r & Hr & Ht).
    destruct (Hsub _ _ r (or_introl Hr)) as [Hin Hb].
    exists r. rewrite !in_app_iff. tauto.
  - destruct (Hnew _ _ _ _ convertBandsls457_keeps ls457Rename_keeps E1 Ho)
      as (r & Hr & Ht).
    destruct (Hsub _ _ r (or_introl Hr)) as [Hin Hb].
    exists r. rewrite !in_app_iff. tauto.
  - destruct (Hnew _ _ _ _ convertBandsls457_keeps ls457Rename_keeps E3 Ho)
      as (r & Hr & Ht).
    destruct (Hsub (fun _ => true) _ r (or_intror Hr)) as [Hin Hb].
    exists r. rewrite !in_app_iff. tauto.
  - destruct (Hnew _ _ _ _ convertBandsls457_keeps ls457Rename_keeps E4 Ho)
      as (r & Hr & Ht).
    destruct (Hsub (fun _ => true) _ r (or_intror Hr)) as [Hin Hb].
    exists r. rewrite !in_app_iff. tauto.
Qed.

Lemma lsCol_keeps_time_stamps_witness :
  exists o,
    lsCol sample_archive = Some [o] /\
    time_start o = Some 1658000000000%Z.
Proof.
  assert (exists o, lsCol sample_archive = Some [o]) as (o & Ho).
  { eexists. vm_compute. reflexivity. }
  destruct (lsCol_keeps_time_stamps sample_archive [o] o Ho (or_introl eq_refl))
    as (raw & Hraw & _ & Ht).
  exists o. split; [ exact Ho | ].
  cbn in Hraw. destruct Hraw as [<- | []]. exact Ht.
Defined.

Lemma mapCol_length f col out :
  mapCol f col = Some out -> length out = length col.
Proof.
  revert out. induction col as [ | img col IH]; intros out H; cbn in H.
  - now inversion H.
  - do 2 bind_inv H. inversion H; subst. cbn. f_equal. now apply IH.
Qed.

Lemma process_length convert rename_ mask raw col :
  process convert rename_ mask raw = Some col -> length col = length raw.
Proof.
  unfold process. intros H. repeat bind_inv H.
  apply mapCol_length in H, E1, E0, E. congruence.
Qed.

Lemma range_split (a b c : Date) (img : Image) :
  (millis a <= millis b <= millis c)%Z ->
  in_range a c img = xorb (in_range a b img) (in_range b c img) /\
  (in_range a b img = true -> in_range b c img = false).
Proof.
  intros Habc. unfold in_range.
  destruct (time_start img) as [t | ]; [ | split; [ reflexivity | discriminate ] ].
  destruct (Z.leb_spec (millis a) t), (Z.ltb_spec t (millis b)),
           (Z.leb_spec (millis b) t), (Z.ltb_spec t (millis c));
    cbn; split; try reflexivity; try discriminate; lia.
Qed.

(** Two date ranges that share an end point split the range they span. *)
Lemma adjacent_ranges (a b c : Date) (l : ImageCollection) :
  (millis a <= millis b <= millis c)%Z ->
  (length (filterDate a b l) + length (filterDate b c l))%nat
  = length (filterDate a c l).
Proof.
  intros Habc. unfold filterDate.
  induction l as [ | img l IH]; [ reflexivity | ].
  cbn [filter]. destruct (range_split a b c img Habc) as [-> Hex].
  destruct (in_range a b img); [ rewrite (Hex eq_refl) | ];
    [ | destruct (in_range b c img) ]; cbn [xorb length]; lia.
Qed.

Lemma filter_commutes {A} (p q : A -> bool) (l : list A) :
  filter p (filter q l) = filter q (filter p l).
Proof.
  induction l as [ | x l IH]; [ reflexivity | ].
  cbn [filter]. destruct (q x) eqn:Hq, (p x) eqn:Hp; cbn [filter];
    rewrite ?Hq, ?Hp, ?IH; reflexivity.
Qed.

(** X6: the harmonized collection has one observation per archive image
    whose footprint meets the region, nothing is merged or deduplicated;
    the two Landsat 7 sub-periods split at 2003-06-01 cover the dates from
    1999-01-01 to 2033-01-01 without overlap, so a Landsat 7 image in that
    range is processed once and one outside it is left out. *)
Theorem lsCol_size (archive : Archive) (col : ImageCollection)
    (Hcol : lsCol archive = Some col) :
  length col
  = (length (filterBounds (LC09 archive))
     + length (filterBounds (LC08 archive))
     + length (filterBounds
                 (filterDate (mkDate 1999 1 1) (mkDate 2033 1 1) (LE07 archive)))
     + length (filterBounds (LT05 archive))
     + length (filterBounds (LT04 archive)))%nat.
Proof.
  unfold lsCol, merge in Hcol. repeat bind_inv Hcol.
  inversion Hcol; subst; clear Hcol.
  apply process_length in E, E0, E1, E2, E3, E4.
  rewrite !length_app, E, E0, E1, E2, E3, E4.
  unfold filterBounds, filterDate.
  rewrite !(filter_commutes in_bounds).
  fold (filterDate (mkDate 1999 1 1) (mkDate 2003 6 1)
                   (filter in_bounds (LE07 archive))).
  fold (filterDate (mkDate 2003 6 1) (mkDate 2033 1 1)
                   (filter in_bounds (LE07 archive))).
  fold (filterDate (mkDate 1999 1 1) (mkDate 2033 1 1)
                   (filter in_bounds (LE07 archive))).
  rewrite <- (adjacent_ranges (mkDate 1999 1 1) (mkDate 2003 6 1)
                (mkDate 2033 1 1)) by (vm_compute; split; discriminate).
  lia.
Qed.

(** A Landsat 7 image of 1998, before the first sub-period. *)
Definition sample_LE07_early : Image :=
  mkImage [("SR_B1", int 8200); ("SR_B2", int 9000); ("SR_B3", int 9500);
           ("SR_B4", int 15000); ("SR_B5", int 12000); ("SR_B7", int 10000);
           ("QA_PIXEL", int 5440)]
          (Some 900000000000%Z) true.

Lemma lsCol_size_witness :
  exists col,
    lsCol (mkArchive [] [sample_LT05] [sample_LE07_early] [sample_LC08] []) = Some col /\
    length col = 2%nat.
Proof.
  assert (exists col, lsCol (mkArchive [] [sample_LT05] [sample_LE07_early]
                                       [sample_LC08] []) = Some col)
    as (col & Hcol).
  { eexists. vm_compute. reflexivity. }
  exists col. split; [ exact Hcol | ].
  rewrite (lsCol_size _ col Hcol). reflexivity.
Defined.

(** *** The quality masks on images *)

Lemma selectBands_lookup names bs out n :
  selectBands names bs = Some out -> In n names -> lookup n out = lookup n bs.
Proof.
  revert out. induction names as [ | k names IH]; intros out H Hn;
    [ destruct Hn | ].
  cbn [selectBands] in H. do 2 bind_inv H. inversion H; subst; clear H.
  cbn [lookup]. destruct (String.eqb_spec k n) as [-> | Hne].
  - now symmetry.
  - destruct Hn as [-> | Hn]; [ contradiction | now apply (IH _ eq_refl) ].
Qed.

(** The quality word flags the pixel: dilated cloud (bit 1), cloud (3),
    cloud shadow (4), snow (5) or water (7). *)
Definition flagged (q : Z) : bool :=
  Z.testbit q 1 || Z.testbit q 3 || Z.testbit q 4 || Z.testbit q 5
  || Z.testbit q 7.

(** X7: on an image that has the 15 index bands and an integer quality
    band, [lsMaskNew] succeeds and every index band keeps its value where the
    quality word is not flagged and has no data where it is; [SLC_lsMask]
    gives the same image. *)
Theorem lsMaskNew_masks_flagged_pixels (img : Image) (q : Z) (n : string)
    (p : pixel)
    (Hqa : band "qa_pixel" img = Some (int q))
    (Hall : incl allVariables (bandNames img))
    (Hn : In n allVariables) (Hp : band n img = Some p) :
  exists out,
    lsMaskNew img = Some out /\
    SLC_lsMask img = Some out /\
    bandNames out = allVariables /\
    band n out = Some (if flagged q then None else p).
Proof.
  destruct (selectBands_succeeds allVariables
              (bands (updateMask img (pmap nnot (lsMaskNew_mask (int q))))))
    as (bs & Hbs & _).
  { fold (bandNames (updateMask img (pmap nnot (lsMaskNew_mask (int q))))).
    now rewrite updateMask_bandNames. }
  assert (Hout : lsMaskNew img
                 = Some (copyProperties
                           (withBands
                              (updateMask img (pmap nnot (lsMaskNew_mask (int q))))
                              bs) img)).
  { unfold lsMaskNew. rewrite Hqa. cbn [bind]. cbv zeta.
    unfold select. rewrite Hbs. reflexivity. }
  eexists. split; [ exact Hout | ].
  split; [ rewrite SLC_lsMask_is_lsMaskNew; exact Hout | ].
  split; [ now apply lsMaskNew_bandNames with img | ].
  unfold band, copyProperties, withBands. cbn [bands].
  rewrite (selectBands_lookup _ _ _ n Hbs Hn).
  unfold updateMask, withBands. cbn [bands].
  rewrite (lookup_map (fun x => pupdateMask x (pmap nnot (lsMaskNew_mask (int q))))).
  unfold band in Hp. rewrite Hp. cbn [option_map]. f_equal.
  rewrite lsMaskNew_mask_value. cbn [pmap option_map pupdateMask].
  unfold nnot. rewrite !truthy_ofBool. unfold flagged.
  destruct (Z.testbit q 1), (Z.testbit q 3), (Z.testbit q 4), (Z.testbit q 5),
           (Z.testbit q 7); reflexivity.
Qed.

(** An output of [Indices] under a cloud: quality word 21824 + 8. *)
Definition sample_cloudy : Image :=
  mkImage (map (fun k => (k, flt 0.25)) allVariables ++ [("qa_pixel", int 21832)])
          (Some 1658000000000%Z) true.

Lemma lsMaskNew_masks_flagged_pixels_witness :
  exists out,
    lsMaskNew sample_cloudy = Some out /\
    SLC_lsMask sample_cloudy = Some out /\
    bandNames out = allVariables /\
    band "nbr" out = Some None.
Proof.
  apply (lsMaskNew_masks_flagged_pixels sample_cloudy 21832 "nbr" (flt 0.25)).
  - reflexivity.
  - intros k Hk. cbv in Hk. cbv.
    repeat (destruct Hk as [<- | Hk]; [ tauto | ]). destruct Hk.
  - now left.
  - reflexivity.
Defined.

(** *** Index formulas *)

Lemma toR_nadd a b : toR (nadd a b) = toR a + toR b.
Proof. destruct a, b; cbn; try reflexivity. apply plus_IZR. Qed.

Lemma toR_nsub a b : toR (nsub a b) = toR a - toR b.
Proof. destruct a, b; cbn; try reflexivity. apply minus_IZR. Qed.

Lemma toR_nmul a b : toR (nmul a b) = toR a * toR b.
Proof. destruct a, b; cbn; try reflexivity. apply mult_IZR. Qed.

Lemma quotient_scaled (x y c : R) : c <> 0 -> (x * c) / (y * c) = x / y.
Proof.
  intros Hc. destruct (Req_dec_T y 0) as [-> | Hy].
  - rewrite Rmult_0_l. unfold Rdiv. rewrite Rinv_0. ring.
  - field. now split.
Qed.

Lemma getBSI_value img :
  getBSI img =
  RED <- band "red" img ;;
  sSWIR <- band "sswir" img ;;
  BLUE <- band "blue" img ;;
  NIR <- band "nir" img ;;
  Some (mkImage
          [("bsi", pmap ntoFloat
                     (((RED + sSWIR) - (NIR + BLUE))
                      / ((RED + sSWIR) + (NIR + BLUE)))%px)]
          None (in_bounds img)).
Proof.
  unfold getBSI.
  destruct (band "red" img), (band "sswir" img), (band "blue" img),
           (band "nir" img); reflexivity.
Qed.

Lemma getCSI_value img :
  getCSI img =
  NIR <- band "nir" img ;;
  sSWIR <- band "sswir" img ;;
  Some (mkImage [("csi", pmap ntoFloat (NIR / sSWIR)%px)] None (in_bounds img)).
Proof.
  unfold getCSI. destruct (band "nir" img), (band "sswir" img); reflexivity.
Qed.

(** X8: the bare-soil and char-soil indices do not change when every band
    is multiplied by the same non-zero constant. *)
Theorem soil_indices_are_scale_free (img : Image) (c : R) (Hc : c <> 0) :
  getBSI (scaled c img) = getBSI img /\
  getCSI (scaled c img) = getCSI img.
Proof.
  split.
  - rewrite !getBSI_value. unfold scaled. rewrite !band_mapBands.
    destruct (band "red" img) as [[r | ] | ], (band "sswir" img) as [[s | ] | ],
             (band "blue" img) as [[b | ] | ], (band "nir" img) as [[n | ] | ];
      try reflexivity.
    cbn [option_map bind pmap2 pmap flt ntoFloat ndiv toR].
    do 5 f_equal. unfold ntoFloat, ndiv. cbn [toR]. f_equal.
    rewrite !toR_nsub, !toR_nadd, !toR_nmul. cbn [toR].
    replace (toR r * c + toR s * c - (toR n * c + toR b * c))
      with ((toR r + toR s - (toR n + toR b)) * c) by ring.
    replace (toR r * c + toR s * c + (toR n * c + toR b * c))
      with ((toR r + toR s + (toR n + toR b)) * c) by ring.
    now apply quotient_scaled.
  - rewrite !getCSI_value. unfold scaled. rewrite !band_mapBands.
    destruct (band "nir" img) as [[n | ] | ], (band "sswir" img) as [[s | ] | ];
      try reflexivity.
    cbn [option_map bind pmap2 pmap flt ntoFloat ndiv toR].
    do 5 f_equal. unfold ntoFloat, ndiv. cbn [toR]. f_equal.
    rewrite !toR_nmul. cbn [toR].
    now apply quotient_scaled.
Qed.

Lemma soil_indices_are_scale_free_witness :
  getBSI (scaled 10000 sample_canonical) = getBSI sample_canonical /\
  getCSI (scaled 10000 sample_canonical) = getCSI sample_canonical.
Proof. apply soil_indices_are_scale_free. lra. Defined.

(** X9: where the four inputs have data and are not negative and their sum
    is not zero, BSI is [((RED + sSWIR) - (NIR + BLUE)) / ((RED + sSWIR) +
    (NIR + BLUE))] and lies in [[-1, 1]]. *)
Theorem getBSI_bounded (img : Image) (r s b n : num)
    (Hr : band "red" img = Some (Some r)) (Hs : band "sswir" img = Some (Some s))
    (Hb : band "blue" img = Some (Some b)) (Hn : band "nir" img = Some (Some n))
    (Hr0 : 0 <= toR r) (Hs0 : 0 <= toR s) (Hb0 : 0 <= toR b) (Hn0 : 0 <= toR n)
    (Hsum : toR r + toR s + toR n + toR b <> 0) :
  exists v,
    getBSI img = Some (mkImage [("bsi", flt v)] None (in_bounds img)) /\
    v = ((toR r + toR s) - (toR n + toR b)) / ((toR r + toR s) + (toR n + toR b)) /\
    -1 <= v <= 1.
Proof.
  eexists. split; [ | split; [ reflexivity | ] ].
  - rewrite getBSI_value, Hr, Hs, Hb, Hn.
    cbn [bind pmap2 pmap option_map flt]. unfold ntoFloat, ndiv. cbn [toR].
    now rewrite !toR_nsub, !toR_nadd.
  - apply ratio_bounds; lra.
Qed.

Lemma getBSI_bounded_witness :
  exists v,
    getBSI sample_canonical = Some (mkImage [("bsi", flt v)] None true) /\
    v = ((0.05 + 0.20) - (0.30 + 0.02)) / ((0.05 + 0.20) + (0.30 + 0.02)) /\
    -1 <= v <= 1.
Proof.
  apply (getBSI_bounded sample_canonical (Flt 0.05) (Flt 0.20) (Flt 0.02)
           (Flt 0.30));
    try reflexivity; cbn; lra.
Defined.

(** X10: the tasseled-cap brightness is linear in the reflectances:
    scaling every band by [c] scales TCB by [c] (and so for TCG and TCW,
    which have the same shape). *)
Theorem tasseled_cap_is_linear (img : Image) (c : R) :
  getTCB (scaled c img) = option_map (scaled c) (getTCB img) /\
  getTCG (scaled c img) = option_map (scaled c) (getTCG img) /\
  getTCW (scaled c img) = option_map (scaled c) (getTCW img).
Proof.
  unfold getTCB, getTCG, getTCW, scaled. rewrite !band_mapBands.
  destruct (band "blue" img) as [[b | ] | ], (band "green" img) as [[g | ] | ],
           (band "red" img) as [[r | ] | ], (band "nir" img) as [[n | ] | ],
           (band "sswir" img) as [[s | ] | ], (band "lswir" img) as [[l | ] | ];
    try (repeat split; reflexivity).
  cbn [option_map bind]. unfold selectFirstAs, result, computed, mapBands, withBands.
  cbn [bands option_map map fst snd time_start in_bounds pmap2 pmap flt ntoFloat
       nadd nsub nmul arith toR].
  unfold computed, ntoFloat. cbn [toR in_bounds].
  rewrite !toR_nmul. cbn [toR].
  repeat split; do 6 f_equal; ring.
Qed.

Lemma getMSAVI_value (img : Image) (a b : num) :
  band "nir" img = Some (Some a) -> band "red" img = Some (Some b) ->
  getMSAVI img
  = Some (mkImage
            [("msavi",
              flt ((2 * toR a + 1
                    - sqrt ((2 * toR a + 1) ^ 2 - 8 * (toR a - toR b))) / 2))]
            None (in_bounds img)).
Proof.
  intros Ha Hb. unfold getMSAVI. rewrite Ha, Hb. cbn [bind].
  unfold selectFirstAs, result, computed, withBands.
  cbn [bands time_start in_bounds pmap2 pmap option_map int flt].
  unfold ntoFloat, ndiv, nsqrt, npow. cbn [toR].
  rewrite !toR_nsub, !toR_nadd, !toR_nmul, !toR_nsub. cbn [toR].
  reflexivity.
Qed.

(** X11: where NIR and RED have data and RED is not negative, the square
    root in MSAVI is taken of a number that is not negative, and MSAVI is a
    root of [x^2 - (2 NIR + 1) x + 2 (NIR - RED)]; it is 0 where NIR equals
    RED (and is at least -1/2). *)
Theorem getMSAVI_is_a_root (img : Image) (a b : num)
    (Hnir : band "nir" img = Some (Some a))
    (Hred : band "red" img = Some (Some b))
    (Hred0 : 0 <= toR b) :
  exists m,
    getMSAVI img = Some (mkImage [("msavi", flt m)] None (in_bounds img)) /\
    0 <= (2 * toR a + 1) ^ 2 - 8 * (toR a - toR b) /\
    m * m - (2 * toR a + 1) * m + 2 * (toR a - toR b) = 0 /\
    (toR a = toR b -> - (1 / 2) <= toR a -> m = 0).
Proof.
  eexists. split; [ exact (getMSAVI_value img a b Hnir Hred) | ].
  set (N := toR a). set (D := (2 * N + 1) ^ 2 - 8 * (N - toR b)).
  assert (HD : 0 <= D).
  { unfold D. replace ((2 * N + 1) ^ 2 - 8 * (N - toR b))
      with ((2 * N - 1) ^ 2 + 8 * toR b) by ring.
    pose proof (pow2_ge_0 (2 * N - 1)). lra. }
  split; [ exact HD | ]. split.
  - pose proof (sqrt_sqrt D HD) as Hs.
    replace ((2 * N + 1 - sqrt D) / 2 * ((2 * N + 1 - sqrt D) / 2)
             - (2 * N + 1) * ((2 * N + 1 - sqrt D) / 2) + 2 * (N - toR b))
      with ((sqrt D * sqrt D - ((2 * N + 1) ^ 2 - 8 * (N - toR b))) / 4)
      by field.
    rewrite Hs. unfold D. field.
  - intros Heq Hhalf. unfold D. rewrite <- Heq. fold N.
    replace ((2 * N + 1) ^ 2 - 8 * (N - N)) with ((2 * N + 1) * (2 * N + 1))
      by ring.
    rewrite sqrt_square by lra. field.
Qed.

Lemma getMSAVI_is_a_root_witness :
  exists m,
    getMSAVI sample_canonical = Some (mkImage [("msavi", flt m)] None true) /\
    m * m - (2 * 0.30 + 1) * m + 2 * (0.30 - 0.05) = 0.
Proof.
  destruct (getMSAVI_is_a_root sample_canonical (Flt 0.30) (Flt 0.05)
              eq_refl eq_refl)
    as (m & Hm & _ & Hroot & _).
  - cbn. lra.
  - exists m. split; assumption.
Defined.

(** *** The burn-metric stack *)

Fixpoint distinct (names : list string) : bool :=
  match names with
  | [] => true
  | n :: rest => negb (existsb (String.eqb n) rest) && distinct rest
  end.

Lemma distinct_NoDup names : distinct names = true -> NoDup names.
Proof.
  induction names as [ | n rest IH]; cbn; intros H; constructor.
  - apply andb_prop in H. destruct H as [H _].
    intros Hin. apply negb_true_iff in H.
    assert (existsb (String.eqb n) rest = true); [ | congruence ].
    apply existsb_exists. exists n. split; [ assumption | apply String.eqb_refl ].
  - apply IH. now apply andb_prop in H.
Qed.

(** X12: the calculator never makes two bands of the same name: on the
    pre/post stack of a run its output has 48 bands, the 18 metrics, the 15
    [pre_] and the 15 [post_] bands, all named differently, so no
    [addBands] has a band to rename and every band is found by its name. *)
Theorem burn_stack_names_are_distinct (f b18 : Image)
    (Hf : bandNames f = preVariables ++ postVariables)
    (Hb : burnMetrics f = Some b18) :
  bandNames b18 = metricNames ++ preVariables ++ postVariables /\
  length (bands b18) = 48%nat /\
  NoDup (bandNames b18).
Proof.
  destruct (burnMetrics_succeeds f Hf) as (b & Hb' & Hn).
  rewrite Hb in Hb'. inversion Hb'; subst b; clear Hb'.
  split; [ exact Hn | ]. split.
  - rewrite <- (length_map fst). fold (bandNames b18). now rewrite Hn.
  - rewrite Hn. apply distinct_NoDup. vm_compute. reflexivity.
Qed.

(** A pre/post stack with data in every band. *)
Definition sample_full_stack : Image :=
  mkImage (map (fun n => (("pre_" ++ n)%string, flt 0.5)) allVariables
           ++ map (fun n => (("post_" ++ n)%string, flt 0.25)) allVariables)
          None true.

Lemma burn_stack_names_are_distinct_witness :
  exists b18,
    burnMetrics sample_full_stack = Some b18 /\
    length (bands b18) = 48%nat /\
    NoDup (bandNames b18).
Proof.
  assert (exists b18, burnMetrics sample_full_stack = Some b18) as (b18 & Hb).
  { eexists. vm_compute. reflexivity. }
  destruct (burn_stack_names_are_distinct sample_full_stack b18 eq_refl Hb)
    as (_ & Hlen & Hnd).
  exists b18. repeat split; assumption.
Defined.








Lemma Rtrunc_opp (x : R) : Rtrunc (- x) = (- Rtrunc x)%Z.
Proof.
  unfold Rtrunc, Zceil.
  destruct (Rle_dec 0 (- x)) as [Hn | Hn], (Rle_dec 0 x) as [Hp | Hp].
  - assert (x = 0) as -> by lra. rewrite Ropp_0.
    rewrite (Zfloor_eq 0 0) by lra. reflexivity.
  - lia.
  - now rewrite Ropp_involutive.
  - lra.
Qed.

Lemma Rtrunc_bound (x : R) (B : Z) :
  - IZR B <= x <= IZR B -> (- B <= Rtrunc x <= B)%Z.
Proof.
  intros [Hlo Hhi]. unfold Rtrunc.
  destruct (Rle_dec 0 x) as [Hp | Hp].
  - pose proof (Zfloor_bound x) as [Hf _].
    assert (0 <= Zfloor x)%Z by (apply Zfloor_lub; simpl; lra).
    assert (IZR (Zfloor x) <= IZR B) by lra.
    apply le_IZR in H0. lia.
  - pose proof (Zceil_bound x) as [Hc1 Hc2].
    assert (IZR (Zceil x) < 1) by lra.
    apply (lt_IZR _ 1) in H.
    assert (IZR (- B) <= IZR (Zceil x)) by (rewrite opp_IZR; lra).
    apply le_IZR in H0. lia.
Qed.

(** X14: swapping the pre- and the post-fire NBR negates dNBR (the integer
    cast drops the fraction on both sides of zero), and a pixel whose NBR did
    not change has dNBR 0. *)
Theorem dnbr_is_antisymmetric (f f' : Image) (a b : R)
    (Hpre : band "pre_nbr" f = Some (flt a))
    (Hpost : band "post_nbr" f = Some (flt b))
    (Hpre' : band "pre_nbr" f' = Some (flt b))
    (Hpost' : band "post_nbr" f' = Some (flt a)) :
  exists b1 b1' d,
    burnIndices f = Some b1 /\
    burnIndices f' = Some b1' /\
    band "dnbr" b1 = Some (int d) /\
    band "dnbr" b1' = Some (int (- d)) /\
    d = Rtrunc ((a - b) * 1000) /\
    (a = b -> d = 0%Z).
Proof.
  destruct (first_four_metrics f a b Hpre Hpost) as (H1 & _).
  destruct (first_four_metrics f' b a Hpre' Hpost') as (H1' & _).
  do 2 eexists. exists (Rtrunc ((a - b) * 1000)).
  split; [ exact H1 | ]. split; [ exact H1' | ].
  split; [ reflexivity | ]. split.
  - rewrite band_cons. cbn [String.eqb Ascii.eqb Bool.eqb].
    rewrite <- Rtrunc_opp. do 3 f_equal. ring.
  - split; [ reflexivity | ]. intros ->. replace ((b - b) * 1000) with (IZR 0) by (simpl; ring).
    apply Rtrunc_IZR.
Qed.

(** The stack of the scenario with pre and post exchanged. *)
Definition sample_swapped_stack : Image :=
  mkImage [("pre_nbr", flt (-0.1)); ("post_nbr", flt 0.6)] None true.

Lemma dnbr_is_antisymmetric_witness :
  exists b1 b1',
    burnIndices sample_stack = Some b1 /\
    burnIndices sample_swapped_stack = Some b1' /\
    band "dnbr" b1 = Some (int 700) /\
    band "dnbr" b1' = Some (int (-700)).
Proof.
  destruct (dnbr_is_antisymmetric sample_stack sample_swapped_stack 0.6 (-0.1)
              eq_refl eq_refl eq_refl eq_refl)
    as (b1 & b1' & d & H1 & H1' & Hd & Hd' & Hval & _).
  assert (d = 700%Z) as ->.
  { rewrite Hval. apply Rtrunc_nonneg; lra. }
  exists b1, b1'. repeat split; assumption.
Defined.

Lemma quotient_bound (x d B m : R) :
  0 < m -> m <= d -> - B <= x <= B -> - (B / m) <= x / d <= B / m.
Proof.
  intros Hm Hd [Hlo Hhi].
  assert (Hd0 : 0 < d) by lra.
  assert (HB : 0 <= B) by lra.
  assert (Hinv : 0 < / d <= / m).
  { split; [ now apply Rinv_0_lt_compat | now apply Rinv_le_contravar ]. }
  unfold Rdiv. split.
  - assert (- B * / m <= - B * / d) by nra. nra.
  - nra.
Qed.

(** X15: for NBR composites in [[-1, 1]] (where [normalizedDifference]
    puts them) the first metrics stay small: |dnbr| <= 2000, the RBR
    denominator is at least 0.001 and |rbr| <= 2000000, |rdnbr| <= 63292;
    all are far inside the range of a 32-bit integer, which the integer cast
    produces. *)
Theorem first_metrics_are_bounded (fireIndices : Image) (pre_nbr post_nbr : R)
    (Hpre : band "pre_nbr" fireIndices = Some (flt pre_nbr))
    (Hpost : band "post_nbr" fireIndices = Some (flt post_nbr))
    (Hpre1 : -1 <= pre_nbr <= 1) (Hpost1 : -1 <= post_nbr <= 1) :
  exists (b1 b2 b3 b4 : Image) (dnbr rbr rdnbr : Z),
    burnIndices fireIndices = Some b1 /\
    burnIndices2 b1 = Some b2 /\
    burnIndices3 b2 = Some b3 /\
    burnIndices4 b3 = Some b4 /\
    band "dnbr" b4 = Some (int dnbr) /\
    band "rbr" b4 = Some (int rbr) /\
    band "rdnbr" b4 = Some (int rdnbr) /\
    (- 2000 <= dnbr <= 2000)%Z /\
    0.001 <= pre_nbr + 1.001 /\
    (- 2000000 <= rbr <= 2000000)%Z /\
    (- 63292 <= rdnbr <= 63292)%Z /\
    (Z.abs dnbr < 2 ^ 31 /\ Z.abs rbr < 2 ^ 31 /\ Z.abs rdnbr < 2 ^ 31)%Z.
Proof.
  destruct (first_four_metrics fireIndices pre_nbr post_nbr Hpre Hpost)
    as (H1 & H2 & H3 & H4).
  do 4 eexists.
  exists (Rtrunc ((pre_nbr - post_nbr) * 1000)).
  exists (Rtrunc (IZR (Rtrunc ((pre_nbr - post_nbr) * 1000)) / (pre_nbr + 1.001))).
  exists (Rtrunc (IZR (Rtrunc ((pre_nbr - post_nbr) * 1000)) / pre_nbr3_of pre_nbr)).
  split; [ exact H1 | ]. split; [ exact H2 | ].
  split; [ exact H3 | ]. split; [ exact H4 | ].
  do 3 (split; [ reflexivity | ]).
  assert (Hd : (- 2000 <= Rtrunc ((pre_nbr - post_nbr) * 1000) <= 2000)%Z).
  { apply (Rtrunc_bound _ 2000). lra. }
  assert (HdR : - 2000 <= IZR (Rtrunc ((pre_nbr - post_nbr) * 1000)) <= 2000).
  { destruct Hd as [Hlo Hhi]. apply IZR_le in Hlo, Hhi. lra. }
  assert (Hr : (- 2000000
                <= Rtrunc (IZR (Rtrunc ((pre_nbr - post_nbr) * 1000))
                           / (pre_nbr + 1.001))
                <= 2000000)%Z).
  { apply (Rtrunc_bound _ 2000000).
    pose proof (quotient_bound _ (pre_nbr + 1.001) 2000 0.001
                  ltac:(lra) ltac:(lra) HdR) as Hq.
    assert (2000 / 0.001 = 2000000) by lra. lra. }
  assert (Hrd : (- 63292
                 <= Rtrunc (IZR (Rtrunc ((pre_nbr - post_nbr) * 1000))
                            / pre_nbr3_of pre_nbr)
                 <= 63292)%Z).
  { apply (Rtrunc_bound _ 63292).
    pose proof (pre_nbr3_of_lower pre_nbr) as Hlow.
    pose proof sqrt_thousandth as Hs.
    pose proof (quotient_bound _ (pre_nbr3_of pre_nbr) 2000 0.0316
                  ltac:(lra) ltac:(lra) HdR) as Hq.
    assert (2000 / 0.0316 <= 63292) by (apply Rmult_le_reg_r with 0.0316; [ lra | ];
      unfold Rdiv; rewrite Rmult_assoc, Rinv_l by lra; lra).
    lra. }
  repeat split; try lia; lra.
Qed.

Lemma first_metrics_are_bounded_witness :
  exists (b4 : Image) (dnbr rbr rdnbr : Z),
    band "dnbr" b4 = Some (int dnbr) /\
    band "rbr" b4 = Some (int rbr) /\
    band "rdnbr" b4 = Some (int rdnbr) /\
    (Z.abs dnbr < 2 ^ 31 /\ Z.abs rbr < 2 ^ 31 /\ Z.abs rdnbr < 2 ^ 31)%Z.
Proof.
  destruct (first_metrics_are_bounded sample_stack 0.6 (-0.1) eq_refl eq_refl)
    as (b1 & b2 & b3 & b4 & dnbr & rbr & rdnbr & _ & _ & _ & _
        & Hd & Hr & Hrd & _ & _ & _ & _ & Hfit); try lra.
  exists b4, dnbr, rbr, rdnbr. repeat split; try assumption; apply Hfit.
Defined.

(** *** The classifier adapter *)

(** X16: the predictor raster has the three bands dNBR2, dTCG, dTCB, in this
    order, taken from dnbr2, dtcg and dtcb of the calculator and masked by
    the water mask; the probability raster is one band 'classification' that
    holds the classifier applied to these three values where the pixel is on
    land, not water and the three have data, and no data elsewhere. *)
Theorem predictedImage_value
    (year_select : Z) (archive : Archive) (classifier : list num -> R)
    (max_extent : pixel) (shoreline : list Z) (ROI : Geometry)
    (f b18 : Image) (v1 v2 v3 : pixel)
    (Hf : fireIndices year_select archive = Some f)
    (Hb : burnMetrics f = Some b18)
    (H1 : band "dnbr2" b18 = Some v1)
    (H2 : band "dtcg" b18 = Some v2)
    (H3 : band "dtcb" b18 = Some v3) :
  burnIndices19 year_select archive max_extent ROI
  = Some (mkImage
            [("dNBR2", pupdateMask v1 (dryLand max_extent ROI));
             ("dTCG", pupdateMask v2 (dryLand max_extent ROI));
             ("dTCB", pupdateMask v3 (dryLand max_extent ROI))]
            (time_start b18) (in_bounds b18)) /\
  exists p,
    predictedImage year_select archive classifier max_extent shoreline ROI
    = Some (mkImage [("classification", p)] None (in_bounds b18)) /\
    (p = None \/ exists x1 x2 x3,
                   v1 = Some x1 /\ v2 = Some x2 /\ v3 = Some x3 /\
                   p = flt (classifier [x1; x2; x3])) /\
    (p <> None <->
     is_set (dryLand max_extent ROI) = true /\
     is_set (land shoreline ROI) = true /\
     v1 <> None /\ v2 <> None /\ v3 <> None).
Proof.
  set (dry := dryLand max_extent ROI). set (ld := land shoreline ROI).
  assert (H19 : burnIndices19 year_select archive max_extent ROI
                = Some (mkImage
                          [("dNBR2", pupdateMask v1 dry);
                           ("dTCG", pupdateMask v2 dry);
                           ("dTCB", pupdateMask v3 dry)]
                          (time_start b18) (in_bounds b18))).
  { unfold burnIndices19. rewrite Hf. cbn [bind]. rewrite Hb. cbn [bind].
    cbv zeta. fold dry.
    change (map toLowerCase predictorVariables) with ["dnbr2"; "dtcg"; "dtcb"].
    unfold selectAs, select, updateMask, withBands.
    cbn [bands selectBands time_start in_bounds].
    rewrite !(lookup_map (fun q => pupdateMask q dry)).
    unfold band in H1, H2, H3. rewrite H1, H2, H3. reflexivity. }
  split; [ exact H19 | ].
  unfold predictedImage. rewrite H19. cbn [bind]. fold dry. fold ld.
  eexists. split; [ reflexivity | ].
  rewrite !pupdateMask_is_set.
  destruct (is_set dry), (is_set ld), v1 as [x1 | ], v2 as [x2 | ], v3 as [x3 | ];
    cbn;
    (split;
     [ first [ right; exists x1, x2, x3; repeat split; reflexivity
             | left; reflexivity ]
     | split;
       [ intros H; first [ now contradiction H | repeat split; discriminate ]
       | intros (Ha & Hb' & Hc & Hd & He);
         first [ discriminate | congruence ] ] ]).
Qed.

Lemma predictedImage_value_witness :
  exists p ib,
    predictedImage 2022 sample_run_archive sample_classifier (int 0) [1%Z]
                   sample_ROI
    = Some (mkImage [("classification", p)] None ib).
Proof.
  assert (exists col, lsCol sample_run_archive = Some col) as (col & Hcol).
  { eexists. vm_compute. reflexivity. }
  destruct (calculator_succeeds 2022 sample_run_archive (int 0) sample_ROI col Hcol)
    as (f & b18 & _ & Hf & Hn & Hb & _).
  destruct (burnMetrics_succeeds f Hn) as (b & Hb' & Hn18).
  rewrite Hb in Hb'. inversion Hb'; subst b; clear Hb'.
  destruct (band_named "dnbr2" b18) as (v1 & H1); [ rewrite Hn18; named | ].
  destruct (band_named "dtcg" b18) as (v2 & H2); [ rewrite Hn18; named | ].
  destruct (band_named "dtcb" b18) as (v3 & H3); [ rewrite Hn18; named | ].
  destruct (predictedImage_value 2022 sample_run_archive sample_classifier
              (int 0) [1%Z] sample_ROI f b18 v1 v2 v3 Hf Hb H1 H2 H3)
    as (_ & p & Hp & _).
  now exists p, (in_bounds b18).
Defined.

(** *** The other two deviation rasters *)

Definition deviations (op : pixel -> pixel -> pixel) (n : string) (P : Image)
    (obs : ImageCollection) : list R :=
  flat_map (fun img => match band n img, band n P with
                       | Some x, Some y => data (op x y)
                       | _, _ => []
                       end) obs.

Lemma values_deviated op n P obs :
  Forall (fun img => bandNames img = bandNames P) obs ->
  values n (map (deviated op P) obs)
  = deviations op n P obs.
Proof.
  intros Hall. unfold values, deviations. rewrite flat_map_concat_map, map_map.
  rewrite flat_map_concat_map. f_equal. apply map_ext_in. intros img Hin.
  rewrite Forall_forall in Hall.
  unfold valid. rewrite deviated_band by now apply Hall.
  destruct (band n img) as [x | ], (band n P) as [y | ]; reflexivity.
Qed.

Lemma window_deviation (r : Reducer) op year_select k col P :
  Forall (fun img => bandNames img = allVariables) col ->
  bandNames P = allVariables ->
  window year_select k col <> [] ->
  reduce r (window year_select k (map (deviated op P) col))
  = Some (keyed (fun n =>
            option_map Flt
              (r (deviations op n P (window year_select k col))))).
Proof.
  intros Hall HP Hne. rewrite window_deviated.
  assert (Hw : Forall (fun img => bandNames img = bandNames P)
                      (window year_select k col)).
  { rewrite HP, window_filter. now apply Forall_filter. }
  rewrite reduce_keyed.
  - f_equal. apply keyed_ext. intros n _. now rewrite values_deviated.
  - destruct (window year_select k col); [ contradiction | discriminate ].
  - apply Forall_forall. intros img Hin. apply in_map_iff in Hin.
    destruct Hin as (src & <- & Hsrc).
    rewrite Forall_forall in Hw.
    rewrite deviated_bandNames by now apply Hw.
    rewrite (Hw src Hsrc). exact HP.
Qed.

Lemma differences_shifted n P p obs :
  band n P = Some (Some p) ->
  deviations (pmap2 nsub) n P obs
  = map (fun x => x - toR p) (values n obs).
Proof.
  intros HP. unfold values, deviations. rewrite HP.
  induction obs as [ | img obs IH]; [ reflexivity | ].
  cbn [flat_map]. rewrite map_app, IH. f_equal.
  unfold valid. destruct (band n img) as [[x | ] | ]; try reflexivity.
  cbn. now rewrite toR_nsub.
Qed.

Lemma sum_shifted (c : R) (l : list R) :
  fold_right Rplus 0 (map (fun x => x - c) l)
  = fold_right Rplus 0 l - INR (length l) * c.
Proof.
  induction l as [ | x l IH]; [ cbn; ring | ].
  cbn [map fold_right length]. rewrite IH, S_INR. ring.
Qed.

(** Averaging after a shift is shifting the average. *)
Lemma mean_shifted (c : R) (l : list R) :
  mean (map (fun x => x - c) l) = option_map (fun m => m - c) (mean l).
Proof.
  destruct l as [ | x l]; [ reflexivity | ].
  unfold mean. cbn [map option_map].
  rewrite <- (map_cons (fun x => x - c)), sum_shifted, length_map.
  f_equal. field. apply not_0_INR. discriminate.
Qed.

(** X17: [subCol] is, band by band, the lower of two rasters, one per
    evaluation window (the year after and the selected year), each the mean
    over the window of the observations minus [PREmedian]; where the
    baseline median [p] has data this is the mean of the window minus [p]
    (subtracting before or after averaging is the same). *)
Theorem subCol_is_mean_minus_baseline
    (year_select : Z) (archive : Archive) (ROI : Geometry)
    (col : ImageCollection) (n : string) (p : num)
    (Hcol : lsCol archive = Some col) (Hn : In n allVariables)
    (Hbase : baseline year_select col <> [])
    (HA : window year_select 1 col <> [])
    (HB : window year_select 0 col <> [])
    (Hp : band n (medians (baseline year_select col)) = Some (Some p)) :
  exists S,
    subCol year_select archive ROI = Some S /\
    band n S
    = Some (option_map Flt
              (lower
                 (clipped (contains_pixel ROI)
                    (option_map (fun m => m - toR p)
                       (mean (values n (window year_select 1 col)))))
                 (clipped (contains_pixel ROI)
                    (option_map (fun m => m - toR p)
                       (mean (values n (window year_select 0 col))))))).
Proof.
  pose proof (lsCol_homogeneous _ _ Hcol) as Hall.
  set (P := medians (baseline year_select col)) in *.
  unfold subCol, TSdevSub.
  rewrite (deviation_value _ _ _ _ Hcol Hbase). cbn [bind]. fold P.
  rewrite !(window_deviation mean) by (assumption || apply medians_bandNames).
  cbn [bind]. rewrite !clip_keyed.
  rewrite (keyed_ext _ (fun k => option_map Flt
             (clipped (contains_pixel ROI)
                (mean (deviations (pmap2 nsub) k P (window year_select 1 col))))))
    by (intros; apply pclip_clipped).
  rewrite (keyed_ext (fun k => pclip _ (option_map Flt (mean (deviations (pmap2 nsub) k P
                        (window year_select 0 col)))))
             (fun k => option_map Flt
             (clipped (contains_pixel ROI)
                (mean (deviations (pmap2 nsub) k P (window year_select 0 col))))))
    by (intros; apply pclip_clipped).
  rewrite lowest_keyed. eexists. split; [ reflexivity | ].
  rewrite (keyed_band
           (fun k => option_map Flt
              (lower
                 (clipped (contains_pixel ROI)
                    (mean (deviations (pmap2 nsub) k P (window year_select 1 col))))
                 (clipped (contains_pixel ROI)
                    (mean (deviations (pmap2 nsub) k P (window year_select 0 col))))))
           n Hn).
  rewrite !(differences_shifted n P p) by exact Hp.
  now rewrite !mean_shifted.
Qed.

Lemma subCol_is_mean_minus_baseline_witness :
  exists col S p,
    lsCol sample_run_archive = Some col /\
    subCol 2022 sample_run_archive sample_ROI = Some S /\
    band "nbr2" S
    = Some (option_map Flt
              (lower (option_map (fun m => m - toR p)
                        (mean (values "nbr2" (window 2022 1 col))))
                     (option_map (fun m => m - toR p)
                        (mean (values "nbr2" (window 2022 0 col)))))).
Proof.
  assert (exists col p, lsCol sample_run_archive = Some col /\
                        baseline 2022 col <> [] /\
                        window 2022 1 col <> [] /\
                        window 2022 0 col <> [] /\
                        band "nbr2" (medians (baseline 2022 col)) = Some (Some p))
    as (col & p & Hcol & Hbase & HA & HB & Hp).
  { do 2 eexists. split; [ vm_compute; reflexivity | ].
    split; [ vm_compute; intros H; discriminate H | ].
    split; [ vm_compute; intros H; discriminate H | ].
    split; [ vm_compute; intros H; discriminate H | ].
    vm_compute. decide_R. reflexivity. }
  assert (Hin : In "nbr2" allVariables) by (right; left; reflexivity).
  destruct (subCol_is_mean_minus_baseline 2022 sample_run_archive sample_ROI
              col "nbr2" p Hcol Hin Hbase HA HB Hp) as (S & HS & Hband).
  exists col, S, p. repeat split; assumption.
Defined.

Lemma fold_min_assoc (l : list R) (a y : R) :
  fold_left Rmin l (Rmin a y) = Rmin a (fold_left Rmin l y).
Proof.
  revert y. induction l as [ | z l IH]; intros y; [ reflexivity | ].
  cbn [fold_left]. now rewrite <- Rmin_assoc, IH.
Qed.

Lemma min_app (l1 l2 : list R) : min (l1 ++ l2) = lower (min l1) (min l2).
Proof.
  destruct l1 as [ | x l1]; [ cbn; now destruct (min l2) | ].
  destruct l2 as [ | y l2]; [ now rewrite app_nil_r | ].
  cbn [min app lower]. rewrite fold_left_app. cbn [fold_left].
  now rewrite fold_min_assoc.
Qed.

Lemma fold_min_least (l : list R) (x : R) :
  let m := fold_left Rmin l x in
  (m = x \/ In m l) /\ m <= x /\ (forall y, In y l -> m <= y).
Proof.
  revert x. induction l as [ | z l IH]; intros x; cbn [fold_left In].
  - split; [ now left | ]. split; [ lra | intros y [] ].
  - destruct (IH (Rmin x z)) as (Hin & Hle & Hall).
    pose proof (Rmin_l x z). pose proof (Rmin_r x z).
    split; [ | split ].
    + destruct Hin as [Heq | Hin]; [ | now right; right ].
      rewrite Heq. unfold Rmin. destruct (Rle_dec x z); [ now left | right; now left ].
    + lra.
    + intros y [<- | Hy]; [ lra | now apply Hall ].
Qed.

(** The [min] reducer returns a member of the list that is below all
    others. *)
Lemma min_least (l : list R) (m : R) :
  min l = Some m -> In m l /\ (forall x, In x l -> m <= x).
Proof.
  destruct l as [ | x l]; [ discriminate | ].
  intros [= <-]. destruct (fold_min_least l x) as (Hin & Hle & Hall).
  split.
  - destruct Hin as [-> | Hin]; [ now left | now right ].
  - intros y [<- | Hy]; [ exact Hle | now apply Hall ].
Qed.

Lemma lower_clipped inside a b :
  lower (clipped inside a) (clipped inside b) = clipped inside (lower a b).
Proof. now destruct inside. Qed.

(** X18: [meanCol] holds, band by band and inside the region, the
    smallest value with data among the observations of the selected year's
    summer and of the next one taken together: the lower of the two window
    minima is the minimum over both windows, a value that was observed and
    that no observation goes below. *)
Theorem meanCol_is_lowest_observation
    (year_select : Z) (archive : Archive) (ROI : Geometry)
    (col : ImageCollection) (n : string)
    (Hcol : lsCol archive = Some col) (Hn : In n allVariables)
    (HA : window year_select 1 col <> [])
    (HB : window year_select 0 col <> []) :
  let observed := values n (window year_select 1 col ++ window year_select 0 col) in
  exists M,
    meanCol year_select archive ROI = Some M /\
    band n M = Some (option_map Flt (clipped (contains_pixel ROI) (min observed))) /\
    (forall m, min observed = Some m ->
               In m observed /\ forall x, In x observed -> m <= x).
Proof.
  intros observed.
  pose proof (lsCol_homogeneous _ _ Hcol) as Hall.
  assert (Hw : forall k, Forall (fun img => bandNames img = allVariables)
                                (window year_select k col)).
  { intros k. rewrite window_filter. now apply Forall_filter. }
  unfold meanCol, imgCol. rewrite Hcol. cbn [bind].
  rewrite !reduce_keyed by (assumption || apply Hw). cbn [bind].
  rewrite !clip_keyed.
  rewrite (keyed_ext _ (fun k => option_map Flt
             (clipped (contains_pixel ROI) (min (values k (window year_select 1 col))))))
    by (intros; apply pclip_clipped).
  rewrite (keyed_ext (fun k => pclip _ (option_map Flt
                        (min (values k (window year_select 0 col)))))
             (fun k => option_map Flt
             (clipped (contains_pixel ROI) (min (values k (window year_select 0 col))))))
    by (intros; apply pclip_clipped).
  rewrite lowest_keyed. eexists. split; [ reflexivity | ]. split.
  - rewrite (keyed_band
               (fun k => option_map Flt
                  (lower
                     (clipped (contains_pixel ROI)
                        (min (values k (window year_select 1 col))))
                     (clipped (contains_pixel ROI)
                        (min (values k (window year_select 0 col))))))
               n Hn).
    unfold observed. now rewrite lower_clipped, values_app, min_app.
  - intros m. apply min_least.
Qed.

Lemma meanCol_is_lowest_observation_witness :
  exists col M,
    lsCol sample_run_archive = Some col /\
    meanCol 2022 sample_run_archive sample_ROI = Some M /\
    band "nbr" M
    = Some (option_map Flt (min (values "nbr" (window 2022 1 col ++ window 2022 0 col)))).
Proof.
  assert (exists col, lsCol sample_run_archive = Some col /\
                      window 2022 1 col <> [] /\
                      window 2022 0 col <> [])
    as (col & Hcol & HA & HB).
  { eexists. split; [ vm_compute; reflexivity | ].
    split; vm_compute; intros H; discriminate H. }
  assert (Hin : In "nbr" allVariables) by (left; reflexivity).
  destruct (meanCol_is_lowest_observation 2022 sample_run_archive sample_ROI
              col "nbr" Hcol Hin HA HB) as (M & HM & Hband & _).
  exists col, M. repeat split; assumption.
Defined.

(** *** Export names *)

Lemma append_inv_head (p a b : string) : (p ++ a = p ++ b)%string -> a = b.
Proof.
  induction p as [ | c p IH]; cbn; intros H; [ exact H | ].
  injection H as H. now apply IH.
Qed.

(** A decimal numeral followed by an underscore is read back in one way. *)
Lemma uint_then_underscore (d d' : Decimal.uint) (s s' : string) :
  (NilEmpty.string_of_uint d ++ ("_" ++ s)
   = NilEmpty.string_of_uint d' ++ ("_" ++ s'))%string ->
  d = d' /\ s = s'.
Proof.
  revert d'. induction d as [ | d IH | d IH | d IH | d IH | d IH | d IH
                              | d IH | d IH | d IH | d IH];
    intros [ | d' | d' | d' | d' | d' | d' | d' | d' | d' | d'];
    cbn; intros H; try discriminate H;
    injection H as H;
    try (destruct (IH _ H) as [-> ->]); now split.
Qed.

Lemma NilZero_uint (d : Decimal.uint) :
  NilZero.string_of_uint d
  = NilEmpty.string_of_uint (match d with Decimal.Nil => Decimal.D0 Decimal.Nil | _ => d end).
Proof. now destruct d. Qed.

Lemma show_then_underscore (y y' : Z) (s s' : string) :
  (show y ++ ("_" ++ s) = show y' ++ ("_" ++ s'))%string -> y = y' /\ s = s'.
Proof.
  unfold show. intros H.
  rewrite <- (DecimalZ.of_to y), <- (DecimalZ.of_to y').
  destruct (Z.to_int y) as [d | d], (Z.to_int y') as [d' | d'];
    cbn [NilZero.string_of_int] in H; rewrite !NilZero_uint in H.
  - apply uint_then_underscore in H. destruct H as [Hd ->]. split; [ | reflexivity ].
    destruct d, d'; try discriminate Hd; try (injection Hd as <-); reflexivity.
  - exfalso. destruct d as [ | | | | | | | | | | ]; discriminate H.
  - exfalso. destruct d' as [ | | | | | | | | | | ]; discriminate H.
  - cbn in H. injection H as H.
    apply uint_then_underscore in H. destruct H as [Hd ->]. split; [ | reflexivity ].
    destruct d, d'; try discriminate Hd; try (injection Hd as <-); reflexivity.
Qed.

(** Two-digit tile numbers below 100 are read back in one way. *)
Lemma format02d_inj (i j : nat) (s s' : string) :
  (i < 100)%nat -> (j < 100)%nat ->
  (format02d i ++ s = format02d j ++ s')%string -> String.length (format02d i) = 2%nat /\ i = j.
Proof.
  intros Hi Hj H.
  assert (Hall : forallb (fun a =>
                   forallb (fun b =>
                     implb (String.eqb (substring 0 2 (format02d a))
                                       (substring 0 2 (format02d b)))
                           (Nat.eqb a b)) (seq 0 100)
                   && Nat.eqb (String.length (format02d a)) 2) (seq 0 100) = true)
    by (vm_compute; reflexivity).
  rewrite forallb_forall in Hall.
  assert (Ha : In i (seq 0 100)) by (apply in_seq; lia).
  assert (Hb : In j (seq 0 100)) by (apply in_seq; lia).
  pose proof (Hall i Ha) as Hij. apply andb_true_iff in Hij.
  destruct Hij as [Hij Hlen]. apply Nat.eqb_eq in Hlen.
  pose proof (Hall j Hb) as Hj'. apply andb_true_iff in Hj'.
  destruct Hj' as [_ Hlen']. apply Nat.eqb_eq in Hlen'.
  rewrite forallb_forall in Hij. specialize (Hij j Hb).
  split; [ exact Hlen | ].
  assert (Hpre : substring 0 2 (format02d i) = substring 0 2 (format02d j)).
  { destruct (format02d i) as [ | a [ | b [ | ? ?]]]; try discriminate Hlen.
    destruct (format02d j) as [ | a' [ | b' [ | ? ?]]]; try discriminate Hlen'.
    cbn in H. injection H as -> -> _. reflexivity. }
  rewrite Hpre, String.eqb_refl in Hij. now apply Nat.eqb_eq.
Qed.

(** The task queued for the drawn region. *)
Definition drawnTask (year_select : Z) (archive : Archive) (classifier : list num -> R)
    (max_extent : pixel) (shoreline : list Z) (ROI : Geometry) : ExportTask :=
  mkExportTask
    (mkVectors
       (candidatesOver year_select archive classifier max_extent shoreline ROI (Some ROI))
       (Some ROI) 60)
    ("candidateFires__" ++ show year_select ++ "__drawROI_0px60m")%string
    "tundraFire_exports" "GeoJSON".

(** What the tile loop returns when it returns. *)
Lemma tileLoop_inv year_select archive classifier max_extent shoreline ROI grid
    (fuel : nat) : forall (i : nat) (queue tasks : list ExportTask),
  tileLoop year_select archive classifier max_extent shoreline ROI grid fuel i queue
  = Some tasks ->
  tasks = queue ++ map (tileTask year_select archive classifier max_extent shoreline
                                 ROI grid) (seq i (24 - i)).
Proof.
  induction fuel as [ | fuel IH]; intros i queue tasks H; [ discriminate H | ].
  cbn [tileLoop] in H. destruct (Nat.ltb_spec i 24) as [Hi | Hi].
  - apply IH in H. rewrite H, exportTile_appends, <- app_assoc.
    replace (24 - i)%nat with (S (24 - S i)) by lia. reflexivity.
  - injection H as <-. replace (24 - i)%nat with 0%nat by lia.
    cbn. now rewrite app_nil_r.
Qed.

(** The three export modes. *)
Lemma exports_inv year_select archive classifier max_extent shoreline ROI grid
    (Export_select ROI_select : bool) (fuel : nat) (tasks : list ExportTask) :
  exports year_select archive classifier max_extent shoreline ROI grid
          Export_select ROI_select fuel = Some tasks ->
  tasks = if Export_select
          then if ROI_select
               then [drawnTask year_select archive classifier max_extent shoreline ROI]
               else map (tileTask year_select archive classifier max_extent shoreline
                                  ROI grid) (seq 1 23)
          else [].
Proof.
  unfold exports. destruct Export_select, ROI_select; cbn [andb negb]; intros H.
  - now injection H as <-.
  - now apply tileLoop_inv in H.
  - now injection H as <-.
  - now injection H as <-.
Qed.

Lemma tile_name_inv y y' a c m e r g a' c' m' e' r' g' i j :
  (i < 100)%nat -> (j < 100)%nat ->
  description (tileTask y a c m e r g i) = description (tileTask y' a' c' m' e' r' g' j) ->
  y = y' /\ i = j.
Proof.
  intros Hi Hj H. unfold tileTask in H. cbn [description] in H.
  apply (append_inv_head "candidateFires__") in H.
  apply show_then_underscore in H. destruct H as [-> H]. split; [ reflexivity | ].
  apply (append_inv_head "_ROIsub_") in H.
  now apply format02d_inj in H.
Qed.

(** X19: export names identify the run: within one run (any mode, any
    region and grid) no two queued tasks share a name, the run queues 23,
    1 or 0 tasks according to the mode, and a task of one run has the name
    of a task of another run only if both runs are for the same year and
    the same region mode. *)
Theorem export_names_identify_the_run
    (y y' : Z) (archive archive' : Archive) (classifier classifier' : list num -> R)
    (max_extent max_extent' : pixel) (shoreline shoreline' : list Z)
    (ROI ROI' : Geometry) (grid grid' : list Geometry)
    (Export_select ROI_select Export_select' ROI_select' : bool)
    (fuel fuel' : nat) (tasks tasks' : list ExportTask)
    (Hrun : exports y archive classifier max_extent shoreline ROI grid
                    Export_select ROI_select fuel = Some tasks)
    (Hrun' : exports y' archive' classifier' max_extent' shoreline' ROI' grid'
                     Export_select' ROI_select' fuel' = Some tasks') :
  NoDup (map description tasks) /\
  length tasks
  = (if Export_select then if ROI_select then 1 else 23 else 0)%nat /\
  (forall t t', In t tasks -> In t' tasks' -> description t = description t' ->
                y = y' /\ ROI_select = ROI_select').
Proof.
  apply exports_inv in Hrun. apply exports_inv in Hrun'.
  split; [ | split ].
  - rewrite Hrun. destruct Export_select; [ | constructor ].
    destruct ROI_select; [ repeat constructor; intros [] | ].
    rewrite map_map. apply Finite.Injective_map_NoDup_in; [ | apply seq_NoDup ].
    intros i j Hi Hj H. apply in_seq in Hi, Hj.
    apply tile_name_inv in H; [ tauto | lia | lia ].
  - rewrite Hrun. destruct Export_select; [ | reflexivity ].
    destruct ROI_select; [ reflexivity | ].
    now rewrite length_map, length_seq.
  - intros t t' Ht Ht' H. rewrite Hrun in Ht. rewrite Hrun' in Ht'.
    destruct Export_select; [ | contradiction ].
    destruct Export_select'; [ | contradiction ].
    destruct ROI_select, ROI_select'.
    + destruct Ht as [<- | []], Ht' as [<- | []].
      unfold drawnTask in H. cbn [description] in H.
      apply (append_inv_head "candidateFires__") in H.
      apply show_then_underscore in H. now destruct H as [-> _].
    + exfalso. destruct Ht as [<- | []].
      apply in_map_iff in Ht'. destruct Ht' as (j & <- & _).
      unfold drawnTask, tileTask in H. cbn [description] in H.
      apply (append_inv_head "candidateFires__") in H.
      apply show_then_underscore in H. destruct H as [_ H]. discriminate H.
    + exfalso. destruct Ht' as [<- | []].
      apply in_map_iff in Ht. destruct Ht as (j & <- & _).
      unfold drawnTask, tileTask in H. cbn [description] in H.
      apply (append_inv_head "candidateFires__") in H.
      apply show_then_underscore in H. destruct H as [_ H]. discriminate H.
    + apply in_map_iff in Ht, Ht'.
      destruct Ht as (i & <- & Hi), Ht' as (j & <- & Hj).
      apply in_seq in Hi, Hj.
      apply tile_name_inv in H; [ | lia | lia ]. now destruct H as [-> _].
Qed.

Lemma export_names_identify_the_run_witness :
  exists tasks tasks',
    exports 2022 sample_run_archive sample_classifier (int 0) [1%Z] sample_ROI
            sample_grid true false 24 = Some tasks /\
    exports 2021 sample_run_archive sample_classifier (int 0) [1%Z] sample_ROI
            sample_grid true true 0 = Some tasks' /\
    NoDup (map description tasks) /\ length tasks = 23%nat /\
    forall t t', In t tasks -> In t' tasks' -> description t <> description t'.
Proof.
  assert (Hrun : exports 2022 sample_run_archive sample_classifier (int 0) [1%Z]
                         sample_ROI sample_grid true false 24
                 = Some ([] ++ map (tileTask 2022 sample_run_archive sample_classifier
                                             (int 0) [1%Z] sample_ROI sample_grid)
                                   (seq 1 23))).
  { unfold exports. cbn [andb negb]. apply (tileLoop_runs _ _ _ _ _ _ _ 23); lia. }
  pose proof (export_names_identify_the_run
                2022 2021 sample_run_archive sample_run_archive
                sample_classifier sample_classifier (int 0) (int 0) [1%Z] [1%Z]
                sample_ROI sample_ROI sample_grid sample_grid
                true false true true 24 0 _ _ Hrun eq_refl) as (Hnd & Hlen & Hyear).
  do 2 eexists. split; [ exact Hrun | ]. split; [ reflexivity | ].
  split; [ exact Hnd | ]. split; [ exact Hlen | ].
  intros t t' Ht Ht' H. destruct (Hyear t t' Ht Ht' H) as [_ Hmode]. discriminate Hmode.
Defined.

(** *** The summer windows *)

Lemma summer_length (y : Z) :
  (days_from_civil (mkDate y 9 1) = days_from_civil (mkDate y 6 15) + 78)%Z.
Proof.
  unfold days_from_civil. cbn [year month day].
  change (6 <=? 2)%Z with false. change (9 <=? 2)%Z with false.
  change ((6 + 9) mod 12)%Z with 3%Z. change ((9 + 9) mod 12)%Z with 6%Z.
  cbv zeta. cbv iota.
  change ((153 * 3 + 2) / 5)%Z with 92%Z. change ((153 * 6 + 2) / 5)%Z with 184%Z.
  lia.
Qed.

Lemma in_window_span year_select k img :
  in_window year_select k img = true ->
  exists t, time_start img = Some t /\
            (millis (mkDate (year_select + k) 6 15) <= t
             < millis (mkDate (year_select + k) 6 15) + 78 * 86400000)%Z.
Proof.
  unfold in_window, in_range, advance_years, startDate, endDate.
  cbn [year month day].
  destruct (time_start img) as [t | ]; [ | discriminate ].
  intros H. apply andb_prop in H. destruct H as [Hs He].
  apply Z.leb_le in Hs. apply Z.ltb_lt in He.
  exists t. split; [ reflexivity | ].
  unfold millis in *. rewrite summer_length in He. lia.
Qed.

(** X20: an observation that enters the pre-fire composite lies over the
    region and in the 78 days from 15 June of the year before the selected
    one; it is one of the baseline observations behind [PREmedian], and it
    is in neither evaluation window nor in the post-fire composite. *)
Theorem pre_fire_observations_are_baseline_only
    (year_select : Z) (col : ImageCollection) (img : Image)
    (Hpre : In img (preObservations year_select col)) :
  in_bounds img = true /\
  (exists t, time_start img = Some t /\
             (millis (mkDate (year_select - 1) 6 15) <= t
              < millis (mkDate (year_select - 1) 6 15) + 78 * 86400000)%Z) /\
  In img (baseline year_select col) /\
  ~ In img (window year_select 0 col) /\
  ~ In img (window year_select 1 col) /\
  ~ In img (postObservations year_select col).
Proof.
  unfold preObservations, filterDate, filterBounds in Hpre.
  apply filter_In in Hpre. destruct Hpre as [Hin Hw].
  apply filter_In in Hin. destruct Hin as [Hin Hb].
  change (in_window year_select (-1) img = true) in Hw.
  split; [ exact Hb | ]. split; [ exact (in_window_span _ _ _ Hw) | ].
  split; [ unfold baseline; apply filter_In; split; [ exact Hin | now rewrite Hw ] | ].
  assert (H0 : in_window year_select 0 img = false)
    by (apply (windows_apart year_select (-1) 0); [ lia | exact Hw ]).
  assert (H1 : in_window year_select 1 img = false)
    by (apply (windows_apart year_select (-1) 1); [ lia | exact Hw ]).
  split; [ | split ].
  - rewrite window_filter, filter_In. intros [_ H]. congruence.
  - rewrite window_filter, filter_In. intros [_ H]. congruence.
  - unfold postObservations, filterDate. rewrite filter_In. intros [_ H].
    change (in_window year_select 1 img = true) in H. congruence.
Qed.

Lemma pre_fire_observations_are_baseline_only_witness :
  exists col img,
    lsCol sample_run_archive = Some col /\
    In img (preObservations 2022 col) /\
    In img (baseline 2022 col) /\ ~ In img (window 2022 0 col).
Proof.
  assert (exists col img, lsCol sample_run_archive = Some col /\
                          In img (preObservations 2022 col))
    as (col & img & Hcol & Hin).
  { do 2 eexists. split; [ vm_compute; reflexivity | ]. left. reflexivity. }
  destruct (pre_fire_observations_are_baseline_only 2022 col img Hin)
    as (_ & _ & Hbase & H0 & _).
  exists col, img. repeat split; assumption.
Defined.

(** *** The burn-area indices, EVI and MIRBI *)

Lemma inverse_nonneg (d : R) : 0 <= d -> 0 <= 1 / d.
Proof.
  intros Hd. destruct (Req_dec d 0) as [-> | Hne].
  - unfold Rdiv. rewrite Rinv_0. lra.
  - unfold Rdiv. rewrite Rmult_1_l. left. apply Rinv_0_lt_compat. lra.
Qed.

(** X21: where the inputs have data, EVI, MIRBI, BAI and BAIMs have the
    values of their formulas over the reals; BAIMs is the inverse of
    [0.9025 NIR^2 + 0.64 sSWIR^2], and neither burn-area index is ever
    negative. *)
Theorem expression_indices
    (img : Image) (b r n s l : num)
    (Hb : band "blue" img = Some (Some b)) (Hr : band "red" img = Some (Some r))
    (Hn : band "nir" img = Some (Some n)) (Hs : band "sswir" img = Some (Some s))
    (Hl : band "lswir" img = Some (Some l)) :
  let one (name : string) (v : R) := Some (mkImage [(name, flt v)] None (in_bounds img)) in
  let bai := 1 / ((0.1 - toR r) ^ 2 + (0.06 - toR n) ^ 2) in
  let baims := 1 / (0.9025 * toR n ^ 2 + 0.64 * toR s ^ 2) in
  getEVI img
  = one "evi" (2.5 * ((toR n - toR r) / (toR n + 6 * toR r - 7.5 * toR b + 1))) /\
  getMIRBI img = one "mirbi" (10 * toR l - 9.8 * toR s + 2) /\
  getBAI img = one "bai" bai /\
  getBAIMs img = one "baims" baims /\
  0 <= bai /\ 0 <= baims.
Proof.
  intros one bai baims.
  split; [ | split; [ | split; [ | split; [ | split ] ] ] ].
  - unfold getEVI. rewrite Hn, Hr, Hb. unfold one.
    cbn [bind pmap2 pmap option_map flt int selectFirstAs result computed withBands
         bands time_start in_bounds].
    unfold ntoFloat, ndiv. cbn [toR].
    repeat first [ rewrite toR_nmul | rewrite toR_nadd | rewrite toR_nsub ].
    cbn [toR]. reflexivity.
  - unfold getMIRBI. rewrite Hl, Hs. unfold one.
    cbn [bind pmap2 pmap option_map flt int selectFirstAs result computed withBands
         bands time_start in_bounds].
    unfold ntoFloat. cbn [toR].
    repeat first [ rewrite toR_nmul | rewrite toR_nadd | rewrite toR_nsub ].
    cbn [toR]. reflexivity.
  - unfold getBAI. rewrite Hr, Hn. unfold one, bai.
    cbn [bind pmap2 pmap option_map flt int selectFirstAs result computed withBands
         bands time_start in_bounds].
    unfold ntoFloat, ndiv, npow. cbn [toR].
    repeat first [ rewrite toR_nmul | rewrite toR_nadd | rewrite toR_nsub ].
    cbn [toR]. reflexivity.
  - unfold getBAIMs. rewrite Hn, Hs. unfold one, baims.
    cbn [bind pmap2 pmap option_map flt int selectFirstAs result computed withBands
         bands time_start in_bounds].
    unfold ntoFloat, ndiv, npow. cbn [toR].
    repeat first [ rewrite toR_nmul | rewrite toR_nadd | rewrite toR_nsub ].
    cbn [toR].
    replace ((toR n - 0.05 * toR n) ^ 2 + (toR s - 0.2 * toR s) ^ 2)
      with (0.9025 * toR n ^ 2 + 0.64 * toR s ^ 2) by lra.
    reflexivity.
  - apply inverse_nonneg. apply Rplus_le_le_0_compat; apply pow2_ge_0.
  - apply inverse_nonneg.
    pose proof (pow2_ge_0 (toR n)). pose proof (pow2_ge_0 (toR s)). lra.
Qed.

Lemma expression_indices_witness :
  getMIRBI sample_canonical
  = Some (mkImage [("mirbi", flt (10 * 0.10 - 9.8 * 0.20 + 2))] None true) /\
  getBAIMs sample_canonical
  = Some (mkImage [("baims", flt (1 / (0.9025 * 0.30 ^ 2 + 0.64 * 0.20 ^ 2)))] None true).
Proof.
  destruct (expression_indices sample_canonical
              (Flt 0.02) (Flt 0.05) (Flt 0.30) (Flt 0.20) (Flt 0.10)
              eq_refl eq_refl eq_refl eq_refl eq_refl)
    as (_ & Hm & _ & Hb & _).
  split; [ exact Hm | exact Hb ].
Defined.
